(** * CounselFlow: the centralized data-access hub

    A shallow embedding of the Data Management Hub
    ([DataManagementHubService]), the Data Context Provider
    ([DataContextProviderService]) and the adapter factory
    ([ModuleDataAdapterFactory]), with the properties the specification
    states about them.

    Conventions of the embedding.
    - A JavaScript value that crosses the hub (a query, a mutation payload,
      a stored record, a cached result) is a [json] value.  An object is
      the list of its own properties in enumeration order, which is the
      order [JSON.stringify] prints; a property whose value is [undefined]
      is absent.  A number is an integer.  A string is the byte sequence of
      its UTF-8 encoding, the bytes [Buffer.from] produces (a surrogate
      half left alone by [substring] is held as the three bytes of its
      code point).
    - The services are stateful: every operation is a function from a
      [World] to an outcome and a new [World].
    - The relational store (TypeORM) is a collaborator: what a repository
      call does is a field of a [Driver]; the transaction discipline
      (working copy, commit, rollback) is part of the world.
    - Redis is modelled concretely: a finite map from keys to strings that
      can be offline, in which case every command throws. *)

From Stdlib Require Import ZArith QArith List String Ascii Bool Lia.
From Stdlib Require Import Qround Qabs Qpower Lqa.
From Stdlib Require Import DecimalString DecimalZ DecimalFacts DecimalPos.
From stdpp Require Import base option list gmap strings.

Local Open Scope string_scope.

(** ** JSON values, [JSON.stringify] and [JSON.parse] *)

Module Json.

Unset Elimination Schemes.
Inductive json : Type :=
| JNull
| JBool (b : bool)
| JNum (n : Z)
| JStr (s : string)
| JArr (l : list json)
| JObj (l : list (string * json)).
Set Elimination Schemes.

(** Nested induction: the elements of an array and the values of an object
    satisfy the predicate. *)
Definition json_ind (P : json -> Prop)
    (Hnull : P JNull) (Hbool : forall b, P (JBool b))
    (Hnum : forall n, P (JNum n)) (Hstr : forall s, P (JStr s))
    (Harr : forall l, Forall P l -> P (JArr l))
    (Hobj : forall l, Forall (fun kv => P (snd kv)) l -> P (JObj l)) :
  forall v, P v :=
  fix go (v : json) : P v :=
    match v with
    | JNull => Hnull
    | JBool b => Hbool b
    | JNum n => Hnum n
    | JStr s => Hstr s
    | JArr l =>
        Harr l ((fix gol (l : list json) : Forall P l :=
                   match l with
                   | [] => @List.Forall_nil _ P
                   | x :: l' => @List.Forall_cons _ P x l' (go x) (gol l')
                   end) l)
    | JObj l =>
        Hobj l ((fix gom (l : list (string * json)) :
                   Forall (fun kv => P (snd kv)) l :=
                   match l with
                   | [] => @List.Forall_nil _ _
                   | kv :: l' => @List.Forall_cons _ _ kv l' (go (snd kv)) (gom l')
                   end) l)
    end.

(** *** Printing *)

(** The double quote, U+0022. *)
Definition dquote : ascii := "034"%char.

Definition hex_digit (n : N) : ascii :=
  match n with
  | 0 => "0" | 1 => "1" | 2 => "2" | 3 => "3" | 4 => "4" | 5 => "5"
  | 6 => "6" | 7 => "7" | 8 => "8" | 9 => "9" | 10 => "a" | 11 => "b"
  | 12 => "c" | 13 => "d" | 14 => "e" | _ => "f"
  end%N%char.

(** [QuoteJSONString]: the quote, the backslash and the control characters
    below U+0020 are escaped, everything else is copied. *)
Definition escape_char (c : ascii) : string :=
  let n := N_of_ascii c in
  if (n =? 34)%N then String "\" (String dquote "")
  else if (n =? 92)%N then "\\"
  else if (n =? 8)%N then "\b"
  else if (n =? 12)%N then "\f"
  else if (n =? 10)%N then "\n"
  else if (n =? 13)%N then "\r"
  else if (n =? 9)%N then "\t"
  else if (n <? 32)%N then
    String "\" (String "u" (String "0" (String "0"
      (String (hex_digit (n / 16)) (String (hex_digit (n mod 16)) "")))))
  else String c "".

Fixpoint escape (s : string) : string :=
  match s with
  | "" => ""
  | String c s' => escape_char c +:+ escape s'
  end.

Definition quote (s : string) : string :=
  String dquote (escape s +:+ String dquote "").

Definition show_Z (n : Z) : string := NilZero.string_of_int (Z.to_int n).

Definition member_text (text : json -> string) (kv : string * json) : string :=
  quote (fst kv) +:+ ":" +:+ text (snd kv).

Fixpoint stringify (v : json) : string :=
  match v with
  | JNull => "null"
  | JBool true => "true"
  | JBool false => "false"
  | JNum n => show_Z n
  | JStr s => quote s
  | JArr l => "[" +:+ String.concat "," (map stringify l) +:+ "]"
  | JObj l => "{" +:+ String.concat "," (map (member_text stringify) l) +:+ "}"
  end.

(** *** Parsing

    [JSON.parse] by recursive descent.  The parser accepts the JSON grammar
    with insignificant white space, restricted to integer numbers (a
    fraction or an exponent is refused, as the model has no such number).
    A [\uXXXX] escape yields the UTF-8 bytes of that code unit.  [None]
    stands for the [SyntaxError] the built-in throws. *)

Definition is_ws (c : ascii) : bool :=
  let n := N_of_ascii c in
  ((n =? 32) || (n =? 9) || (n =? 10) || (n =? 13))%N.

Fixpoint skip_ws (s : string) : string :=
  match s with
  | "" => ""
  | String c s' => if is_ws c then skip_ws s' else s
  end.

Definition hex_value (c : ascii) : option N :=
  let n := N_of_ascii c in
  if ((48 <=? n) && (n <=? 57))%N then Some (n - 48)%N
  else if ((97 <=? n) && (n <=? 102))%N then Some (n - 87)%N
  else if ((65 <=? n) && (n <=? 70))%N then Some (n - 55)%N
  else None.

Definition hex4 (a b c d : ascii) : option N :=
  match hex_value a, hex_value b, hex_value c, hex_value d with
  | Some x, Some y, Some z, Some w => Some (((x * 16 + y) * 16 + z) * 16 + w)%N
  | _, _, _, _ => None
  end.

Definition utf8_encode (n : N) : string :=
  if (n <? 128)%N then String (ascii_of_N n) ""
  else if (n <? 2048)%N then
    String (ascii_of_N (192 + n / 64)) (String (ascii_of_N (128 + n mod 64)) "")
  else
    String (ascii_of_N (224 + n / 4096))
      (String (ascii_of_N (128 + (n / 64) mod 64))
         (String (ascii_of_N (128 + n mod 64)) "")).

Definition push_char (c : ascii) (r : option (string * string)) :
    option (string * string) :=
  match r with
  | Some (s, rest) => Some (String c s, rest)
  | None => None
  end.

Definition push_string (p : string) (r : option (string * string)) :
    option (string * string) :=
  match r with
  | Some (s, rest) => Some (p +:+ s, rest)
  | None => None
  end.

(** The characters of a string literal, after its opening quote. *)
Fixpoint parse_chars (s : string) : option (string * string) :=
  match s with
  | "" => None
  | String c s' =>
      if (c =? dquote)%char then Some ("", s')
      else if (c =? "\")%char then
        match s' with
        | "" => None
        | String e s'' =>
            if (e =? dquote)%char then push_char dquote (parse_chars s'')
            else if (e =? "\")%char then push_char "\" (parse_chars s'')
            else if (e =? "/")%char then push_char "/" (parse_chars s'')
            else if (e =? "b")%char then push_char (ascii_of_N 8) (parse_chars s'')
            else if (e =? "f")%char then push_char (ascii_of_N 12) (parse_chars s'')
            else if (e =? "n")%char then push_char (ascii_of_N 10) (parse_chars s'')
            else if (e =? "r")%char then push_char (ascii_of_N 13) (parse_chars s'')
            else if (e =? "t")%char then push_char (ascii_of_N 9) (parse_chars s'')
            else if (e =? "u")%char then
              match s'' with
              | String h1 (String h2 (String h3 (String h4 r))) =>
                  match hex4 h1 h2 h3 h4 with
                  | Some n => push_string (utf8_encode n) (parse_chars r)
                  | None => None
                  end
              | _ => None
              end
            else None
        end
      else if (N_of_ascii c <? 32)%N then None
      else push_char c (parse_chars s')
  end.

Definition digit_of (c : ascii) : option (Decimal.uint -> Decimal.uint) :=
  match N_of_ascii c with
  | 48 => Some Decimal.D0 | 49 => Some Decimal.D1 | 50 => Some Decimal.D2
  | 51 => Some Decimal.D3 | 52 => Some Decimal.D4 | 53 => Some Decimal.D5
  | 54 => Some Decimal.D6 | 55 => Some Decimal.D7 | 56 => Some Decimal.D8
  | 57 => Some Decimal.D9 | _ => None
  end%N.

Fixpoint read_digits (s : string) : Decimal.uint * string :=
  match s with
  | "" => (Decimal.Nil, "")
  | String c s' =>
      match digit_of c with
      | Some d => let (u, r) := read_digits s' in (d u, r)
      | None => (Decimal.Nil, s)
      end
  end.

(** What may not follow the integer part: a fraction or an exponent. *)
Definition ends_number (s : string) : bool :=
  match s with
  | "" => true
  | String c _ =>
      negb ((c =? ".")%char || (c =? "e")%char || (c =? "E")%char)
  end.

Definition read_nat (s : string) : option (Decimal.uint * string) :=
  match read_digits s with
  | (Decimal.Nil, _) => None
  | (Decimal.D0 Decimal.Nil, r) =>
      if ends_number r then Some (Decimal.D0 Decimal.Nil, r) else None
  | (Decimal.D0 _, _) => None
  | (u, r) => if ends_number r then Some (u, r) else None
  end.

Definition parse_number (s : string) : option (json * string) :=
  match s with
  | String c s' =>
      if (c =? "-")%char then
        match read_nat s' with
        | Some (u, r) => Some (JNum (Z.of_int (Decimal.Neg u)), r)
        | None => None
        end
      else
        match read_nat s with
        | Some (u, r) => Some (JNum (Z.of_int (Decimal.Pos u)), r)
        | None => None
        end
  | "" => None
  end.

Fixpoint strip_prefix (p s : string) : option string :=
  match p, s with
  | "", _ => Some s
  | String a p', String b s' =>
      if (a =? b)%char then strip_prefix p' s' else None
  | String _ _, "" => None
  end.

Fixpoint parse_value (fuel : nat) (s : string) : option (json * string) :=
  match fuel with
  | O => None
  | S fuel =>
      match skip_ws s with
      | "" => None
      | String c r =>
          if (c =? "n")%char then
            match strip_prefix "ull" r with
            | Some r' => Some (JNull, r') | None => None
            end
          else if (c =? "t")%char then
            match strip_prefix "rue" r with
            | Some r' => Some (JBool true, r') | None => None
            end
          else if (c =? "f")%char then
            match strip_prefix "alse" r with
            | Some r' => Some (JBool false, r') | None => None
            end
          else if (c =? dquote)%char then
            match parse_chars r with
            | Some (x, r') => Some (JStr x, r') | None => None
            end
          else if (c =? "[")%char then
            match skip_ws r with
            | String c' r' =>
                if (c' =? "]")%char then Some (JArr [], r')
                else
                  match parse_elems fuel r with
                  | Some (l, r'') => Some (JArr l, r'') | None => None
                  end
            | "" => None
            end
          else if (c =? "{")%char then
            match skip_ws r with
            | String c' r' =>
                if (c' =? "}")%char then Some (JObj [], r')
                else
                  match parse_members fuel r with
                  | Some (l, r'') => Some (JObj l, r'') | None => None
                  end
            | "" => None
            end
          else parse_number (String c r)
      end
  end
with parse_elems (fuel : nat) (s : string) : option (list json * string) :=
  match fuel with
  | O => None
  | S fuel =>
      match parse_value fuel s with
      | Some (v, r) =>
          match skip_ws r with
          | String c r' =>
              if (c =? ",")%char then
                match parse_elems fuel r' with
                | Some (l, r'') => Some (v :: l, r'') | None => None
                end
              else if (c =? "]")%char then Some ([v], r')
              else None
          | "" => None
          end
      | None => None
      end
  end
with parse_members (fuel : nat) (s : string) :
    option (list (string * json) * string) :=
  match fuel with
  | O => None
  | S fuel =>
      match skip_ws s with
      | String q s1 =>
          if (q =? dquote)%char then
            match parse_chars s1 with
            | Some (k, s2) =>
                match skip_ws s2 with
                | String col s3 =>
                    if (col =? ":")%char then
                      match parse_value fuel s3 with
                      | Some (v, r) =>
                          match skip_ws r with
                          | String c r' =>
                              if (c =? ",")%char then
                                match parse_members fuel r' with
                                | Some (l, r'') => Some ((k, v) :: l, r'')
                                | None => None
                                end
                              else if (c =? "}")%char then Some ([(k, v)], r')
                              else None
                          | "" => None
                          end
                      | None => None
                      end
                    else None
                | "" => None
                end
            | None => None
            end
          else None
      | "" => None
      end
  end.

(** [JSON.parse(text)]: one value, then nothing but white space. *)
Definition parse (s : string) : option json :=
  match parse_value (S (String.length s)) s with
  | Some (v, r) => match skip_ws r with "" => Some v | _ => None end
  | None => None
  end.

(** The fuel a value needs: one unit per node and per list cell. *)
Fixpoint jsize (v : json) : nat :=
  match v with
  | JArr l => S (list_sum (map (fun x => S (jsize x)) l))
  | JObj l => S (list_sum (map (fun kv => S (jsize (snd kv))) l))
  | _ => 1
  end.

End Json.
Import Json.

(** ** JavaScript conversions used by the services *)

Module Js.

(** [obj.k]: the value of an own property; [None] is [undefined]. *)
Fixpoint assoc (k : string) (l : list (string * json)) : option json :=
  match l with
  | [] => None
  | (k', v) :: l' => if String.eqb k k' then Some v else assoc k l'
  end.

Definition prop (k : string) (v : json) : option json :=
  match v with
  | JObj l => assoc k l
  | _ => None
  end.

(** An object literal: a property whose value is [undefined] is left out. *)
Fixpoint object (l : list (string * option json)) : list (string * json) :=
  match l with
  | [] => []
  | (k, Some v) :: l' => (k, v) :: object l'
  | (_, None) :: l' => object l'
  end.

(** [ToBoolean]. *)
Definition truthy (v : json) : bool :=
  match v with
  | JNull => false
  | JBool b => b
  | JNum n => negb (n =? 0)%Z
  | JStr s => negb (String.eqb s "")
  | JArr _ | JObj _ => true
  end.

Definition truthy_opt (v : option json) : bool :=
  match v with Some x => truthy x | None => false end.

(** [ToString], as a template literal applies it; inside an array, [null]
    prints as the empty string. *)
Fixpoint to_string (v : json) : string :=
  match v with
  | JNull => "null"
  | JBool true => "true"
  | JBool false => "false"
  | JNum n => show_Z n
  | JStr s => s
  | JArr l =>
      String.concat ","
        (map (fun x => match x with JNull => "" | _ => to_string x end) l)
  | JObj _ => "[object Object]"
  end.

Definition to_string_opt (v : option json) : string :=
  match v with Some x => to_string x | None => "undefined" end.

(** [Object.entries]: own enumerable properties; the indices of an array or
    of a string (by byte, which is by character on ASCII text). *)
Fixpoint indexed {A} (i : nat) (l : list A) : list (nat * A) :=
  match l with
  | [] => []
  | x :: l' => (i, x) :: indexed (S i) l'
  end.

Definition show_nat (n : nat) : string := show_Z (Z.of_nat n).

Fixpoint chars (s : string) : list json :=
  match s with
  | "" => []
  | String c s' => JStr (String c "") :: chars s'
  end.

Definition entries (v : json) : list (string * json) :=
  match v with
  | JObj l => l
  | JArr l => map (fun iv => (show_nat (fst iv), snd iv)) (indexed 0 l)
  | JStr s => map (fun iv => (show_nat (fst iv), snd iv)) (indexed 0 (chars s))
  | _ => []
  end.

(** [{...a, ...b}] on property lists. *)
Fixpoint put (k : string) (v : json) (l : list (string * json)) :
    list (string * json) :=
  match l with
  | [] => [(k, v)]
  | (k', v') :: l' =>
      if String.eqb k k' then (k, v) :: l' else (k', v') :: put k v l'
  end.

Definition merge (a b : list (string * json)) : list (string * json) :=
  fold_left (fun acc kv => put (fst kv) (snd kv) acc) b a.

(** [s.substring(0, s.length - 1)] on the UTF-8 text of [s].  The indexes
    of a JavaScript string count UTF-16 code units.  A character of the
    Basic Multilingual Plane is one unit, and one to three bytes of UTF-8;
    a character beyond it is two units, a surrogate pair, and four bytes.
    Cutting the last unit therefore removes the bytes of a last character
    of the first kind, and leaves of one of the second kind its high
    surrogate, which is held as the three bytes of its code point.  On the
    empty string the result is the empty string. *)
Definition byte (c : ascii) : N := N_of_ascii c.

(** The first byte of a character of [k] bytes, for [k] from 2 to 4. *)
Definition lead (k : nat) (c : ascii) : bool :=
  match k with
  | 2%nat => (192 <=? byte c)%N && (byte c <? 224)%N
  | 3%nat => (224 <=? byte c)%N && (byte c <? 240)%N
  | 4%nat => (240 <=? byte c)%N && (byte c <? 248)%N
  | _ => false
  end.

(** The number of bytes of the last character, read off the reversed
    text. *)
Definition last_width (r : list ascii) : nat :=
  match r with
  | [] => 0
  | c :: r1 =>
      if (byte c <? 128)%N then 1
      else match r1 with
           | l :: r2 =>
               if lead 2 l then 2
               else match r2 with
                    | l :: r3 =>
                        if lead 3 l then 3
                        else match r3 with
                             | l :: _ => if lead 4 l then 4 else 1
                             | [] => 1
                             end
                    | [] => 1
                    end
           | [] => 1
           end
  end%nat.

(** The high surrogate of the character whose first three bytes are given:
    0xD800 + ((code point - 0x10000) >> 10), as three bytes. *)
Definition high_surrogate (b0 b1 b2 : ascii) : list ascii :=
  let top := (N.lor (N.shiftl (N.land (byte b0) 7) 8)
                (N.lor (N.shiftl (N.land (byte b1) 63) 2)
                       (N.shiftr (N.land (byte b2) 63) 4)))%N in
  let hi := (55296 + (top - 64))%N in
  [ascii_of_N 237;
   ascii_of_N (N.lor 128 (N.land (N.shiftr hi 6) 63));
   ascii_of_N (N.lor 128 (N.land hi 63))].

Definition without_last_unit (s : string) : string :=
  let r := rev (list_ascii_of_string s) in
  match last_width r, r with
  | 4%nat, _ :: b2 :: b1 :: b0 :: rest =>
      string_of_list_ascii (rev rest ++ high_surrogate b0 b1 b2)
  | n, _ => string_of_list_ascii (rev (drop n r))
  end.

End Js.

(** ** Base64 and the cache key *)

Module Base64.

Definition alphabet (n : N) : ascii :=
  (if n <? 26 then ascii_of_N (65 + n)
   else if n <? 52 then ascii_of_N (71 + n)
   else if n <? 62 then ascii_of_N (n - 4)
   else if n =? 62 then "+"%char
   else "/"%char)%N.

Definition sextet (n : N) (shift : N) : ascii :=
  alphabet (N.land (N.shiftr n shift) 63).

(** [Buffer.toString('base64')]: three bytes give four characters; the last
    group is padded with [=]. *)
Fixpoint encode (s : string) : string :=
  match s with
  | "" => ""
  | String a "" =>
      let n := N.shiftl (N_of_ascii a) 16 in
      String (sextet n 18) (String (sextet n 12) "==")
  | String a (String b "") =>
      let n := N.lor (N.shiftl (N_of_ascii a) 16) (N.shiftl (N_of_ascii b) 8) in
      String (sextet n 18) (String (sextet n 12) (String (sextet n 6) "="))
  | String a (String b (String c r)) =>
      let n := N.lor (N.lor (N.shiftl (N_of_ascii a) 16)
                            (N.shiftl (N_of_ascii b) 8)) (N_of_ascii c) in
      String (sextet n 18) (String (sextet n 12)
        (String (sextet n 6) (String (sextet n 0) (encode r))))
  end.

End Base64.

(** ** Redis glob patterns

    The matcher of the [KEYS] command ([stringmatchlen]): [*], [?],
    character classes with negation and ranges, and the backslash. *)

Module Glob.

Fixpoint all_stars (p : string) : bool :=
  match p with
  | "" => true
  | String c p' => (c =? "*")%char && all_stars p'
  end.

Definition in_range (lo hi x : ascii) : bool :=
  let a := N_of_ascii lo in
  let b := N_of_ascii hi in
  let c := N_of_ascii x in
  (if b <? a then (b <=? c) && (c <=? a) else (a <=? c) && (c <=? b))%N.

(** The inside of a class, after [[] and the optional [^]: whether [x] is
    listed, and the pattern after the closing bracket. *)
Fixpoint class (p : string) (x : ascii) (found : bool) : bool * string :=
  match p with
  | "" => (found, "")
  | String c p1 =>
      if (c =? "\")%char then
        match p1 with
        | String e p2 => class p2 x (found || (e =? x)%char)
        | "" => (found || (c =? x)%char, "")
        end
      else if (c =? "]")%char then (found, p1)
      else
        match p1 with
        | String d (String e p3) =>
            if (d =? "-")%char then class p3 x (found || in_range c e x)
            else class p1 x (found || (c =? x)%char)
        | _ => class p1 x (found || (c =? x)%char)
        end
  end.

Fixpoint matches (fuel : nat) (p s : string) : bool :=
  match fuel with
  | O => false
  | S fuel =>
      match s with
      | "" => all_stars p
      | String x s' =>
          match p with
          | "" => false
          | String c p' =>
              if (c =? "*")%char then
                if all_stars p' then true
                else
                  (fix from (s : string) : bool :=
                     match s with
                     | "" => false
                     | String _ t => matches fuel p' s || from t
                     end) s
              else if (c =? "?")%char then matches fuel p' s'
              else if (c =? "[")%char then
                let (neg, body) :=
                  match p' with
                  | String n b => if (n =? "^")%char then (true, b) else (false, p')
                  | "" => (false, p')
                  end in
                let (found, rest) := class body x false in
                if xorb neg found then matches fuel rest s' else false
              else if (c =? "\")%char then
                match p' with
                | String e p'' => if (e =? x)%char then matches fuel p'' s' else false
                | "" => if (c =? x)%char then matches fuel p' s' else false
                end
              else if (c =? x)%char then matches fuel p' s'
              else false
          end
      end
  end.

Definition glob (p s : string) : bool := matches (S (String.length p)) p s.

End Glob.

(** ** Numbers of the metrics

    The counters are integers.  The two derived figures (average latency,
    hit ratio) are JavaScript numbers, that is IEEE 754 binary64 values.  A
    finite one is held as the rational it denotes, in lowest terms; the
    infinities and NaN are values of their own.  Every arithmetic operation
    rounds its exact result to the nearest double, ties to even
    ([round64]): 53 significant bits, gradual underflow below 2^-1022
    (quantum 2^-1074), overflow to an infinity from 2^1024 on.  The two
    zeros are one value, [Fin 0]; a zero divisor counts as +0, which is
    what the counters the code divides by hold. *)

Module Num.

Inductive number : Type :=
| Fin (q : Q)
| PosInf
| NegInf
| NaN.

Definition sign (q : Q) : comparison := (q ?= 0)%Q.

Definition inf_of (c : comparison) : number :=
  match c with Eq => NaN | Lt => NegInf | Gt => PosInf end.

Definition flip (c : comparison) : comparison :=
  match c with Eq => Eq | Lt => Gt | Gt => Lt end.

Definition pow2 (z : Z) : Q := Qpower 2 z.

(** The integer nearest to [y]; of two equally near, the even one. *)
Definition rne (y : Q) : Z :=
  let f := Qfloor y in
  match (y - inject_Z f ?= 1 # 2)%Q with
  | Lt => f
  | Gt => (f + 1)%Z
  | Eq => if Z.even f then f else (f + 1)%Z
  end.

(** The binary exponent of a positive [y]: 2^e <= y < 2^(e+1). *)
Definition ilog2 (y : Q) : Z :=
  let d := (Z.log2 (Qnum y) - Z.log2 (Zpos (Qden y)))%Z in
  if Qle_bool (pow2 d) y then d else (d - 1)%Z.

(** A positive [y] rounded to a multiple of its quantum, which is 2^(e-52)
    and never less than 2^-1074. *)
Definition round_pos (y : Q) : Q :=
  let p := Z.max (ilog2 y - 52) (-1074) in
  (inject_Z (rne (y / pow2 p)) * pow2 p)%Q.

Definition round64 (x : Q) : number :=
  match sign x with
  | Eq => Fin 0
  | Gt => let v := round_pos x in
          if Qle_bool (pow2 1024) v then PosInf else Fin (Qred v)
  | Lt => let v := round_pos (- x) in
          if Qle_bool (pow2 1024) v then NegInf else Fin (Qred (- v))
  end.

Definition of_Z (n : Z) : number := round64 (inject_Z n).

Definition add (a b : number) : number :=
  match a, b with
  | Fin x, Fin y => round64 (x + y)
  | NaN, _ | _, NaN => NaN
  | PosInf, NegInf | NegInf, PosInf => NaN
  | PosInf, _ | _, PosInf => PosInf
  | NegInf, _ | _, NegInf => NegInf
  end.

Definition mul (a b : number) : number :=
  match a, b with
  | Fin x, Fin y => round64 (x * y)
  | NaN, _ | _, NaN => NaN
  | PosInf, Fin y | Fin y, PosInf => inf_of (sign y)
  | NegInf, Fin y | Fin y, NegInf => inf_of (flip (sign y))
  | PosInf, PosInf | NegInf, NegInf => PosInf
  | PosInf, NegInf | NegInf, PosInf => NegInf
  end.

Definition div (a b : number) : number :=
  match a, b with
  | Fin x, Fin y =>
      match sign y with
      | Eq => inf_of (sign x)
      | _ => round64 (x / y)
      end
  | NaN, _ | _, NaN => NaN
  | Fin _, _ => Fin 0
  | PosInf, Fin y => match sign y with Lt => NegInf | _ => PosInf end
  | NegInf, Fin y => match sign y with Lt => PosInf | _ => NegInf end
  | _, _ => NaN
  end.

End Num.
Import Num.

(** ** Errors and outcomes *)

Inductive error : Type :=
| Error (msg : string)              (* [new Error(msg)] thrown by a service *)
| TypeError (msg : string)          (* raised by the language run time *)
| ReplyError (msg : string)         (* Redis refused or is unreachable *)
| StoreError (msg : string)         (* raised by the relational store *)
| TransactionNotStartedError.       (* commit or rollback without a transaction *)

Inductive result (A : Type) : Type :=
| Ok (a : A)
| Throw (e : error).
Arguments Ok {A} a.
Arguments Throw {A} e.

(** ** The cache store *)

Module Redis.

Record t : Type := mk {
  online : bool;
  entries : gmap string (Z * string)    (* key -> (ttl in seconds, value) *)
}.

Definition unreachable : error := ReplyError "Connection is closed.".

Definition get (key : string) (r : t) : result (option string) :=
  if online r then Ok (snd <$> entries r !! key) else Throw unreachable.

(** [SETEX key seconds value]: the expiry must be positive. *)
Definition setex (key : string) (ttl : Z) (value : string) (r : t) :
    result unit * t :=
  if negb (online r) then (Throw unreachable, r)
  else if (ttl <=? 0)%Z then
    (Throw (ReplyError "ERR invalid expire time in 'setex' command"), r)
  else (Ok tt, mk (online r) (<[key := (ttl, value)]> (entries r))).

Definition keys (pattern : string) (r : t) : result (list string) :=
  if online r then
    Ok (List.filter (Glob.glob pattern) (map fst (map_to_list (entries r))))
  else Throw unreachable.

Definition del (ks : list string) (r : t) : result Z * t :=
  if online r then
    (Ok (Z.of_nat (length (List.filter
                             (fun k => bool_decide (is_Some (entries r !! k))) ks))),
     mk (online r) (foldr delete (entries r) ks))
  else (Throw unreachable, r).

End Redis.

(** ** The relational store

    A database maps an entity name to its rows.  What the calls on the query
    runner and on its repositories compute is the driver's business; each
    may fail, the rollback included.  The hub decides the order of the calls
    and the transaction they run in.  A commit or a rollback without an open
    transaction is refused with [TransactionNotStartedError], as the driver
    of the source does.  Releasing the runner returns its connection and is
    taken not to fail. *)

Abbreviation DB := (gmap string (list json)).

Record Repository : Type := { target : string }.

Inductive Clause : Type :=
| LeftJoinAndSelect (path alias : string)
| AndWhere (condition param : string) (value : option json)
| AddOrderBy (column : string) (direction : json)
| Take (n : json)
| Skip (n : json).

Record SelectQuery : Type := {
  sq_from : Repository;
  sq_alias : string;
  sq_clauses : list Clause
}.

Record Driver : Type := {
  connect : DB -> option error;
  startTransaction : DB -> option error;
  manager_getRepository : string -> DB -> option error;
  create : string -> json -> json;
  save : string -> json -> DB -> result (json * DB);
  update : string -> option json -> json -> DB -> result DB;
  findOne : string -> option json -> DB -> result json;
  delete_ : string -> option json -> DB -> result (option json * DB);
  commitTransaction : DB -> option error;
  rollbackTransaction : DB -> option error;
  getMany : SelectQuery -> DB -> result (list json);
  latency : SelectQuery -> DB -> Z
}.

(** The calls made on the relational store, as a test double records them. *)
Inductive Call : Type :=
| CConnect
| CStartTransaction
| CGetRepository (entity : string)
| CSave (entity : string)
| CUpdate (entity : string)
| CFindOne (entity : string)
| CDelete (entity : string)
| CCommit
| CRollback
| CRelease
| CGetMany (q : SelectQuery).

(** ** Events and log *)

Inductive Event : Type :=
| DataAccessed (entity : string) (resultCount : nat) (queryTime : Z) (at_ : Z)
| DataMutated (entity operation : string) (data result : json) (at_ : Z)
| RelationshipCreated (relationship : json)
| CrossModuleUpdate (sourceModule entity operation : string) (result : json)
    (at_ : Z).

Inductive Level : Type := LError | LWarn | LInfo.

Record LogEntry : Type := {
  level : Level;
  message : string;
  cause : option error
}.

(** ** State of the services *)

Record Metrics : Type := {
  queryCount : Z;
  cacheHits : Z;
  cacheMisses : Z;
  avgQueryTime : number;
  totalQueries : Z
}.

Record World : Type := {
  redis : Redis.t;
  db : DB;                              (* committed rows *)
  tx : option DB;                       (* working copy of the open transaction *)
  metrics : Metrics;
  events : list Event;                  (* emitted, oldest first *)
  logs : list LogEntry;
  clock : Z;                            (* [Date.now()] *)
  trace : list Call;                    (* store calls, oldest first *)
  userContextCache : gmap string json
}.

Definition set_redis (r : Redis.t) (w : World) : World :=
  {| redis := r; db := db w; tx := tx w; metrics := metrics w;
     events := events w; logs := logs w; clock := clock w; trace := trace w;
     userContextCache := userContextCache w |}.

Definition set_db (d : DB) (w : World) : World :=
  {| redis := redis w; db := d; tx := tx w; metrics := metrics w;
     events := events w; logs := logs w; clock := clock w; trace := trace w;
     userContextCache := userContextCache w |}.

Definition set_tx (t : option DB) (w : World) : World :=
  {| redis := redis w; db := db w; tx := t; metrics := metrics w;
     events := events w; logs := logs w; clock := clock w; trace := trace w;
     userContextCache := userContextCache w |}.

Definition set_metrics (m : Metrics) (w : World) : World :=
  {| redis := redis w; db := db w; tx := tx w; metrics := m;
     events := events w; logs := logs w; clock := clock w; trace := trace w;
     userContextCache := userContextCache w |}.

Definition set_clock (c : Z) (w : World) : World :=
  {| redis := redis w; db := db w; tx := tx w; metrics := metrics w;
     events := events w; logs := logs w; clock := c; trace := trace w;
     userContextCache := userContextCache w |}.

Definition set_userContextCache (c : gmap string json) (w : World) : World :=
  {| redis := redis w; db := db w; tx := tx w; metrics := metrics w;
     events := events w; logs := logs w; clock := clock w; trace := trace w;
     userContextCache := c |}.

Definition push_event (e : Event) (w : World) : World :=
  {| redis := redis w; db := db w; tx := tx w; metrics := metrics w;
     events := events w ++ [e]; logs := logs w; clock := clock w;
     trace := trace w; userContextCache := userContextCache w |}.

Definition push_log (l : LogEntry) (w : World) : World :=
  {| redis := redis w; db := db w; tx := tx w; metrics := metrics w;
     events := events w; logs := logs w ++ [l]; clock := clock w;
     trace := trace w; userContextCache := userContextCache w |}.

Definition push_call (c : Call) (w : World) : World :=
  {| redis := redis w; db := db w; tx := tx w; metrics := metrics w;
     events := events w; logs := logs w; clock := clock w;
     trace := trace w ++ [c]; userContextCache := userContextCache w |}.

(** ** Computations of a service: state and exceptions *)

Definition M (A : Type) : Type := World -> result A * World.

Definition ret {A} (a : A) : M A := fun w => (Ok a, w).

Definition throw {A} (e : error) : M A := fun w => (Throw e, w).

Definition bind {A B} (m : M A) (k : A -> M B) : M B :=
  fun w =>
    match m w with
    | (Ok a, w') => k a w'
    | (Throw e, w') => (Throw e, w')
    end.

(** [try { m } catch (e) { h e }] *)
Definition catch {A} (m : M A) (h : error -> M A) : M A :=
  fun w =>
    match m w with
    | (Ok a, w') => (Ok a, w')
    | (Throw e, w') => h e w'
    end.

(** [try { m } finally { f }]: [f] runs in both cases; if it throws, its
    exception replaces the outcome. *)
Definition finally {A} (m : M A) (f : M unit) : M A :=
  fun w =>
    match m w with
    | (r, w') =>
        match f w' with
        | (Ok _, w'') => (r, w'')
        | (Throw e, w'') => (Throw e, w'')
        end
    end.

Definition modify (f : World -> World) : M unit := fun w => (Ok tt, f w).

Definition gets {A} (f : World -> A) : M A := fun w => (Ok (f w), w).

Declare Scope hub_scope.
Delimit Scope hub_scope with hub.
Notation "x <- m ;; k" := (bind m (fun x => k))
  (at level 100, m at next level, right associativity) : hub_scope.
Notation "m ;; k" := (bind m (fun _ => k))
  (at level 100, right associativity) : hub_scope.
Local Open Scope hub_scope.

Definition log (lv : Level) (msg : string) (e : option error) : M unit :=
  modify (push_log {| level := lv; message := msg; cause := e |}).

Definition emit (e : Event) : M unit := modify (push_event e).

(** ** The Data Management Hub *)

Module Hub.

Definition prefix : string := "dmh:".
Definition default_ttl : Z := 3600.
Definition enableRealTimeSync : bool := true.

(** [registerRepositories]: the seven entities the hub can query. *)
Definition repositories : gmap string Repository :=
  list_to_map
    [("Client", {| target := "Client" |}); ("Case", {| target := "Case" |});
     ("Document", {| target := "Document" |}); ("User", {| target := "User" |});
     ("Message", {| target := "Message" |}); ("Payment", {| target := "Payment" |});
     ("Notification", {| target := "Notification" |})].

Definition getRepository (entityName : option json) : option Repository :=
  match entityName with
  | Some (JStr e) => repositories !! e
  | _ => None
  end.

Definition generateCacheKey (type : string) (data : json) : string :=
  let hash := String.substring 0 16 (Base64.encode (stringify data)) in
  prefix +:+ type +:+ ":" +:+ hash.

(** Runs a Redis command that changes the store. *)
Definition redis_run {A} (cmd : Redis.t -> result A * Redis.t) : M A :=
  fun w => let (r, s) := cmd (redis w) in (r, set_redis s w).

Definition redis_ask {A} (cmd : Redis.t -> result A) : M A :=
  fun w => (cmd (redis w), w).

(** [getFromCache]: the parsed value, or [null] when the key is absent, the
    text is empty, or anything throws. *)
Definition getFromCache (key : string) : M json :=
  catch
    (cached <- redis_ask (Redis.get key) ;;
     match cached with
     | Some text =>
         if String.eqb text "" then ret JNull
         else
           match parse text with
           | Some v => ret v
           | None => throw (Error "SyntaxError: Unexpected token in JSON")
           end
     | None => ret JNull
     end)
    (fun e => log LWarn "Cache read failed" (Some e) ;; ret JNull).

(** The expiry handed to [SETEX]; what is not a number is refused there. *)
Definition setex (key : string) (ttl : json) (value : string) : M unit :=
  match ttl with
  | JNum n => redis_run (Redis.setex key n value)
  | _ => throw (ReplyError "ERR value is not an integer or out of range")
  end.

Definition setCache (key : string) (data : json) (ttl : json) : M unit :=
  catch (setex key ttl (stringify data))
        (fun e => log LWarn "Cache write failed" (Some e)).

Definition invalidation_pattern (entity : string) (id : option json) : string :=
  if Js.truthy_opt id then
    prefix +:+ "*" +:+ entity +:+ "*" +:+ Js.to_string_opt id +:+ "*"
  else prefix +:+ "*" +:+ entity +:+ "*".

Definition invalidateEntityCache (entity : string) (id : option json) : M unit :=
  keys <- redis_ask (Redis.keys (invalidation_pattern entity id)) ;;
  match keys with
  | [] => ret tt
  | _ => redis_run (Redis.del keys) ;; ret tt
  end.

Definition updateQueryMetrics (queryTime : Z) : M unit :=
  modify (fun w =>
    let m := metrics w in
    let total := (totalQueries m + 1)%Z in
    set_metrics
      {| queryCount := queryCount m; cacheHits := cacheHits m;
         cacheMisses := cacheMisses m;
         avgQueryTime :=
           Num.div (Num.add (Num.mul (avgQueryTime m) (of_Z (total - 1)))
                            (of_Z queryTime))
                   (of_Z total);
         totalQueries := total |} w).

Definition count_query : M unit :=
  modify (fun w =>
    let m := metrics w in
    set_metrics
      {| queryCount := (queryCount m + 1)%Z; cacheHits := cacheHits m;
         cacheMisses := cacheMisses m; avgQueryTime := avgQueryTime m;
         totalQueries := totalQueries m |} w).

Definition count_hit : M unit :=
  modify (fun w =>
    let m := metrics w in
    set_metrics
      {| queryCount := queryCount m; cacheHits := (cacheHits m + 1)%Z;
         cacheMisses := cacheMisses m; avgQueryTime := avgQueryTime m;
         totalQueries := totalQueries m |} w).

Definition count_miss : M unit :=
  modify (fun w =>
    let m := metrics w in
    set_metrics
      {| queryCount := queryCount m; cacheHits := cacheHits m;
         cacheMisses := (cacheMisses m + 1)%Z; avgQueryTime := avgQueryTime m;
         totalQueries := totalQueries m |} w).

Definition lift {A} (r : result A) : M A := fun w => (r, w).

(** [v.k] where [v] may be [null]. *)
Definition member (k : string) (v : json) : result (option json) :=
  match v with
  | JNull =>
      Throw (TypeError ("Cannot read properties of null (reading '" +:+ k +:+ "')"))
  | _ => Ok (Js.prop k v)
  end.

(** *** [query] *)

Definition cache_enabled (q : json) : bool :=
  match Js.prop "cache" q with
  | Some (JBool false) => false
  | _ => true
  end.

Definition cache_ttl (q : json) : json :=
  match Js.prop "cacheTTL" q with
  | Some v => if Js.truthy v then v else JNum default_ttl
  | None => JNum default_ttl
  end.

Definition join_clauses (entity : string) (relations : option json) :
    result (list Clause) :=
  match relations with
  | Some (JArr l) =>
      Ok (map (fun r => LeftJoinAndSelect (entity +:+ "." +:+ Js.to_string r)
                                          (Js.to_string r)) l)
  | Some v =>
      if Js.truthy v
      then Throw (TypeError "query.relations.forEach is not a function")
      else Ok []
  | None => Ok []
  end.

Definition where_clause (entity : string) (index : nat) (key : string)
    (value : json) : result Clause :=
  let paramName := "param_" +:+ Js.show_nat index in
  let equality :=
    AndWhere (entity +:+ "." +:+ key +:+ " = :" +:+ paramName) paramName
             (Some value) in
  match value with
  | JArr _ =>
      Ok (AndWhere (entity +:+ "." +:+ key +:+ " IN (:..." +:+ paramName +:+ ")")
                   paramName (Some value))
  | JNull =>
      Throw (TypeError "Cannot read properties of null (reading 'operator')")
  | JObj _ =>
      if Js.truthy_opt (Js.prop "operator" value) then
        Ok (AndWhere (entity +:+ "." +:+ key +:+ " " +:+
                      Js.to_string_opt (Js.prop "operator" value) +:+
                      " :" +:+ paramName)
                     paramName (Js.prop "value" value))
      else Ok equality
  | _ => Ok equality
  end.

Fixpoint where_clauses (entity : string) (es : list (nat * (string * json))) :
    result (list Clause) :=
  match es with
  | [] => Ok []
  | (i, (k, v)) :: es' =>
      match where_clause entity i k v with
      | Ok c =>
          match where_clauses entity es' with
          | Ok cs => Ok (c :: cs)
          | Throw e => Throw e
          end
      | Throw e => Throw e
      end
  end.

Definition filter_clauses (entity : string) (filters : option json) :
    result (list Clause) :=
  match filters with
  | Some v =>
      if Js.truthy v then where_clauses entity (Js.indexed 0 (Js.entries v))
      else Ok []
  | None => Ok []
  end.

Definition order_clauses (entity : string) (orderBy : option json) : list Clause :=
  match orderBy with
  | Some v =>
      if Js.truthy v then
        map (fun fd => AddOrderBy (entity +:+ "." +:+ fst fd) (snd fd))
            (Js.entries v)
      else []
  | None => []
  end.

Definition page_clauses (q : json) : list Clause :=
  (match Js.prop "limit" q with
   | Some v => if Js.truthy v then [Take v] else []
   | None => []
   end) ++
  (match Js.prop "offset" q with
   | Some v => if Js.truthy v then [Skip v] else []
   | None => []
   end).

Definition build (repository : Repository) (entity : string) (q : json) :
    result SelectQuery :=
  match join_clauses entity (Js.prop "relations" q) with
  | Throw e => Throw e
  | Ok joins =>
      match filter_clauses entity (Js.prop "filters" q) with
      | Throw e => Throw e
      | Ok wheres =>
          Ok {| sq_from := repository; sq_alias := entity;
                sq_clauses := joins ++ wheres ++
                              order_clauses entity (Js.prop "orderBy" q) ++
                              page_clauses q |}
      end
  end.

(** [queryBuilder.getMany()]: one round trip to the store, reading the
    committed rows; the clock advances by what the driver takes. *)
Definition run_getMany (drv : Driver) (sq : SelectQuery) : M (list json) :=
  fun w =>
    (getMany drv sq (db w),
     set_clock (clock w + latency drv sq (db w))%Z (push_call (CGetMany sq) w)).

Definition lookup (q : json) : M (option json) :=
  if cache_enabled q then
    cached <- getFromCache (generateCacheKey "query" q) ;;
    if Js.truthy cached then count_hit ;; ret (Some cached)
    else count_miss ;; ret None
  else ret None.

Definition execute (drv : Driver) (q : json) (startTime : Z) : M json :=
  let entity := Js.to_string_opt (Js.prop "entity" q) in
  repository <-
    match getRepository (Js.prop "entity" q) with
    | Some r => ret r
    | None => throw (Error ("Repository not found for entity: " +:+ entity))
    end ;;
  sq <- lift (build repository entity q) ;;
  results <- run_getMany drv sq ;;
  (if cache_enabled q
   then setCache (generateCacheKey "query" q) (JArr results) (cache_ttl q)
   else ret tt) ;;
  now <- gets clock ;;
  let queryTime := (now - startTime)%Z in
  updateQueryMetrics queryTime ;;
  emit (DataAccessed entity (length results) queryTime now) ;;
  ret (JArr results).

Definition query (drv : Driver) (q : json) : M json :=
  startTime <- gets clock ;;
  count_query ;;
  catch
    (hit <- lookup q ;;
     match hit with
     | Some cached => ret cached
     | None => execute drv q startTime
     end)
    (fun e => log LError "Query execution failed" (Some e) ;; throw e).

(** *** [mutate] *)

Record DataMutation : Type := {
  m_entity : string;
  m_operation : string;
  m_data : json;
  m_validateRelations : bool;      (* [options?.validateRelations] is truthy *)
  m_auditTrail : bool              (* [options?.auditTrail] is truthy *)
}.

(** A call on the query runner that only reports success or failure. *)
Definition runner_call (c : Call) (f : DB -> option error) : M unit :=
  fun w =>
    match f (match tx w with Some d => d | None => db w end) with
    | Some e => (Throw e, push_call c w)
    | None => (Ok tt, push_call c w)
    end.

(** A repository call: it works on the copy of the open transaction, and on
    the committed rows when none is open. *)
Definition repository_call {A} (c : Call) (f : DB -> result (A * DB)) : M A :=
  fun w =>
    let w1 := push_call c w in
    match tx w with
    | Some d =>
        match f d with
        | Ok (a, d') => (Ok a, set_tx (Some d') w1)
        | Throw e => (Throw e, w1)
        end
    | None =>
        match f (db w) with
        | Ok (a, d') => (Ok a, set_db d' w1)
        | Throw e => (Throw e, w1)
        end
    end.

Definition createQueryRunner : M unit := modify (set_tx None).

Definition begin (drv : Driver) : M unit :=
  fun w =>
    let w1 := push_call CStartTransaction w in
    match startTransaction drv (db w) with
    | Some e => (Throw e, w1)
    | None => (Ok tt, set_tx (Some (db w)) w1)
    end.

Definition commit (drv : Driver) : M unit :=
  fun w =>
    let w1 := push_call CCommit w in
    match tx w with
    | None => (Throw TransactionNotStartedError, w1)
    | Some d =>
        match commitTransaction drv d with
        | Some e => (Throw e, w1)
        | None => (Ok tt, set_tx None (set_db d w1))
        end
    end.

Definition rollback (drv : Driver) : M unit :=
  fun w =>
    let w1 := push_call CRollback w in
    match tx w with
    | None => (Throw TransactionNotStartedError, w1)
    | Some d =>
        match rollbackTransaction drv d with
        | Some e => (Throw e, w1)
        | None => (Ok tt, set_tx None w1)
        end
    end.

Definition release : M unit := modify (push_call CRelease).

Definition validateEntityRelations (data : json) (entity : string) : M unit :=
  ret tt.

Definition createAuditEntry (m : DataMutation) (result : json) : M unit :=
  ret tt.

Definition syncRealTimeData (entity operation : string) (data : json) : M unit :=
  ret tt.

Definition keep_db {A} (f : DB -> result A) (d : DB) : result (A * DB) :=
  match f d with
  | Ok a => Ok (a, d)
  | Throw e => Throw e
  end.

Definition only_db (f : DB -> result DB) (d : DB) : result (unit * DB) :=
  match f d with
  | Ok d' => Ok (tt, d')
  | Throw e => Throw e
  end.

(** The [switch] on the operation. *)
Definition dispatch (drv : Driver) (m : DataMutation) : M json :=
  let entity := m_entity m in
  let data := m_data m in
  if String.eqb (m_operation m) "create" then
    repository_call (CSave entity) (save drv entity (create drv entity data))
  else if String.eqb (m_operation m) "update" then
    id <- lift (member "id" data) ;;
    repository_call (CUpdate entity) (only_db (update drv entity id data)) ;;
    repository_call (CFindOne entity) (keep_db (findOne drv entity id))
  else if String.eqb (m_operation m) "delete" then
    id <- lift (member "id" data) ;;
    affected <- repository_call (CDelete entity) (delete_ drv entity id) ;;
    ret (JObj (Js.object [("affected", affected)]))
  else if String.eqb (m_operation m) "upsert" then
    repository_call (CSave entity) (save drv entity data)
  else throw (Error ("Unsupported operation: " +:+ m_operation m)).

(** The statements between [startTransaction] and [commitTransaction],
    the commit included. *)
Definition transactional_body (drv : Driver) (m : DataMutation) : M json :=
  runner_call (CGetRepository (m_entity m)) (manager_getRepository drv (m_entity m)) ;;
  (if m_validateRelations m
   then validateEntityRelations (m_data m) (m_entity m) else ret tt) ;;
  result <- dispatch drv m ;;
  commit drv ;;
  ret result.

(** What follows the commit inside the same [try] block. *)
Definition after_commit (m : DataMutation) (result : json) : M json :=
  id <- lift (member "id" (m_data m)) ;;
  invalidateEntityCache (m_entity m) id ;;
  (if m_auditTrail m then createAuditEntry m result else ret tt) ;;
  now <- gets clock ;;
  emit (DataMutated (m_entity m) (m_operation m) (m_data m) result now) ;;
  (if enableRealTimeSync
   then syncRealTimeData (m_entity m) (m_operation m) result else ret tt) ;;
  ret result.

Definition mutate (drv : Driver) (m : DataMutation) : M json :=
  createQueryRunner ;;
  runner_call CConnect (connect drv) ;;
  begin drv ;;
  finally
    (catch
       (result <- transactional_body drv m ;; after_commit m result)
       (fun e =>
          rollback drv ;;
          log LError "Mutation execution failed" (Some e) ;;
          throw e))
    release.

(** *** [analytics], [createRelationship], [getContextualData] *)

Definition executeAnalyticsQuery (q : json) : M json :=
  ret (JObj [("placeholder", JStr "Analytics results would be here")]).

Definition analytics (q : json) : M json :=
  catch
    (let cacheKey := generateCacheKey "analytics" q in
     cached <- getFromCache cacheKey ;;
     if Js.truthy cached then ret cached
     else
       results <- executeAnalyticsQuery q ;;
       setCache cacheKey results (JNum 7200) ;;
       ret results)
    (fun e => log LError "Analytics query failed" (Some e) ;; throw e).

Record DataRelationship : Type := {
  from_entity : string;
  from_id : string;
  to_entity : string;
  to_id : string;
  type_ : string;
  metadata_ : option json
}.

Definition relationship_json (r : DataRelationship) : json :=
  JObj (Js.object
    [("from", Some (JObj [("entity", JStr (from_entity r)); ("id", JStr (from_id r))]));
     ("to", Some (JObj [("entity", JStr (to_entity r)); ("id", JStr (to_id r))]));
     ("type", Some (JStr (type_ r)));
     ("metadata", metadata_ r)]).

Definition createRelationship (r : DataRelationship) : M unit :=
  catch
    (let relationshipKey :=
       "relationship:" +:+ from_entity r +:+ ":" +:+ from_id r +:+ ":" +:+
       to_entity r +:+ ":" +:+ to_id r in
     setCache relationshipKey (relationship_json r) (JNum 86400) ;;
     emit (RelationshipCreated (relationship_json r)))
    (fun e => log LError "Failed to create relationship" (Some e) ;; throw e).

Definition buildContextualQuery (context : json) : M json :=
  ret (JObj [("placeholder", JStr "Contextual data would be here")]).

Definition getContextualData (context : json) : M json :=
  catch
    (contextData <- buildContextualQuery context ;;
     setCache (generateCacheKey "context" context) contextData (JNum 1800) ;;
     ret contextData)
    (fun e => log LError "Failed to get contextual data" (Some e) ;; throw e).

(** *** [getPerformanceMetrics] and [clearCache] *)

Record PerformanceReport : Type := {
  r_queryCount : Z;
  r_cacheHits : Z;
  r_cacheMisses : Z;
  r_totalQueries : Z;
  cacheHitRatio : number;
  r_avgQueryTime : number;
  timestamp : Z
}.

Definition hitRatio (m : Metrics) : number :=
  if (totalQueries m >? 0)%Z
  then Num.mul (Num.div (of_Z (cacheHits m)) (of_Z (totalQueries m))) (of_Z 100)
  else of_Z 0.

Definition getPerformanceMetrics (w : World) : PerformanceReport :=
  {| r_queryCount := queryCount (metrics w);
     r_cacheHits := cacheHits (metrics w);
     r_cacheMisses := cacheMisses (metrics w);
     r_totalQueries := totalQueries (metrics w);
     cacheHitRatio := hitRatio (metrics w);
     r_avgQueryTime := avgQueryTime (metrics w);
     timestamp := clock w |}.

Definition clearCache (pattern : option string) : M unit :=
  catch
    (let searchPattern :=
       match pattern with
       | Some p => if String.eqb p "" then prefix +:+ "*" else p
       | None => prefix +:+ "*"
       end in
     keys <- redis_ask (Redis.keys searchPattern) ;;
     match keys with
     | [] => ret tt
     | _ =>
         redis_run (Redis.del keys) ;;
         log LInfo ("Cleared " +:+ Js.show_nat (length keys) +:+ " cache entries")
             None
     end)
    (fun e => log LError "Failed to clear cache" (Some e)).

End Hub.

(** ** The Data Context Provider *)

Module Provider.

Inductive CacheStrategy : Type := aggressive | moderate | minimal.

Record ModuleDataRequirements : Type := {
  primary : list string;
  secondary : list string;
  relations : list string;
  permissions : list string;
  cacheStrategy : CacheStrategy;
  realTimeSync : bool
}.

Record DataContext : Type := {
  userId : string;
  userRole : string;
  module_ : string;
  action : string;
  entityId : option string;
  filters : option json
}.

Record Metadata : Type := {
  totalCount : nat;
  hasMore : bool;
  cached : bool;
  expiry : Z;
  md_permissions : list string;
  suggestedActions : list string
}.

Record ContextualDataResponse : Type := {
  r_primary : list json;
  r_secondary : list json;
  r_related : list json;
  r_metadata : Metadata
}.

(** [initializeModuleRequirements] *)
Definition moduleRequirements : gmap string ModuleDataRequirements :=
  list_to_map
    [("client-portal",
      {| primary := ["Client"; "Case"; "Document"];
         secondary := ["Message"; "Payment"; "Notification"];
         relations := ["client.cases"; "case.documents"; "client.payments"];
         permissions := ["client.read"; "case.read"; "document.read"];
         cacheStrategy := aggressive; realTimeSync := true |});
     ("ai-assistant",
      {| primary := ["Case"; "Document"; "Client"];
         secondary := ["LegalQuery"; "ResearchTask"];
         relations := ["case.client"; "document.case"];
         permissions := ["ai.query"; "document.analyze"];
         cacheStrategy := moderate; realTimeSync := false |});
     ("document-management",
      {| primary := ["Document"; "Case"; "Client"];
         secondary := ["DocumentVersion"; "Comment"];
         relations := ["document.case"; "document.versions"; "case.client"];
         permissions := ["document.read"; "document.write"];
         cacheStrategy := moderate; realTimeSync := true |});
     ("legal-research",
      {| primary := ["ResearchTask"; "CaseLaw"; "Statute"];
         secondary := ["Citation"; "LegalDatabase"];
         relations := ["research.citations"; "task.assignee"];
         permissions := ["research.read"; "research.create"];
         cacheStrategy := aggressive; realTimeSync := false |});
     ("workflow-automation",
      {| primary := ["Workflow"; "Task"; "Case"];
         secondary := ["WorkflowStep"; "Automation"];
         relations := ["workflow.tasks"; "task.case"];
         permissions := ["workflow.read"; "workflow.execute"];
         cacheStrategy := minimal; realTimeSync := true |});
     ("integration-management",
      {| primary := ["Integration"; "ApiKey"; "Webhook"];
         secondary := ["IntegrationLog"; "SyncStatus"];
         relations := ["integration.logs"; "apikey.usage"];
         permissions := ["integration.read"; "api.manage"];
         cacheStrategy := moderate; realTimeSync := true |});
     ("entity-management",
      {| primary := ["Entity"; "CorporateEvent"; "ComplianceRecord"];
         secondary := ["Filing"; "EntityRelation"];
         relations := ["entity.events"; "entity.compliance"];
         permissions := ["entity.read"; "entity.manage"];
         cacheStrategy := moderate; realTimeSync := true |})].

(** The body is empty in the source: the call returns without a check. *)
Definition validateUserPermissions (context : DataContext)
    (requirements : ModuleDataRequirements) : M unit :=
  ret tt.

Definition defaultPreferences : json :=
  JObj [("defaultPageSize", JNum 25);
        ("preferredOrderBy", JObj [("createdAt", JStr "DESC")]);
        ("hiddenFields", JArr []);
        ("favoriteFilters", JObj []);
        ("autoRefresh", JBool true);
        ("realTimeNotifications", JBool true)].

Definition getUserPreferences (uid : string) : M json :=
  fun w =>
    let key := "preferences:" +:+ uid in
    match userContextCache w !! key with
    | Some c =>
        if Js.truthy c then (Ok c, w)
        else (Ok defaultPreferences,
              set_userContextCache (<[key := defaultPreferences]> (userContextCache w)) w)
    | None =>
        (Ok defaultPreferences,
         set_userContextCache (<[key := defaultPreferences]> (userContextCache w)) w)
    end.

(** [target.push(...data)]: the elements of an iterable. *)
Definition spread (data : json) : result (list json) :=
  match data with
  | JArr l => Ok l
  | JStr s => Ok (Js.chars s)
  | _ => Throw (TypeError "data is not iterable")
  end.

Definition primary_query (context : DataContext)
    (requirements : ModuleDataRequirements) (preferences : json)
    (entity : string) : json :=
  JObj (Js.object
    [("entity", Some (JStr entity));
     ("filters", filters context);
     ("limit", Js.prop "defaultPageSize" preferences);
     ("orderBy", Js.prop "preferredOrderBy" preferences);
     ("cache", Some (JBool (match cacheStrategy requirements with
                            | minimal => false | _ => true end)))]).

(** [Math.min(x, 10)]; the [NaN] of a missing page size is written [null],
    which prints and tests the same. *)
Definition min10 (x : option json) : json :=
  match x with
  | Some (JNum n) => JNum (Z.min n 10)
  | Some JNull => JNum 0
  | Some (JBool b) => JNum (if b then 1 else 0)
  | _ => JNull
  end.

Definition secondary_query (context : DataContext) (preferences : json)
    (entity : string) : json :=
  JObj (Js.object
    [("entity", Some (JStr entity));
     ("filters", filters context);
     ("limit", Some (min10 (Js.prop "defaultPageSize" preferences)));
     ("cache", Some (JBool true))]).

(** [for (const entity of entities) { data = await query(..); all.push(...data) }] *)
Fixpoint collect (drv : Driver) (mk : string -> json) (entities : list string)
    (acc : list json) : M (list json) :=
  match entities with
  | [] => ret acc
  | entity :: rest =>
      data <- Hub.query drv (mk entity) ;;
      items <- Hub.lift (spread data) ;;
      collect drv mk rest (acc ++ items)
  end.

Definition getPrimaryData (drv : Driver) (context : DataContext)
    (requirements : ModuleDataRequirements) (preferences : json) : M (list json) :=
  collect drv (primary_query context requirements preferences)
          (primary requirements) [].

Definition getSecondaryData (drv : Driver) (context : DataContext)
    (requirements : ModuleDataRequirements) (preferences : json) : M (list json) :=
  collect drv (secondary_query context preferences) (secondary requirements) [].

Definition getRelatedData (context : DataContext)
    (requirements : ModuleDataRequirements) (primaryData : list json) :
    M (list json) :=
  ret [].

Definition getSuggestedActions (context : DataContext) (data : list json) :
    list string :=
  ["view"; "edit"; "delete"; "share"].

Definition buildMetadata (context : DataContext) (primaryData : list json)
    (requirements : ModuleDataRequirements) : M Metadata :=
  preferences <- getUserPreferences (userId context) ;;
  now <- gets clock ;;
  ret {| totalCount := length primaryData;
         hasMore :=
           match Js.prop "defaultPageSize" preferences with
           | Some (JNum n) => (Z.of_nat (length primaryData) =? n)%Z
           | _ => false
           end;
         cached := match cacheStrategy requirements with
                   | minimal => false | _ => true end;
         expiry := (now + 3600000)%Z;
         md_permissions := permissions requirements;
         suggestedActions := getSuggestedActions context primaryData |}.

(** Not awaited; its helpers are empty in the source and touch no state. *)
Definition prefetchPredictiveData (context : DataContext)
    (requirements : ModuleDataRequirements) : M unit :=
  ret tt.

Definition getFrequentActions (uid module : string) : list string :=
  ["view"; "create"; "search"; "edit"].

Definition updateUserContext (uid module : string)
    (contextData : list (string * json)) : M unit :=
  fun w =>
    let key := "context:" +:+ uid +:+ ":" +:+ module in
    let old := match userContextCache w !! key with
               | Some v => Js.entries v
               | None => []
               end in
    let new := Js.merge (Js.merge old contextData) [("lastUpdated", JNum (clock w))] in
    (Ok tt, set_userContextCache (<[key := JObj new]> (userContextCache w)) w).

Definition getModuleData (drv : Driver) (context : DataContext) :
    M ContextualDataResponse :=
  catch
    (requirements <-
       match moduleRequirements !! module_ context with
       | Some r => ret r
       | None =>
           throw (Error ("Module requirements not found for: " +:+ module_ context))
       end ;;
     validateUserPermissions context requirements ;;
     preferences <- getUserPreferences (userId context) ;;
     primaryData <- getPrimaryData drv context requirements preferences ;;
     secondaryData <- getSecondaryData drv context requirements preferences ;;
     relatedData <- getRelatedData context requirements primaryData ;;
     metadata <- buildMetadata context primaryData requirements ;;
     prefetchPredictiveData context requirements ;;
     now <- gets clock ;;
     updateUserContext (userId context) (module_ context)
       [("lastAccess", JNum now); ("preferences", preferences);
        ("frequentActions",
         JArr (map JStr (getFrequentActions (userId context) (module_ context))))] ;;
     ret {| r_primary := primaryData; r_secondary := secondaryData;
            r_related := relatedData; r_metadata := metadata |})
    (fun e => log LError "Failed to get module data" (Some e) ;; throw e).

(** *** [updateModuleData] *)

(** The body is empty in the source. *)
Definition validateMutationPermissions (context : DataContext)
    (entity operation : string) : M unit :=
  ret tt.

Definition notifyRelatedModules (context : DataContext)
    (entity operation : string) (result : json) : M unit :=
  now <- gets clock ;;
  emit (CrossModuleUpdate (module_ context) entity operation result now).

(** The body is empty in the source. *)
Definition updatePredictiveModels (context : DataContext)
    (entity operation : string) (result : json) : M unit :=
  ret tt.

Definition updateModuleData (drv : Driver) (context : DataContext)
    (entity operation : string) (data : json) : M json :=
  catch
    (validateMutationPermissions context entity operation ;;
     result <- Hub.mutate drv
       {| Hub.m_entity := entity; Hub.m_operation := operation;
          Hub.m_data := data;
          Hub.m_validateRelations := true; Hub.m_auditTrail := true |} ;;
     notifyRelatedModules context entity operation result ;;
     updatePredictiveModels context entity operation result ;;
     ret result)
    (fun e => log LError "Failed to update module data" (Some e) ;; throw e).

(** *** [searchAcrossModules] *)

Record SearchOptions : Type := {
  so_entities : option (list string);
  so_fuzzy : option bool;
  so_limit : option Z
}.

(** One entry of the organized results: [{ entity, results, count }]. *)
Record SearchGroup : Type := {
  sg_entity : string;
  sg_results : list json;
  sg_count : nat
}.

Record SearchResponse : Type := {
  sr_results : list SearchGroup;
  sr_totalFound : nat;
  sr_searchTerm : string;
  sr_timestamp : Z
}.

Definition getAllAvailableEntities (context : DataContext) : list string :=
  match moduleRequirements !! module_ context with
  | Some requirements => primary requirements ++ secondary requirements
  | None => []
  end.

(** A placeholder in the source: it finds nothing. *)
Definition searchEntity (entity searchTerm : string) (context : DataContext)
    (options : SearchOptions) : M (list json) :=
  ret [].

(** [Map.prototype.set]: a key already present keeps its place. *)
Fixpoint map_set {V} (k : string) (v : V) (m : list (string * V)) :
    list (string * V) :=
  match m with
  | [] => [(k, v)]
  | (k', v') :: m' =>
      if String.eqb k k' then (k, v) :: m' else (k', v') :: map_set k v m'
  end.

(** [for (const entity of entities) { results = await searchEntity(..);
    if (results.length > 0) searchResults.set(entity, results) }] *)
Fixpoint search_each (entities : list string) (searchTerm : string)
    (context : DataContext) (options : SearchOptions)
    (searchResults : list (string * list json)) :
    M (list (string * list json)) :=
  match entities with
  | [] => ret searchResults
  | entity :: rest =>
      results <- searchEntity entity searchTerm context options ;;
      search_each rest searchTerm context options
        (match results with
         | [] => searchResults
         | _ :: _ => map_set entity results searchResults
         end)
  end.

Definition organizeSearchResults (searchResults : list (string * list json))
    (context : DataContext) : list SearchGroup :=
  map (fun er => {| sg_entity := fst er; sg_results := snd er;
                    sg_count := length (snd er) |}) searchResults.

Definition searchAcrossModules (context : DataContext) (searchTerm : string)
    (options : SearchOptions) : M SearchResponse :=
  catch
    (let entities :=
       match so_entities options with
       | Some l => l
       | None => getAllAvailableEntities context
       end in
     searchResults <- search_each entities searchTerm context options [] ;;
     let organizedResults := organizeSearchResults searchResults context in
     now <- gets clock ;;
     ret {| sr_results := organizedResults;
            sr_totalFound := length (concat (map snd searchResults));
            sr_searchTerm := searchTerm;
            sr_timestamp := now |})
    (fun e => log LError "Cross-module search failed" (Some e) ;; throw e).

(** *** [getModuleAnalytics]

    A time range is given by its JSON image, the two dates as
    [JSON.stringify] prints them: the hub only serialises it. *)

Definition buildModuleAnalyticsQuery (context : DataContext)
    (requirements : ModuleDataRequirements) (timeRange : option json) : json :=
  JObj (Js.object
    [("metrics", Some (JArr [JStr "count"; JStr "avg"; JStr "trend"]));
     ("dimensions", Some (JArr (map JStr (primary requirements))));
     ("timeRange", timeRange)]).

Definition generateModuleInsights (context : DataContext) (analytics : json) :
    M json :=
  ret (JObj [("trends", JArr []); ("recommendations", JArr []);
             ("alerts", JArr [])]).

Record ModuleAnalytics : Type := {
  ma_analytics : json;
  ma_insights : json;
  ma_module : string;
  ma_timeRange : option json;
  ma_generatedAt : Z
}.

Definition getModuleAnalytics (context : DataContext) (timeRange : option json) :
    M ModuleAnalytics :=
  catch
    (requirements <-
       match moduleRequirements !! module_ context with
       | Some r => ret r
       | None =>
           throw (Error ("Module requirements not found for: " +:+ module_ context))
       end ;;
     let analyticsQuery := buildModuleAnalyticsQuery context requirements timeRange in
     analytics <- Hub.analytics analyticsQuery ;;
     insights <- generateModuleInsights context analytics ;;
     now <- gets clock ;;
     ret {| ma_analytics := analytics; ma_insights := insights;
            ma_module := module_ context; ma_timeRange := timeRange;
            ma_generatedAt := now |})
    (fun e => log LError "Module analytics failed" (Some e) ;; throw e).

End Provider.

(** ** The adapter factory *)

Module Adapters.

Record AdapterConfig : Type := {
  moduleName : string;
  defaultUserId : option string;
  autoCache : bool;
  realTimeSync : bool;
  enablePredictive : bool
}.

Inductive AdapterClass : Type :=
| ClientPortalDataAdapter
| AIAssistantDataAdapter
| DocumentManagementDataAdapter.

Record BaseModuleDataAdapter : Type := {
  class : AdapterClass;
  config : AdapterConfig
}.

Definition newClientPortalDataAdapter : BaseModuleDataAdapter :=
  {| class := ClientPortalDataAdapter;
     config := {| moduleName := "client-portal"; defaultUserId := None;
                  autoCache := true; realTimeSync := true;
                  enablePredictive := true |} |}.

Definition newAIAssistantDataAdapter : BaseModuleDataAdapter :=
  {| class := AIAssistantDataAdapter;
     config := {| moduleName := "ai-assistant"; defaultUserId := None;
                  autoCache := true; realTimeSync := false;
                  enablePredictive := true |} |}.

Definition newDocumentManagementDataAdapter : BaseModuleDataAdapter :=
  {| class := DocumentManagementDataAdapter;
     config := {| moduleName := "document-management"; defaultUserId := None;
                  autoCache := true; realTimeSync := true;
                  enablePredictive := false |} |}.

(** [initializeAdapters], from an empty map. *)
Definition initializeAdapters : gmap string BaseModuleDataAdapter :=
  <["document-management" := newDocumentManagementDataAdapter]>
    (<["ai-assistant" := newAIAssistantDataAdapter]>
       (<["client-portal" := newClientPortalDataAdapter]> ∅)).

Definition adapters : gmap string BaseModuleDataAdapter := initializeAdapters.

(** [this.adapters.get(moduleName) || null]; [None] is [null]. *)
Definition getAdapter (moduleName : string) : option BaseModuleDataAdapter :=
  adapters !! moduleName.

(** *** The methods of [BaseModuleDataAdapter]

    The abstract methods are dispatched on the class of the adapter. *)

Definition getUserRole (a : BaseModuleDataAdapter) (uid : string) : M string :=
  ret (match class a with
       | ClientPortalDataAdapter => "client"
       | AIAssistantDataAdapter => "attorney"
       | DocumentManagementDataAdapter => "attorney"
       end).

(** [userId || this.config.defaultUserId || 'system'] *)
Definition user_of (a : BaseModuleDataAdapter) (uid : string) : string :=
  if negb (String.eqb uid "") then uid
  else
    match defaultUserId (config a) with
    | Some d => if negb (String.eqb d "") then d else "system"
    | None => "system"
    end.

(** [String.prototype.toLowerCase] on the letters A to Z; entity names are
    ASCII text. *)
Definition lower (c : ascii) : ascii :=
  let n := N_of_ascii c in
  if ((65 <=? n) && (n <=? 90))%N then ascii_of_N (n + 32) else c.

Fixpoint toLowerCase (s : string) : string :=
  match s with
  | "" => ""
  | String c s' => String (lower c) (toLowerCase s')
  end.

Definition updateModuleData (drv : Driver) (a : BaseModuleDataAdapter)
    (uid entity operation : string) (data : json) : M json :=
  catch
    (role <- getUserRole a uid ;;
     let context :=
       {| Provider.userId := user_of a uid; Provider.userRole := role;
          Provider.module_ := moduleName (config a);
          Provider.action := operation +:+ "_" +:+ toLowerCase entity;
          Provider.entityId := None; Provider.filters := None |} in
     Provider.updateModuleData drv context entity operation data)
    (fun e => log LError "Failed to update module data" (Some e) ;; throw e).

(** What [transformSearchResults] builds, by class. *)
Inductive SearchView : Type :=
| ClientPortalSearch (clients cases documents : list json) (totalFound : nat)
| AssistantSearch (documents cases legalQueries : list json)
    (relevanceScore : Q) (totalFound : nat)
| DocumentSearch (documents : list json) (folders : json) (totalFound : nat).

(** [results.results.find(r => r.entity === name)?.results || []] *)
Definition results_of (name : string) (results : Provider.SearchResponse) :
    list json :=
  match List.find (fun r => String.eqb (Provider.sg_entity r) name)
                  (Provider.sr_results results) with
  | Some r => Provider.sg_results r
  | None => []
  end.

Definition calculateRelevanceScore (results : Provider.SearchResponse) : Q :=
  (85 # 100)%Q.

Definition groupByFolder (results : list Provider.SearchGroup) : json := JObj [].

Definition transformSearchResults (a : BaseModuleDataAdapter)
    (results : Provider.SearchResponse) : SearchView :=
  match class a with
  | ClientPortalDataAdapter =>
      ClientPortalSearch (results_of "Client" results) (results_of "Case" results)
        (results_of "Document" results) (Provider.sr_totalFound results)
  | AIAssistantDataAdapter =>
      AssistantSearch (results_of "Document" results) (results_of "Case" results)
        (results_of "LegalQuery" results) (calculateRelevanceScore results)
        (Provider.sr_totalFound results)
  | DocumentManagementDataAdapter =>
      DocumentSearch (results_of "Document" results)
        (groupByFolder (Provider.sr_results results))
        (Provider.sr_totalFound results)
  end.

Definition searchModuleData (a : BaseModuleDataAdapter) (uid searchTerm : string)
    (options : Provider.SearchOptions) : M SearchView :=
  catch
    (role <- getUserRole a uid ;;
     let context :=
       {| Provider.userId := user_of a uid; Provider.userRole := role;
          Provider.module_ := moduleName (config a);
          Provider.action := "search";
          Provider.entityId := None; Provider.filters := None |} in
     results <- Provider.searchAcrossModules context searchTerm options ;;
     ret (transformSearchResults a results))
    (fun e => log LError "Module search failed" (Some e) ;; throw e).

Definition getModuleAnalytics (a : BaseModuleDataAdapter) (uid : string)
    (timeRange : option json) : M Provider.ModuleAnalytics :=
  catch
    (role <- getUserRole a uid ;;
     let context :=
       {| Provider.userId := user_of a uid; Provider.userRole := role;
          Provider.module_ := moduleName (config a);
          Provider.action := "analytics";
          Provider.entityId := None; Provider.filters := None |} in
     Provider.getModuleAnalytics context timeRange)
    (fun e => log LError "Module analytics failed" (Some e) ;; throw e).

End Adapters.

(** ** The client portal service, migrated to the adapters *)

Module ClientPortal.

(** The adapter the constructor asks the factory for. *)
Definition adapter : option Adapters.BaseModuleDataAdapter :=
  Adapters.getAdapter "client-portal".

(** [this.adapter.method(..)]: a call on [null] throws. *)
Definition on_adapter {A} (method : string)
    (call : Adapters.BaseModuleDataAdapter -> M A) : M A :=
  match adapter with
  | Some a => call a
  | None =>
      throw (TypeError ("Cannot read properties of null (reading '" +:+ method
                        +:+ "')"))
  end.

(** [results.totalFound] *)
Definition totalFound_of (results : Adapters.SearchView) : nat :=
  match results with
  | Adapters.ClientPortalSearch _ _ _ n => n
  | Adapters.AssistantSearch _ _ _ _ n => n
  | Adapters.DocumentSearch _ _ n => n
  end.

(** The first suggestion quotes [searchTerm.substring(0, length - 1)]. *)
Definition generateSearchSuggestions (searchTerm : string)
    (results : Adapters.SearchView) : list string :=
  if (totalFound_of results =? 0)%nat then
    ["Try searching for " +:+
       String dquote
         (Js.without_last_unit searchTerm +:+ String dquote "");
     "Search in documents only";
     "Search in case names"]
  else if (50 <? totalFound_of results)%nat then
    ["Narrow your search by adding more terms";
     "Filter by date range";
     "Search within specific case"]
  else [].

(** [{ ...results, suggestions }] *)
Record ClientSearch : Type := {
  cs_results : Adapters.SearchView;
  cs_suggestions : list string
}.

Definition searchClientData (clientId searchTerm : string) : M ClientSearch :=
  catch
    (results <-
       on_adapter "searchModuleData" (fun a =>
         Adapters.searchModuleData a clientId searchTerm
           {| Provider.so_entities := Some ["Case"; "Document"; "Message"];
              Provider.so_fuzzy := Some true;
              Provider.so_limit := Some 50%Z |}) ;;
     ret {| cs_results := results;
            cs_suggestions := generateSearchSuggestions searchTerm results |})
    (fun e => log LError "Client data search failed" (Some e) ;; throw e).

Definition updateClientData (drv : Driver)
    (clientId entity operation : string) (data : json) : M json :=
  catch
    (result <-
       on_adapter "updateModuleData" (fun a =>
         Adapters.updateModuleData drv a clientId entity operation data) ;;
     _ <- Hub.lift (Hub.member "id" result) ;;
     log LInfo "Client data updated" None ;;
     ret result)
    (fun e => log LError "Client data update failed" (Some e) ;; throw e).

End ClientPortal.

(** ** An in-memory store

    A driver that keeps the rows of each entity in a list and finds them by
    their [id]; the test double used to run the services on examples. *)

Module Memory.

Definition same_id (id : option json) (row : json) : bool :=
  match id, Js.prop "id" row with
  | Some a, Some b => String.eqb (stringify a) (stringify b)
  | _, _ => false
  end.

Definition unknown (entity : string) : error :=
  StoreError ("No metadata for " +:+ entity +:+ " was found.").

Definition known (entity : string) (d : DB) : option error :=
  match d !! entity with
  | Some _ => None
  | None => Some (unknown entity)
  end.

Definition store_row (entity : string) (row : json) (d : DB) : result (json * DB) :=
  match d !! entity with
  | Some rows =>
      Ok (row,
          <[entity := (List.filter (fun r => negb (same_id (Js.prop "id" row) r)) rows
                       ++ [row])%list]> d)
  | None => Throw (unknown entity)
  end.

Definition patch_row (entity : string) (id : option json) (patch : json) (d : DB) :
    result DB :=
  match d !! entity with
  | Some rows =>
      Ok (<[entity := map (fun r => if same_id id r
                                    then JObj (Js.merge (Js.entries r) (Js.entries patch))
                                    else r) rows]> d)
  | None => Throw (unknown entity)
  end.

Definition find_row (entity : string) (id : option json) (d : DB) : result json :=
  match d !! entity with
  | Some rows => Ok (hd JNull (List.filter (same_id id) rows))
  | None => Throw (unknown entity)
  end.

Definition drop_row (entity : string) (id : option json) (d : DB) :
    result (option json * DB) :=
  match d !! entity with
  | Some rows =>
      Ok (Some (JNum (Z.of_nat (length (List.filter (same_id id) rows)))),
          <[entity := List.filter (fun r => negb (same_id id r)) rows]> d)
  | None => Throw (unknown entity)
  end.

Definition scan (sq : SelectQuery) (d : DB) : result (list json) :=
  match d !! target (sq_from sq) with
  | Some rows => Ok rows
  | None => Throw (unknown (target (sq_from sq)))
  end.

Definition driver : Driver :=
  {| connect := fun _ => None;
     startTransaction := fun _ => None;
     manager_getRepository := known;
     create := fun _ row => row;
     save := store_row;
     update := patch_row;
     findOne := find_row;
     delete_ := drop_row;
     commitTransaction := fun _ => None;
     rollbackTransaction := fun _ => None;
     getMany := scan;
     latency := fun _ _ => 5%Z |}.

(** The same store, whose re-read after an update fails. *)
Definition failing_read : Driver :=
  {| connect := fun _ => None;
     startTransaction := fun _ => None;
     manager_getRepository := known;
     create := fun _ row => row;
     save := store_row;
     update := patch_row;
     findOne := fun _ _ _ => Throw (StoreError "connection lost");
     delete_ := drop_row;
     commitTransaction := fun _ => None;
     rollbackTransaction := fun _ => None;
     getMany := scan;
     latency := fun _ _ => 5%Z |}.

Definition zero : Metrics :=
  {| queryCount := 0; cacheHits := 0; cacheMisses := 0;
     avgQueryTime := of_Z 0; totalQueries := 0 |}.

(** A fresh system over the given rows, with Redis up or down. *)
Definition boot (up : bool) (d : DB) : World :=
  {| redis := Redis.mk up ∅; db := d; tx := None; metrics := zero;
     events := []; logs := []; clock := 1000; trace := [];
     userContextCache := ∅ |}.

Definition case1 : json :=
  JObj [("id", JStr "k1"); ("clientId", JStr "c1"); ("title", JStr "Matter A")].

Definition case2 : json :=
  JObj [("id", JStr "k2"); ("clientId", JStr "c1"); ("title", JStr "Matter B")].

Definition sample : DB := {["Case" := [case1]]}.

End Memory.

(** ** Vocabulary of the statements

    Predicates and named worlds used to state the properties below, and the
    data of the examples. *)

Module Spec.
Import Hub.

(** What may follow a value inside a text: nothing, or a separator. *)
Definition delimited (rest : string) : Prop :=
  match rest with
  | "" => True
  | String c _ => c = ","%char \/ c = "]"%char \/ c = "}"%char
  end.

(** A text that does not go on with a digit. *)
Definition no_digit (s : string) : Prop :=
  match s with
  | "" => True
  | String c _ => digit_of c = None
  end.

(** The first character of a printed positive number is a non-zero digit. *)
Definition digit_head (s : string) : Prop :=
  match s with
  | "" => False
  | String c _ => exists d, digit_of c = Some d
  end.

(** A printed value starts with a character that is neither white space nor
    a closing bracket. *)
Definition opens (s : string) : Prop :=
  match s with
  | "" => False
  | String c _ =>
      is_ws c = false /\ (c =? "]")%char = false /\ (c =? "}")%char = false
  end.

(** Parsing the printed value, whatever follows it, gives the value back. *)
Definition round_trips (v : json) : Prop :=
  forall fuel rest,
    jsize v <= fuel -> delimited rest ->
    parse_value fuel (stringify v +:+ rest) = Some (v, rest).

(** A computation whose final world is related to its initial world. *)
Definition respects {A} (R : World -> World -> Prop) (m : M A) : Prop :=
  forall w, R w (snd (m w)).

(** The relation that leaves one observation of the world unchanged. *)
Definition keeps {X} (f : World -> X) (w w' : World) : Prop := f w' = f w.

(** The query counter does not go down. *)
Definition no_fewer_queries (w w' : World) : Prop :=
  (queryCount (metrics w) <= queryCount (metrics w'))%Z.

(** A computation that issues at least [n] queries. *)
Definition at_least {A} (n : Z) (m : M A) : Prop :=
  forall w, (queryCount (metrics w) + n <= queryCount (metrics (snd (m w))))%Z.

(** The world after [query] counted the call, a hit, a miss. *)
Definition counted (w : World) : World := snd (count_query w).

Definition hit (w : World) : World := snd (count_hit w).

Definition missed (w : World) : World := snd (count_miss w).

(** What the [catch] block of [query] logs. *)
Definition query_failed (e : error) : LogEntry :=
  {| level := LError; message := "Query execution failed"; cause := Some e |}.

(** The world in which [query] turns to the store: the query counted,
    and the miss too when the cache was consulted. *)
Definition miss_start (q : json) (w : World) : World :=
  if cache_enabled q
  then missed (snd (getFromCache (generateCacheKey "query" q) (counted w)))
  else counted w.

(** The lookup of [query] finds nothing it can use. *)
Definition is_miss (q : json) (w : World) : Prop :=
  cache_enabled q = true ->
  forall v, fst (getFromCache (generateCacheKey "query" q) w) = Ok v ->
            Js.truthy v = false.

(** The world after the round trip of [getMany]. *)
Definition selected (drv : Driver) (sq : SelectQuery) (w : World) : World :=
  set_clock (clock w + latency drv sq (db w))%Z (push_call (CGetMany sq) w).

(** The world after the rows were offered to the cache. *)
Definition cached_rows (q : json) (rows : list json) (w : World) : World :=
  if cache_enabled q
  then snd (setCache (generateCacheKey "query" q) (JArr rows) (cache_ttl q) w)
  else w.

(** The world after the latency was averaged in and the event emitted. *)
Definition accounted (entity : string) (rows : list json) (startTime : Z)
    (w : World) : World :=
  push_event (DataAccessed entity (length rows) (clock w - startTime) (clock w))
    (snd (updateQueryMetrics (clock w - startTime)%Z w)).

(** The world in which [mutate] has opened its transaction. *)
Definition started (w : World) : World :=
  set_tx (Some (db w)) (push_call CStartTransaction (push_call CConnect (set_tx None w))).

(** What the [catch] block of [mutate] logs. *)
Definition mutation_failed (e : error) : LogEntry :=
  {| level := LError; message := "Mutation execution failed"; cause := Some e |}.

(** The world [mutate] leaves when its [catch] block ran to its end. *)
Definition rolled_back (e : error) (w : World) : World :=
  push_call CRelease
    (push_log (mutation_failed e) (set_tx None (push_call CRollback w))).

(** What the cache helpers log when they absorb an error. *)
Definition warned (msg : string) (e : error) : LogEntry :=
  {| level := LWarn; message := msg; cause := Some e |}.

(** The key [createRelationship] stores a relationship under. *)
Definition relationship_key (r : DataRelationship) : string :=
  "relationship:" +:+ from_entity r +:+ ":" +:+ from_id r +:+ ":" +:+
  to_entity r +:+ ":" +:+ to_id r.

(** The parameter a condition of the built query binds. *)
Definition parameter (c : Clause) : option string :=
  match c with
  | AndWhere _ p _ => Some p
  | _ => None
  end.

(** An operation string outside the four of the [switch]. *)
Definition unsupported (m : DataMutation) : Prop :=
  m_operation m <> "create" /\ m_operation m <> "update" /\
  m_operation m <> "delete" /\ m_operation m <> "upsert".

(** Inside an open transaction nothing but the working copy and the trace
    changes. *)
Definition within_tx (w w' : World) : Prop :=
  (is_Some (tx w) -> db w' = db w /\ is_Some (tx w')) /\
  redis w' = redis w /\ events w' = events w /\ metrics w' = metrics w /\
  exists calls, trace w' = (trace w ++ calls)%list.

(** The requests, mutations and contexts of the examples. *)
Definition client_query : json :=
  JObj [("entity", JStr "Case"); ("filters", JObj [("clientId", JStr "c1")])].

Definition document_query : json := JObj [("entity", JStr "Document")].

Definition unknown_query : json := JObj [("entity", JStr "Nope")].

Definition library : DB := {["Case" := [Memory.case1]; "Document" := []]}.

(** A hub that answered 100 queries from the store and 7 from the cache. *)
Definition seven_in_hundred : World :=
  set_metrics
    {| queryCount := 107; cacheHits := 7; cacheMisses := 100;
       avgQueryTime := of_Z 12; totalQueries := 100 |}
    (Memory.boot true library).

Definition ten_cases : json := JObj [("entity", JStr "Case"); ("limit", JNum 10)].

Definition active_clients : json :=
  JObj [("entity", JStr "Client"); ("filters", JObj [("status", JStr "ACTIVE")]);
        ("relations", JArr [JStr "cases"]); ("limit", JNum 25)].

Definition ten_cases_reordered : json :=
  JObj [("limit", JNum 10); ("entity", JStr "Case")].

Definition matter_a : json :=
  JObj [("clientId", JStr "c1"); ("title", JStr "Matter A")].

Definition create_matter_a : DataMutation :=
  {| m_entity := "Case"; m_operation := "create"; m_data := matter_a;
     m_validateRelations := false; m_auditTrail := false |}.

Definition retitle : DataMutation :=
  {| m_entity := "Case"; m_operation := "update";
     m_data := JObj [("id", JStr "k1"); ("title", JStr "Matter A, amended")];
     m_validateRelations := true; m_auditTrail := true |}.

Definition archive : DataMutation :=
  {| m_entity := "Case"; m_operation := "archive"; m_data := Memory.case1;
     m_validateRelations := false; m_auditTrail := false |}.

(** A firm with one client and one case, and a client of the portal. *)
Definition acme : json := JObj [("id", JStr "c1"); ("name", JStr "Acme")].

Definition office : DB :=
  {["Client" := [acme]; "Case" := [Memory.case1]; "Document" := [];
    "Message" := []; "Payment" := []; "Notification" := []]}.

Definition portal_visitor : Provider.DataContext :=
  {| Provider.userId := "c1"; Provider.userRole := "client";
     Provider.module_ := "client-portal"; Provider.action := "dashboard";
     Provider.entityId := None; Provider.filters := None |}.

Definition research_visitor : Provider.DataContext :=
  {| Provider.userId := "u1"; Provider.userRole := "client";
     Provider.module_ := "legal-research"; Provider.action := "view";
     Provider.entityId := None; Provider.filters := None |}.

End Spec.
Import Spec.

(** * Properties *)

(** ** [JSON.parse] inverts [JSON.stringify] *)

Module JsonFacts.

Local Arguments String.append : simpl nomatch.

Lemma append_assoc (a b c : string) : (a +:+ b) +:+ c = a +:+ (b +:+ c).
Proof. induction a as [|x a IH]; simpl; [reflexivity | now rewrite IH]. Qed.

Lemma append_nil_r (a : string) : a +:+ "" = a.
Proof. induction a as [|x a IH]; simpl; [reflexivity | now rewrite IH]. Qed.

Lemma length_append (a b : string) :
  String.length (a +:+ b) = String.length a + String.length b.
Proof. induction a as [|x a IH]; simpl; [reflexivity | now rewrite IH]. Qed.

Lemma parse_chars_escape_char (c : ascii) (t : string) :
  parse_chars (escape_char c +:+ t) = push_char c (parse_chars t).
Proof.
  destruct c as [[] [] [] [] [] [] [] []]; cbn; try reflexivity;
    destruct (parse_chars t) as [[? ?]|]; reflexivity.
Qed.

Lemma parse_chars_escape (s rest : string) :
  parse_chars (escape s +:+ String dquote rest) = Some (s, rest).
Proof.
  induction s as [|c s IH]; simpl.
  - reflexivity.
  - rewrite append_assoc, parse_chars_escape_char, IH. reflexivity.
Qed.

Lemma quote_app (s rest : string) :
  quote s +:+ rest = String dquote (escape s +:+ String dquote rest).
Proof. unfold quote. simpl. now rewrite append_assoc. Qed.

Lemma read_digits_uint (u : Decimal.uint) (rest : string) :
  no_digit rest ->
  read_digits (NilEmpty.string_of_uint u +:+ rest) = (u, rest).
Proof.
  intros H. induction u as [|u IH|u IH|u IH|u IH|u IH|u IH|u IH|u IH|u IH|u IH];
    simpl; try (rewrite IH; reflexivity).
  destruct rest as [|c r]; simpl in *; [reflexivity | now rewrite H].
Qed.

Lemma to_uint_shape (p : positive) :
  match Pos.to_uint p with
  | Decimal.Nil | Decimal.D0 _ => False
  | _ => True
  end.
Proof.
  pose proof (Unsigned.to_uint_nonnil p) as Hnil.
  pose proof (Unsigned.to_uint_nonzero p) as Hz.
  assert (Hn : Decimal.unorm (Pos.to_uint p) = Pos.to_uint p).
  { rewrite <- (DecimalPos.Unsigned.to_of (Pos.to_uint p)).
    now rewrite DecimalPos.Unsigned.of_to. }
  destruct (Pos.to_uint p) as [|u|u|u|u|u|u|u|u|u|u] eqn:E; try exact I.
  - now apply Hnil.
  - unfold Decimal.unorm in Hn.
    destruct (Decimal.nzhead (Decimal.D0 u)) eqn:En; try discriminate Hn.
    + apply Hz. now rewrite <- Hn.
    + now apply nzhead_nonzero in En.
Qed.

Lemma delimited_no_digit (rest : string) : delimited rest -> no_digit rest.
Proof.
  destruct rest as [|c r]; simpl; [easy|].
  intros [-> | [-> | ->]]; reflexivity.
Qed.

Lemma delimited_ends_number (rest : string) :
  delimited rest -> ends_number rest = true.
Proof.
  destruct rest as [|c r]; simpl; [easy|].
  intros [-> | [-> | ->]]; reflexivity.
Qed.

Lemma read_nat_to_uint (p : positive) (rest : string) :
  delimited rest ->
  read_nat (NilEmpty.string_of_uint (Pos.to_uint p) +:+ rest)
  = Some (Pos.to_uint p, rest).
Proof.
  intros H. unfold read_nat.
  rewrite read_digits_uint by now apply delimited_no_digit.
  pose proof (to_uint_shape p) as Hs.
  rewrite (delimited_ends_number _ H).
  destruct (Pos.to_uint p); try contradiction; reflexivity.
Qed.

Lemma string_of_uint_to_uint (p : positive) :
  NilZero.string_of_uint (Pos.to_uint p) = NilEmpty.string_of_uint (Pos.to_uint p).
Proof.
  pose proof (to_uint_shape p) as Hs.
  destruct (Pos.to_uint p); try contradiction; reflexivity.
Qed.

Lemma string_of_uint_head (p : positive) (rest : string) :
  digit_head (NilEmpty.string_of_uint (Pos.to_uint p) +:+ rest).
Proof.
  pose proof (to_uint_shape p) as Hs.
  destruct (Pos.to_uint p); try contradiction; simpl; eexists; reflexivity.
Qed.

Lemma parse_number_digit_head (s : string) :
  digit_head s ->
  parse_number s =
  match read_nat s with
  | Some (u, r) => Some (JNum (Z.of_int (Decimal.Pos u)), r)
  | None => None
  end.
Proof.
  destruct s as [|c r]; simpl; [easy|].
  intros [d Hd].
  destruct c as [[] [] [] [] [] [] [] []]; try discriminate Hd; reflexivity.
Qed.

Lemma parse_number_minus (s : string) :
  parse_number (String "-" s) =
  match read_nat s with
  | Some (u, r) => Some (JNum (Z.of_int (Decimal.Neg u)), r)
  | None => None
  end.
Proof. reflexivity. Qed.

Lemma parse_number_show_Z (n : Z) (rest : string) :
  delimited rest ->
  parse_number (show_Z n +:+ rest) = Some (JNum n, rest).
Proof.
  intros H. unfold show_Z.
  destruct n as [|p|p]; simpl Z.to_int; unfold NilZero.string_of_int.
  - simpl. unfold read_nat. simpl.
    destruct rest as [|c r]; simpl in *; [reflexivity|].
    destruct H as [-> | [-> | ->]]; reflexivity.
  - rewrite string_of_uint_to_uint.
    rewrite parse_number_digit_head by apply string_of_uint_head.
    rewrite read_nat_to_uint by assumption.
    change (Decimal.Pos (Pos.to_uint p)) with (Z.to_int (Z.pos p)).
    now rewrite DecimalZ.of_to.
  - rewrite string_of_uint_to_uint.
    change (String "-" ?a +:+ ?b) with (String "-" (a +:+ b)).
    rewrite parse_number_minus, read_nat_to_uint by assumption.
    change (Decimal.Neg (Pos.to_uint p)) with (Z.to_int (Z.neg p)).
    now rewrite DecimalZ.of_to.
Qed.

Lemma pv_quote (f : nat) (r : string) :
  parse_value (S f) (String dquote r) =
  match parse_chars r with
  | Some (x, r') => Some (JStr x, r')
  | None => None
  end.
Proof. reflexivity. Qed.

Lemma pv_array (f : nat) (r : string) :
  parse_value (S f) (String "[" r) =
  match skip_ws r with
  | String c' r' =>
      if (c' =? "]")%char then Some (JArr [], r')
      else match parse_elems f r with
           | Some (l, r'') => Some (JArr l, r'')
           | None => None
           end
  | "" => None
  end.
Proof. reflexivity. Qed.

Lemma pv_object (f : nat) (r : string) :
  parse_value (S f) (String "{" r) =
  match skip_ws r with
  | String c' r' =>
      if (c' =? "}")%char then Some (JObj [], r')
      else match parse_members f r with
           | Some (l, r'') => Some (JObj l, r'')
           | None => None
           end
  | "" => None
  end.
Proof. reflexivity. Qed.

Lemma parse_elems_eq (f : nat) (s : string) :
  parse_elems (S f) s =
  match parse_value f s with
  | Some (v, r) =>
      match skip_ws r with
      | String c r' =>
          if (c =? ",")%char then
            match parse_elems f r' with
            | Some (l, r'') => Some (v :: l, r'')
            | None => None
            end
          else if (c =? "]")%char then Some ([v], r')
          else None
      | "" => None
      end
  | None => None
  end.
Proof. reflexivity. Qed.

Lemma parse_members_quote (f : nat) (s1 : string) :
  parse_members (S f) (String dquote s1) =
  match parse_chars s1 with
  | Some (k, s2) =>
      match skip_ws s2 with
      | String col s3 =>
          if (col =? ":")%char then
            match parse_value f s3 with
            | Some (v, r) =>
                match skip_ws r with
                | String c r' =>
                    if (c =? ",")%char then
                      match parse_members f r' with
                      | Some (l, r'') => Some ((k, v) :: l, r'')
                      | None => None
                      end
                    else if (c =? "}")%char then Some ([(k, v)], r')
                    else None
                | "" => None
                end
            | None => None
            end
          else None
      | "" => None
      end
  | None => None
  end.
Proof. reflexivity. Qed.

Lemma pv_number (f : nat) (s : string) :
  digit_head s -> parse_value (S f) s = parse_number s.
Proof.
  destruct s as [|c r]; simpl; [easy|].
  intros [d Hd].
  destruct c as [[] [] [] [] [] [] [] []]; try discriminate Hd; reflexivity.
Qed.

Lemma pv_minus (f : nat) (r : string) :
  parse_value (S f) (String "-" r) = parse_number (String "-" r).
Proof. reflexivity. Qed.

Lemma digit_head_opens (s : string) : digit_head s -> opens s.
Proof.
  destruct s as [|c r]; simpl; [easy|].
  intros [d Hd].
  destruct c as [[] [] [] [] [] [] [] []]; try discriminate Hd; repeat split.
Qed.

Lemma show_Z_cases (n : Z) (rest : string) :
  digit_head (show_Z n +:+ rest) \/
  exists r, show_Z n +:+ rest = String "-" r.
Proof.
  unfold show_Z. destruct n as [|p|p]; simpl Z.to_int; unfold NilZero.string_of_int.
  - left. simpl. eexists; reflexivity.
  - left. rewrite string_of_uint_to_uint. apply string_of_uint_head.
  - right. eexists. reflexivity.
Qed.

Lemma stringify_opens (v : json) (t : string) : opens (stringify v +:+ t).
Proof.
  destruct v as [|[]|n|s|l|l]; try (simpl; repeat split; fail).
  - simpl stringify. destruct (show_Z_cases n t) as [H|[r H]].
    + now apply digit_head_opens.
    + rewrite H. repeat split.
Qed.

Lemma skip_ws_opens (s : string) : opens s -> skip_ws s = s.
Proof.
  destruct s as [|c r]; simpl; [easy|]. intros (H & _ & _). now rewrite H.
Qed.

Lemma pv_stringify_num (f : nat) (n : Z) (rest : string) :
  delimited rest ->
  parse_value (S f) (show_Z n +:+ rest) = Some (JNum n, rest).
Proof.
  intros H. destruct (show_Z_cases n rest) as [Hd|[r Hr]].
  - rewrite pv_number by assumption. now apply parse_number_show_Z.
  - rewrite <- (parse_number_show_Z n rest H). rewrite Hr. apply pv_minus.
Qed.

Lemma concat_cons2 (a b : string) (l : list string) :
  String.concat "," (a :: b :: l) = a +:+ String "," (String.concat "," (b :: l)).
Proof. reflexivity. Qed.

Lemma parse_elems_stringify (l : list json) :
  Forall round_trips l ->
  forall x fuel rest,
    round_trips x ->
    list_sum (map (fun y => S (jsize y)) (x :: l)) <= fuel ->
    delimited rest ->
    parse_elems fuel
      (String.concat "," (map stringify (x :: l)) +:+ String "]" rest)
    = Some (x :: l, rest).
Proof.
  induction 1 as [|y l Hy Hl IH]; intros x fuel rest Hx Hfuel Hrest.
  - destruct fuel as [|f]; [simpl in Hfuel; lia|].
    rewrite parse_elems_eq. simpl String.concat.
    rewrite Hx; [reflexivity | simpl in Hfuel; lia | simpl; auto].
  - destruct fuel as [|f]; [simpl in Hfuel; lia|].
    rewrite parse_elems_eq.
    change (map stringify (x :: y :: l))
      with (stringify x :: stringify y :: map stringify l).
    rewrite concat_cons2, append_assoc.
    change (String "," ?a +:+ ?b) with (String "," (a +:+ b)).
    rewrite Hx; [| simpl in Hfuel; lia | simpl; auto].
    change (skip_ws (String "," ?r)) with (String "," r). cbv iota beta.
    change (("," =? ",")%char) with true. cbv iota.
    change (stringify y :: map stringify l) with (map stringify (y :: l)).
    rewrite IH; [reflexivity | assumption | simpl in Hfuel |- *; lia | assumption].
Qed.

Lemma concat_single (a : string) : String.concat "," [a] = a.
Proof. reflexivity. Qed.

Lemma member_text_app (k : string) (v : json) (t : string) :
  member_text stringify (k, v) +:+ t
  = String dquote (escape k +:+ String dquote (String ":" (stringify v +:+ t))).
Proof.
  unfold member_text. simpl fst. simpl snd.
  rewrite append_assoc, quote_app. rewrite append_assoc. reflexivity.
Qed.

Lemma parse_members_stringify (l : list (string * json)) :
  Forall (fun kv => round_trips (snd kv)) l ->
  forall kv fuel rest,
    round_trips (snd kv) ->
    list_sum (map (fun kv => S (jsize (snd kv))) (kv :: l)) <= fuel ->
    delimited rest ->
    parse_members fuel
      (String.concat "," (map (member_text stringify) (kv :: l))
       +:+ String "}" rest)
    = Some (kv :: l, rest).
Proof.
  induction 1 as [|kv' l Hy Hl IH]; intros [k v] fuel rest Hx Hfuel Hrest;
    simpl snd in Hx.
  - destruct fuel as [|f]; [simpl in Hfuel; lia|].
    change (map (member_text stringify) [(k, v)])
      with [member_text stringify (k, v)].
    rewrite concat_single, member_text_app, parse_members_quote.
    rewrite parse_chars_escape.
    change (skip_ws (String ":" ?r)) with (String ":" r). cbv iota beta.
    change ((":" =? ":")%char) with true. cbv iota.
    rewrite Hx; [reflexivity | simpl in Hfuel; lia | simpl; auto].
  - destruct fuel as [|f]; [simpl in Hfuel; lia|].
    change (map (member_text stringify) ((k, v) :: kv' :: l))
      with (member_text stringify (k, v) :: member_text stringify kv'
            :: map (member_text stringify) l).
    rewrite concat_cons2, append_assoc.
    change (String "," ?a +:+ ?b) with (String "," (a +:+ b)).
    rewrite member_text_app, parse_members_quote, parse_chars_escape.
    change (skip_ws (String ":" ?r)) with (String ":" r). cbv iota beta.
    change ((":" =? ":")%char) with true. cbv iota.
    rewrite Hx; [| simpl in Hfuel; lia | simpl; auto].
    change (skip_ws (String "," ?r)) with (String "," r). cbv iota beta.
    change (("," =? ",")%char) with true. cbv iota.
    change (member_text stringify kv' :: map (member_text stringify) l)
      with (map (member_text stringify) (kv' :: l)).
    rewrite IH; [reflexivity | assumption | simpl in Hfuel |- *; lia | assumption].
Qed.

Lemma elems_open (x : json) (l : list json) (t : string) :
  opens (String.concat "," (map stringify (x :: l)) +:+ t).
Proof.
  destruct l as [|y l].
  - change (map stringify [x]) with [stringify x]. rewrite concat_single.
    apply stringify_opens.
  - change (map stringify (x :: y :: l))
      with (stringify x :: stringify y :: map stringify l).
    rewrite concat_cons2, append_assoc. apply stringify_opens.
Qed.

Lemma members_open (kv : string * json) (l : list (string * json)) (t : string) :
  opens (String.concat "," (map (member_text stringify) (kv :: l)) +:+ t).
Proof.
  destruct kv as [k v]. destruct l as [|y l].
  - change (map (member_text stringify) [(k, v)])
      with [member_text stringify (k, v)].
    rewrite concat_single, member_text_app. repeat split.
  - change (map (member_text stringify) ((k, v) :: y :: l))
      with (member_text stringify (k, v) :: member_text stringify y
            :: map (member_text stringify) l).
    rewrite concat_cons2, append_assoc, member_text_app. repeat split.
Qed.

Lemma stringify_array (l : list json) (rest : string) :
  stringify (JArr l) +:+ rest
  = String "[" (String.concat "," (map stringify l) +:+ String "]" rest).
Proof.
  change (stringify (JArr l))
    with ("[" +:+ String.concat "," (map stringify l) +:+ "]").
  now rewrite !append_assoc.
Qed.

Lemma stringify_object (l : list (string * json)) (rest : string) :
  stringify (JObj l) +:+ rest
  = String "{" (String.concat "," (map (member_text stringify) l)
                +:+ String "}" rest).
Proof.
  change (stringify (JObj l))
    with ("{" +:+ String.concat "," (map (member_text stringify) l) +:+ "}").
  now rewrite !append_assoc.
Qed.

Theorem parse_value_stringify (v : json) : round_trips v.
Proof.
  induction v as [|b|n|s|l IH|l IH] using json_ind;
    intros fuel rest Hf Hr; (destruct fuel as [|f]; [simpl in Hf; lia|]).
  - reflexivity.
  - destruct b; reflexivity.
  - now apply pv_stringify_num.
  - simpl stringify. rewrite quote_app, pv_quote, parse_chars_escape. reflexivity.
  - rewrite stringify_array, pv_array. destruct l as [|x l]; [reflexivity|].
    pose proof (elems_open x l (String "]" rest)) as Ho.
    rewrite (skip_ws_opens _ Ho).
    destruct (String.concat "," (map stringify (x :: l)) +:+ String "]" rest)
      as [|c r] eqn:E; [contradiction|].
    destruct Ho as (_ & Hb & _). rewrite Hb, <- E.
    inversion IH; subst.
    rewrite parse_elems_stringify;
      [reflexivity | assumption | assumption | simpl in Hf |- *; lia | assumption].
  - rewrite stringify_object, pv_object. destruct l as [|x l]; [reflexivity|].
    pose proof (members_open x l (String "}" rest)) as Ho.
    rewrite (skip_ws_opens _ Ho).
    destruct (String.concat "," (map (member_text stringify) (x :: l))
              +:+ String "}" rest) as [|c r] eqn:E; [contradiction|].
    destruct Ho as (_ & _ & Hb). rewrite Hb, <- E.
    inversion IH; subst.
    rewrite parse_members_stringify;
      [reflexivity | assumption | assumption | simpl in Hf |- *; lia | assumption].
Qed.

Lemma show_Z_length (n : Z) : 1 <= String.length (show_Z n).
Proof.
  destruct (show_Z_cases n "") as [H|[r H]]; rewrite append_nil_r in H.
  - destruct (show_Z n); simpl in *; [contradiction | lia].
  - rewrite H. simpl. lia.
Qed.

Lemma concat_length (f : json -> nat) (g : json -> string) (l : list json) :
  Forall (fun x => f x <= String.length (g x)) l ->
  list_sum (map (fun x => S (f x)) l)
  <= S (String.length (String.concat "," (map g l))).
Proof.
  induction 1 as [|x l Hx Hl IH]; [simpl; lia|].
  destruct l as [|y l].
  - simpl. lia.
  - change (map g (x :: y :: l)) with (g x :: g y :: map g l).
    rewrite concat_cons2, length_append.
    change (map g (y :: l)) with (g y :: map g l) in IH.
    change (String.length (String "," ?a)) with (S (String.length a)).
    remember (String.length (String.concat "," (g y :: map g l))) as c.
    change (list_sum (map (fun x => S (f x)) (x :: y :: l)))
      with (S (f x) + list_sum (map (fun x => S (f x)) (y :: l))).
    lia.
Qed.

Lemma members_length (l : list (string * json)) :
  Forall (fun kv => jsize (snd kv) <= String.length (stringify (snd kv))) l ->
  list_sum (map (fun kv => S (jsize (snd kv))) l)
  <= S (String.length (String.concat "," (map (member_text stringify) l))).
Proof.
  induction 1 as [|[k v] l Hx Hl IH]; [simpl; lia|].
  assert (Hm : S (jsize v) <= String.length (member_text stringify (k, v))).
  { unfold member_text. rewrite quote_app. simpl String.length.
    rewrite length_append. simpl in *. lia. }
  destruct l as [|y l].
  - change (map (member_text stringify) [(k, v)])
      with [member_text stringify (k, v)].
    rewrite concat_single. simpl list_sum. simpl snd. lia.
  - change (map (member_text stringify) ((k, v) :: y :: l))
      with (member_text stringify (k, v) :: member_text stringify y
            :: map (member_text stringify) l).
    rewrite concat_cons2, length_append.
    change (map (member_text stringify) (y :: l))
      with (member_text stringify y :: map (member_text stringify) l) in IH.
    change (String.length (String "," ?a)) with (S (String.length a)).
    remember (String.length (String.concat ","
                (member_text stringify y :: map (member_text stringify) l))) as c.
    change (list_sum (map (fun kv => S (jsize (snd kv))) ((k, v) :: y :: l)))
      with (S (jsize v) + list_sum (map (fun kv => S (jsize (snd kv))) (y :: l))).
    lia.
Qed.

Lemma jsize_le_length (v : json) : jsize v <= String.length (stringify v).
Proof.
  induction v as [|b|n|s|l IH|l IH] using json_ind.
  - simpl. lia.
  - destruct b; simpl; lia.
  - simpl. apply show_Z_length.
  - simpl. lia.
  - rewrite <- (append_nil_r (stringify (JArr l))), stringify_array.
    simpl String.length. rewrite length_append. simpl.
    pose proof (concat_length jsize stringify l IH). lia.
  - rewrite <- (append_nil_r (stringify (JObj l))), stringify_object.
    simpl String.length. rewrite length_append. simpl.
    pose proof (members_length l IH). lia.
Qed.

(** [JSON.parse(JSON.stringify(v))] is [v]. *)
Theorem parse_stringify (v : json) : parse (stringify v) = Some v.
Proof.
  unfold parse.
  pose proof (parse_value_stringify v (S (String.length (stringify v))) "") as H.
  rewrite append_nil_r in H. rewrite H; [reflexivity | | exact I].
  pose proof (jsize_le_length v). lia.
Qed.

(** A printed value is never the empty text. *)
Lemma stringify_nonempty (v : json) : String.eqb (stringify v) "" = false.
Proof.
  pose proof (stringify_opens v "") as H. rewrite append_nil_r in H.
  destruct (stringify v); [contradiction | reflexivity].
Qed.

End JsonFacts.

(** ** Frame rules

    A relation between the world before and after, reflexive and transitive,
    passes through every combinator of [M]. *)

Section Frame.
Context (R : World -> World -> Prop) `{!PreOrder R}.

Lemma respects_ret {A} (a : A) : respects R (ret a).
Proof. intros w. simpl. reflexivity. Qed.

Lemma respects_throw {A} (e : error) : respects R (@throw A e).
Proof. intros w. simpl. reflexivity. Qed.

Lemma respects_lift {A} (r : result A) : respects R (Hub.lift r).
Proof. intros w. simpl. reflexivity. Qed.

Lemma respects_gets {A} (f : World -> A) : respects R (gets f).
Proof. intros w. simpl. reflexivity. Qed.

Lemma respects_modify (f : World -> World) :
  (forall w, R w (f w)) -> respects R (modify f).
Proof. intros H w. apply H. Qed.

Lemma respects_bind {A B} (m : M A) (k : A -> M B) :
  respects R m -> (forall a, respects R (k a)) -> respects R (bind m k).
Proof.
  intros Hm Hk w. unfold bind. specialize (Hm w).
  destruct (m w) as [[a|e] w1]; simpl in *; [|assumption].
  etransitivity; [eassumption | apply Hk].
Qed.

Lemma respects_catch {A} (m : M A) (h : error -> M A) :
  respects R m -> (forall e, respects R (h e)) -> respects R (catch m h).
Proof.
  intros Hm Hh w. unfold catch. specialize (Hm w).
  destruct (m w) as [[a|e] w1]; simpl in *; [assumption|].
  etransitivity; [eassumption | apply Hh].
Qed.

Lemma respects_finally {A} (m : M A) (f : M unit) :
  respects R m -> respects R f -> respects R (finally m f).
Proof.
  intros Hm Hf w. unfold finally. specialize (Hm w).
  destruct (m w) as [r w1]. specialize (Hf w1).
  destruct (f w1) as [[u|e] w2]; simpl in *; etransitivity; eassumption.
Qed.

Lemma respects_if {A} (b : bool) (m1 m2 : M A) :
  respects R m1 -> respects R m2 -> respects R (if b then m1 else m2).
Proof. destruct b; auto. Qed.

Lemma respects_log lv msg e :
  (forall l w, R w (push_log l w)) -> respects R (log lv msg e).
Proof. intros H w. apply H. Qed.

Lemma respects_emit ev :
  (forall e w, R w (push_event e w)) -> respects R (emit ev).
Proof. intros H w. apply H. Qed.

Lemma respects_redis_ask {A} (cmd : Redis.t -> result A) :
  respects R (Hub.redis_ask cmd).
Proof. intros w. simpl. reflexivity. Qed.

Lemma respects_redis_run {A} (cmd : Redis.t -> result A * Redis.t) :
  (forall s w, R w (set_redis s w)) -> respects R (Hub.redis_run cmd).
Proof.
  intros H w. unfold Hub.redis_run. destruct (cmd (redis w)). apply H.
Qed.

End Frame.

(** ** The hub *)

Module HubFacts.
Import Hub.

Global Instance keeps_preorder {X} (f : World -> X) : PreOrder (keeps f).
Proof. split; [intros w; reflexivity | intros a b c H1 H2; unfold keeps in *; congruence]. Qed.

Create HintDb frame.

Ltac frame_prim :=
  intros; unfold keeps, no_fewer_queries in *; cbn; solve [reflexivity | lia | auto].

Ltac frame_step :=
  lazymatch goal with
  | |- respects _ (ret _) => apply respects_ret; typeclasses eauto
  | |- respects _ (throw _) => apply respects_throw; typeclasses eauto
  | |- respects _ (lift _) => apply respects_lift; typeclasses eauto
  | |- respects _ (gets _) => apply respects_gets; typeclasses eauto
  | |- respects _ (redis_ask _) => apply respects_redis_ask; typeclasses eauto
  | |- respects _ (bind _ _) =>
      apply respects_bind; [typeclasses eauto | | intros ?]
  | |- respects _ (catch _ _) =>
      apply respects_catch; [typeclasses eauto | | intros ?]
  | |- respects _ (finally _ _) =>
      apply respects_finally; [typeclasses eauto | | ]
  | |- respects _ (modify _) => apply respects_modify; frame_prim
  | |- respects _ (log _ _ _) => apply respects_log; frame_prim
  | |- respects _ (emit _) => apply respects_emit; frame_prim
  | |- respects _ (redis_run _) => apply respects_redis_run; frame_prim
  | |- respects _ (if ?b then _ else _) => destruct b
  | |- respects _ (match ?x with _ => _ end) => destruct x
  | |- respects _ _ => solve [auto with frame]
  end.

Ltac frame := repeat frame_step.

Ltac easy_frame := intros; reflexivity.

Lemma respects_at {A} (R : World -> World -> Prop) (m : M A) (w w' : World)
    (r : result A) :
  respects R m -> m w = (r, w') -> R w w'.
Proof. intros H E. specialize (H w). now rewrite E in H. Qed.

Lemma bind_throw_inv {A B} (m : M A) (k : A -> M B) (w w' : World) (e : error) :
  bind m k w = (Throw e, w') ->
  m w = (Throw e, w') \/ exists a w1, m w = (Ok a, w1) /\ k a w1 = (Throw e, w').
Proof.
  unfold bind. destruct (m w) as [[a|e0] w1]; intros H.
  - right. eauto.
  - left. injection H as -> ->. reflexivity.
Qed.

(** *** The cache helpers *)

Lemma getFromCache_eq (key : string) (w : World) :
  getFromCache key w =
  match Redis.get key (redis w) with
  | Ok (Some text) =>
      if String.eqb text "" then (Ok JNull, w)
      else
        match parse text with
        | Some v => (Ok v, w)
        | None =>
            (Ok JNull,
             push_log {| level := LWarn; message := "Cache read failed";
                         cause := Some (Error "SyntaxError: Unexpected token in JSON") |} w)
        end
  | Ok None => (Ok JNull, w)
  | Throw e =>
      (Ok JNull,
       push_log {| level := LWarn; message := "Cache read failed";
                   cause := Some e |} w)
  end.
Proof.
  unfold getFromCache, catch, bind, redis_ask, log, modify, ret, throw.
  destruct (Redis.get key (redis w)) as [[text|]|e]; try reflexivity.
  destruct (String.eqb text ""); [reflexivity|].
  destruct (parse text); reflexivity.
Qed.

Lemma getFromCache_never_throws (key : string) (w : World) :
  exists v, fst (getFromCache key w) = Ok v.
Proof.
  rewrite getFromCache_eq.
  destruct (Redis.get key (redis w)) as [[text|]|e]; simpl; eauto.
  destruct (String.eqb text ""); simpl; eauto.
  destruct (parse text); simpl; eauto.
Qed.

Lemma setCache_never_throws (key : string) (data ttl : json) (w : World) :
  fst (setCache key data ttl w) = Ok tt.
Proof.
  unfold setCache, catch, setex, redis_run, log, modify, throw.
  destruct ttl; try reflexivity.
  destruct (Redis.setex key n (stringify data) (redis w)) as [[[]|e] s]; reflexivity.
Qed.

Lemma clearCache_never_throws (pattern : option string) (w : World) :
  fst (clearCache pattern w) = Ok tt.
Proof.
  unfold clearCache, catch, bind, redis_ask, redis_run, log, modify, ret.
  destruct (Redis.keys _ (redis w)) as [[|k ks]|e]; try reflexivity.
  destruct (Redis.del (k :: ks) (redis w)) as [[n|e] s]; reflexivity.
Qed.

Lemma analytics_never_throws (q : json) (w : World) :
  exists v, fst (analytics q w) = Ok v.
Proof.
  unfold analytics, catch, bind, executeAnalyticsQuery, ret.
  destruct (getFromCache_never_throws (generateCacheKey "analytics" q) w) as [v Hv].
  destruct (getFromCache _ w) as [r w1]; simpl in Hv; subst r.
  destruct (Js.truthy v); simpl; eauto.
  pose proof (setCache_never_throws (generateCacheKey "analytics" q)
                (JObj [("placeholder", JStr "Analytics results would be here")])
                (JNum 7200) w1) as Hs.
  destruct (setCache _ _ _ w1) as [r w2]; simpl in Hs; subst r. simpl. eauto.
Qed.

(** A write that the store accepts leaves the printed value under the key. *)
Lemma setCache_stores (key : string) (data : json) (n : Z) (w : World) :
  Redis.online (redis w) = true -> (0 < n)%Z ->
  setCache key data (JNum n) w
  = (Ok tt,
     set_redis (Redis.mk true (<[key := (n, stringify data)]> (Redis.entries (redis w)))) w).
Proof.
  intros Hon Hn. unfold setCache, catch, setex, redis_run, Redis.setex.
  rewrite Hon. simpl negb. cbv iota.
  destruct (n <=? 0)%Z eqn:E; [apply Z.leb_le in E; lia|]. reflexivity.
Qed.

(** What [getFromCache] returns depends on the cache store alone. *)
Lemma getFromCache_redis (key : string) (w w' : World) :
  redis w' = redis w -> fst (getFromCache key w') = fst (getFromCache key w).
Proof.
  intros H. rewrite !getFromCache_eq, H.
  destruct (Redis.get key (redis w)) as [[text|]|e]; try reflexivity.
  destruct (String.eqb text ""); [reflexivity|].
  destruct (parse text); reflexivity.
Qed.

(** A truthy value was read without a warning: the world is untouched. *)
Lemma getFromCache_truthy (key : string) (w : World) (v : json) :
  fst (getFromCache key w) = Ok v -> Js.truthy v = true ->
  getFromCache key w = (Ok v, w).
Proof.
  rewrite getFromCache_eq.
  destruct (Redis.get key (redis w)) as [[text|]|e]; simpl;
    try (intros [= <-]; discriminate).
  destruct (String.eqb text ""); simpl; try (intros [= <-]; discriminate).
  destruct (parse text); simpl; intros [= <-]; [reflexivity | discriminate].
Qed.

(** What leaves the log (or the cache store) aside, the cache helpers leave
    untouched. *)
Lemma getFromCache_keeps {X} (f : World -> X) (key : string) :
  (forall l w, f (push_log l w) = f w) ->
  forall w, f (snd (getFromCache key w)) = f w.
Proof.
  intros Hl. change (respects (keeps f) (getFromCache key)).
  unfold getFromCache. frame.
Qed.

Lemma setCache_keeps {X} (f : World -> X) (key : string) (data ttl : json) :
  (forall l w, f (push_log l w) = f w) ->
  (forall s w, f (set_redis s w) = f w) ->
  forall w, f (snd (setCache key data ttl w)) = f w.
Proof.
  intros Hl Hr. change (respects (keeps f) (setCache key data ttl)).
  unfold setCache, setex. frame.
Qed.

(** The key is a function of the kind and of the first twelve bytes of the
    serialisation, nothing more. *)
Lemma encode_prefix (s : string) :
  String.substring 0 16 (Base64.encode s)
  = String.substring 0 16 (Base64.encode (String.substring 0 12 s)).
Proof.
  do 15 (destruct s as [|? s]; [reflexivity|]). reflexivity.
Qed.

Lemma cache_key_prefix (type : string) (a b : json) :
  String.substring 0 12 (stringify a) = String.substring 0 12 (stringify b) ->
  generateCacheKey type a = generateCacheKey type b.
Proof.
  intros H. unfold generateCacheKey. cbv zeta.
  rewrite (encode_prefix (stringify a)), (encode_prefix (stringify b)), H.
  reflexivity.
Qed.

(** *** [query], branch by branch *)

Lemma execute_eq (drv : Driver) (q : json) (startTime : Z) (w : World) :
  execute drv q startTime w =
  let entity := Js.to_string_opt (Js.prop "entity" q) in
  match getRepository (Js.prop "entity" q) with
  | None => (Throw (Error ("Repository not found for entity: " +:+ entity)), w)
  | Some repository =>
      match build repository entity q with
      | Throw e => (Throw e, w)
      | Ok sq =>
          match getMany drv sq (db w) with
          | Throw e => (Throw e, selected drv sq w)
          | Ok rows =>
              (Ok (JArr rows),
               accounted entity rows startTime
                 (cached_rows q rows (selected drv sq w)))
          end
      end
  end.
Proof.
  unfold execute, bind, lift, run_getMany, throw, ret. cbv zeta.
  destruct (getRepository (Js.prop "entity" q)) as [repository|]; [|reflexivity].
  destruct (build repository _ q) as [sq|e]; [|reflexivity].
  fold (selected drv sq w).
  destruct (getMany drv sq (db w)) as [rows|e]; [|reflexivity].
  unfold cached_rows, accounted.
  destruct (cache_enabled q).
  - pose proof (setCache_never_throws (generateCacheKey "query" q) (JArr rows)
                  (cache_ttl q) (selected drv sq w)) as Hs.
    destruct (setCache _ _ _ (selected drv sq w)) as [r w2]; simpl in Hs; subst r.
    reflexivity.
  - reflexivity.
Qed.

Lemma query_hit (drv : Driver) (q : json) (w : World) (v : json) :
  cache_enabled q = true ->
  fst (getFromCache (generateCacheKey "query" q) w) = Ok v ->
  Js.truthy v = true ->
  query drv q w = (Ok v, hit (counted w)).
Proof.
  intros Hc Hv Ht.
  assert (Hg : getFromCache (generateCacheKey "query" q) (counted w)
               = (Ok v, counted w)).
  { apply getFromCache_truthy; [|assumption].
    rewrite <- Hv. now apply getFromCache_redis. }
  unfold query, lookup, bind, catch, gets. rewrite Hc.
  change (count_query w) with (Ok tt, counted w). cbv iota beta.
  rewrite Hg, Ht. reflexivity.
Qed.

Lemma query_miss (drv : Driver) (q : json) (w : World) :
  is_miss q w ->
  query drv q w =
  match execute drv q (clock w) (miss_start q w) with
  | (Ok r, w2) => (Ok r, w2)
  | (Throw e, w2) => (Throw e, push_log (query_failed e) w2)
  end.
Proof.
  intros Hm. unfold query, lookup, bind, catch, gets, miss_start, is_miss in *.
  change (count_query w) with (Ok tt, counted w). cbv iota beta zeta.
  destruct (cache_enabled q).
  - destruct (getFromCache_never_throws (generateCacheKey "query" q) (counted w))
      as [v Hv].
    assert (Hf : Js.truthy v = false).
    { apply (Hm eq_refl). rewrite <- Hv. symmetry. now apply getFromCache_redis. }
    destruct (getFromCache _ (counted w)) as [r w1]; simpl in Hv; subst r.
    rewrite Hf. change (count_miss w1) with (Ok tt, missed w1).
    unfold ret. cbv iota beta. simpl snd.
    destruct (execute drv q (clock w) (missed w1)) as [[r|e] w2]; reflexivity.
  - unfold ret. destruct (execute drv q (clock w) (counted w)) as [[r|e] w2];
      reflexivity.
Qed.

Lemma query_cases (drv : Driver) (q : json) (w : World) :
  (exists v, cache_enabled q = true /\
             fst (getFromCache (generateCacheKey "query" q) w) = Ok v /\
             Js.truthy v = true)
  \/ is_miss q w.
Proof.
  unfold is_miss.
  destruct (cache_enabled q) eqn:Hc; [|right; intros H; discriminate].
  destruct (getFromCache_never_throws (generateCacheKey "query" q) w) as [v Hv].
  destruct (Js.truthy v) eqn:Ht.
  - left. eauto.
  - right. intros _ v' Hv'. congruence.
Qed.

Lemma cached_rows_keeps {X} (f : World -> X) (q : json) (rows : list json)
    (w : World) :
  (forall l w, f (push_log l w) = f w) ->
  (forall s w, f (set_redis s w) = f w) ->
  f (cached_rows q rows w) = f w.
Proof.
  intros Hl Hr. unfold cached_rows. destruct (cache_enabled q); [|reflexivity].
  now apply (setCache_keeps f).
Qed.

Lemma miss_world_keeps {X} (f : World -> X) (key : string) (w : World) :
  (forall l w, f (push_log l w) = f w) ->
  (forall m w, f (set_metrics m w) = f w) ->
  f (missed (snd (getFromCache key (counted w)))) = f w.
Proof.
  intros Hl Hm. unfold missed, counted, count_miss, count_query, modify.
  simpl snd. rewrite Hm. rewrite (getFromCache_keeps f key Hl). apply Hm.
Qed.

Lemma miss_start_metrics (q : json) (w : World) :
  metrics (miss_start q w) =
  {| queryCount := queryCount (metrics w) + 1;
     cacheHits := cacheHits (metrics w);
     cacheMisses := if cache_enabled q then cacheMisses (metrics w) + 1
                    else cacheMisses (metrics w);
     avgQueryTime := avgQueryTime (metrics w);
     totalQueries := totalQueries (metrics w) |}.
Proof.
  unfold miss_start. destruct (cache_enabled q); [|reflexivity].
  unfold missed, count_miss, modify. simpl snd. simpl metrics.
  now rewrite (getFromCache_keeps metrics _ ltac:(intros; reflexivity) (counted w)).
Qed.

Lemma miss_start_keeps {X} (f : World -> X) (q : json) (w : World) :
  (forall l w, f (push_log l w) = f w) ->
  (forall m w, f (set_metrics m w) = f w) ->
  f (miss_start q w) = f w.
Proof.
  intros Hl Hm. unfold miss_start. destruct (cache_enabled q).
  - now apply miss_world_keeps.
  - apply Hm.
Qed.

(** The world after a query that reached the store and got rows. *)
Lemma answered_world (drv : Driver) (q : json) (sq : SelectQuery)
    (rows : list json) (w : World) :
  let entity := Js.to_string_opt (Js.prop "entity" q) in
  let w' := accounted entity rows (clock w)
              (cached_rows q rows (selected drv sq (miss_start q w))) in
  trace w' = (trace w ++ [CGetMany sq])%list /\
  db w' = db w /\
  totalQueries (metrics w') = (totalQueries (metrics w) + 1)%Z /\
  queryCount (metrics w') = (queryCount (metrics w) + 1)%Z /\
  cacheHits (metrics w') = cacheHits (metrics w) /\
  events w' = (events w ++
                [DataAccessed entity (length rows) (latency drv sq (db w))
                   (clock w + latency drv sq (db w))])%list.
Proof.
  cbv zeta. unfold accounted, updateQueryMetrics, modify. simpl snd.
  assert (Hc : clock (cached_rows q rows (selected drv sq (miss_start q w)))
               = (clock w + latency drv sq (db w))%Z).
  { rewrite (cached_rows_keeps clock) by easy_frame. unfold selected. simpl.
    rewrite (miss_start_keeps clock), (miss_start_keeps db) by easy_frame.
    reflexivity. }
  repeat split; simpl.
  - rewrite (cached_rows_keeps trace) by easy_frame. unfold selected. simpl.
    now rewrite (miss_start_keeps trace) by easy_frame.
  - rewrite (cached_rows_keeps db) by easy_frame. unfold selected. simpl.
    now rewrite (miss_start_keeps db) by easy_frame.
  - rewrite (cached_rows_keeps metrics) by easy_frame. unfold selected. simpl.
    now rewrite miss_start_metrics.
  - rewrite (cached_rows_keeps metrics) by easy_frame. unfold selected. simpl.
    now rewrite miss_start_metrics.
  - rewrite (cached_rows_keeps metrics) by easy_frame. unfold selected. simpl.
    now rewrite miss_start_metrics.
  - rewrite Hc. rewrite (cached_rows_keeps events) by easy_frame.
    unfold selected. simpl. rewrite (miss_start_keeps events) by easy_frame.
    do 3 f_equal. lia.
Qed.

(** What a query that went to the store left in the cache. *)
Lemma answered_cache (drv : Driver) (q : json) (sq : SelectQuery)
    (rows : list json) (w : World) (n : Z) :
  cache_enabled q = true -> Redis.online (redis w) = true ->
  cache_ttl q = JNum n -> (0 < n)%Z ->
  let entity := Js.to_string_opt (Js.prop "entity" q) in
  let w' := accounted entity rows (clock w)
              (cached_rows q rows (selected drv sq (miss_start q w))) in
  fst (getFromCache (generateCacheKey "query" q) w') = Ok (JArr rows).
Proof.
  intros Hc Hon Httl Hn. cbv zeta.
  rewrite getFromCache_eq.
  assert (Hr : redis (accounted (Js.to_string_opt (Js.prop "entity" q)) rows (clock w)
                        (cached_rows q rows (selected drv sq (miss_start q w))))
               = Redis.mk true
                   (<[generateCacheKey "query" q := (n, stringify (JArr rows))]>
                      (Redis.entries (redis w)))).
  { unfold accounted, updateQueryMetrics, modify. simpl.
    unfold cached_rows. rewrite Hc, Httl.
    rewrite setCache_stores; [| |assumption].
    - simpl. unfold selected. simpl.
      now rewrite (miss_start_keeps redis) by easy_frame.
    - unfold selected. simpl.
      now rewrite (miss_start_keeps redis) by easy_frame. }
  rewrite Hr. unfold Redis.get. simpl Redis.online. cbv iota.
  simpl Redis.entries. rewrite lookup_insert_eq.
  cbn [fmap option_fmap option_map snd].
  change ("[" +:+ String.concat "," (map stringify rows) +:+ "]")
    with (stringify (JArr rows)).
  rewrite JsonFacts.stringify_nonempty, JsonFacts.parse_stringify. reflexivity.
Qed.

(** Every query is counted, once. *)
Lemma query_counts (drv : Driver) (q : json) (w : World) :
  queryCount (metrics (snd (query drv q w))) = (queryCount (metrics w) + 1)%Z.
Proof.
  destruct (query_cases drv q w) as [(v & Hc & Hv & Ht)|Hm].
  - rewrite (query_hit drv q w v Hc Hv Ht). reflexivity.
  - rewrite (query_miss drv q w Hm), execute_eq. cbv zeta.
    assert (Hstart : queryCount (metrics (miss_start q w))
                     = (queryCount (metrics w) + 1)%Z).
    { now rewrite miss_start_metrics. }
    destruct (getRepository (Js.prop "entity" q)) as [repository|];
      [|exact Hstart].
    destruct (build repository _ q) as [sq|e]; [|exact Hstart].
    destruct (getMany drv sq (db (miss_start q w))) as [rows|e];
      [|exact Hstart].
    now destruct (answered_world drv q sq rows w) as (_ & _ & _ & Hq & _).
Qed.

(** *** [mutate] and its transaction *)

Lemma mutate_started (drv : Driver) (m : DataMutation) (w : World) :
  connect drv (db w) = None -> startTransaction drv (db w) = None ->
  mutate drv m w =
  finally
    (catch
       (result <- transactional_body drv m ;; after_commit m result)
       (fun e => rollback drv ;; log LError "Mutation execution failed" (Some e) ;;
                 throw e))
    release (started w).
Proof.
  intros Hc Hs. unfold mutate, bind at 1 2 3, createQueryRunner, modify, runner_call, begin.
  simpl. rewrite Hc. simpl. rewrite Hs. reflexivity.
Qed.

Lemma dispatch_unsupported (drv : Driver) (m : DataMutation) (w : World) :
  unsupported m ->
  dispatch drv m w = (Throw (Error ("Unsupported operation: " +:+ m_operation m)), w).
Proof.
  intros (H1 & H2 & H3 & H4). unfold dispatch.
  apply String.eqb_neq in H1, H2, H3, H4. rewrite H1, H2, H3, H4. reflexivity.
Qed.

(** When the body throws with the transaction still open, [mutate] rolls
    back, logs, releases the runner and throws the same error. *)
Lemma mutate_body_throws (drv : Driver) (m : DataMutation) (w w1 : World)
    (e : error) :
  connect drv (db w) = None -> startTransaction drv (db w) = None ->
  (forall d, rollbackTransaction drv d = None) ->
  transactional_body drv m (started w) = (Throw e, w1) ->
  is_Some (tx w1) ->
  mutate drv m w = (Throw e, rolled_back e w1).
Proof.
  intros Hc Hs Hr Hb [d Hd]. rewrite (mutate_started drv m w Hc Hs).
  unfold finally, catch. unfold bind at 1. rewrite Hb.
  unfold bind, rollback. rewrite Hd, Hr. reflexivity.
Qed.

Lemma body_unsupported (drv : Driver) (m : DataMutation) (w : World) :
  unsupported m ->
  manager_getRepository drv (m_entity m) (db w) = None ->
  transactional_body drv m (started w)
  = (Throw (Error ("Unsupported operation: " +:+ m_operation m)),
     push_call (CGetRepository (m_entity m)) (started w)).
Proof.
  intros Hop Hr. unfold transactional_body. unfold bind at 1, runner_call.
  simpl tx. cbv iota. rewrite Hr. unfold bind at 1.
  destruct (m_validateRelations m); unfold validateEntityRelations, ret;
    unfold bind at 1; rewrite dispatch_unsupported by assumption; reflexivity.
Qed.

Global Instance within_tx_preorder : PreOrder within_tx.
Proof.
  split.
  - intros w. unfold within_tx. repeat split; auto.
    exists []. now rewrite app_nil_r.
  - intros a b c (Hab & Hr1 & He1 & Hm1 & c1 & Ht1) (Hbc & Hr2 & He2 & Hm2 & c2 & Ht2).
    unfold within_tx. repeat split; try congruence.
    + destruct (Hab H) as [Hd Hs]. destruct (Hbc Hs) as [Hd' _]. congruence.
    + destruct (Hab H) as [_ Hs]. now destruct (Hbc Hs).
    + exists (c1 ++ c2)%list. rewrite Ht2, Ht1. now rewrite <- app_assoc.
Qed.

Lemma within_tx_call (c : Call) (w : World) : within_tx w (push_call c w).
Proof. unfold within_tx. simpl. repeat split; eauto. Qed.

Lemma runner_call_within (c : Call) (f : DB -> option error) :
  respects within_tx (runner_call c f).
Proof.
  intros w. unfold runner_call.
  destruct (f _); simpl; apply within_tx_call.
Qed.

Lemma repository_call_within {A} (c : Call) (f : DB -> result (A * DB)) :
  respects within_tx (repository_call c f).
Proof.
  intros w. unfold repository_call.
  destruct (tx w) as [d|] eqn:Htx.
  - destruct (f d) as [[a d']|e]; simpl.
    + unfold within_tx. simpl. repeat split; eauto.
    + apply within_tx_call.
  - destruct (f (db w)) as [[a d']|e]; simpl.
    + unfold within_tx. simpl. rewrite Htx.
      split; [intros [? [=]] | repeat split; eauto].
    + apply within_tx_call.
Qed.

Lemma dispatch_within (drv : Driver) (m : DataMutation) :
  respects within_tx (dispatch drv m).
Proof.
  unfold dispatch.
  repeat first [ apply repository_call_within | frame_step ].
Qed.

Lemma commit_throws_within (drv : Driver) (w w' : World) (e : error) :
  commit drv w = (Throw e, w') -> within_tx w w'.
Proof.
  unfold commit. destruct (tx w) as [d|].
  - destruct (commitTransaction drv d); intros [= <- <-]. apply within_tx_call.
  - intros [= <- <-]. apply within_tx_call.
Qed.

Lemma body_throws_within (drv : Driver) (m : DataMutation) (w w' : World)
    (e : error) :
  transactional_body drv m w = (Throw e, w') -> within_tx w w'.
Proof.
  unfold transactional_body. intros H.
  apply bind_throw_inv in H as [H|(a & w1 & H1 & H)].
  { eapply respects_at; [apply runner_call_within | exact H]. }
  assert (R1 : within_tx w w1).
  { eapply respects_at; [apply runner_call_within | exact H1]. }
  apply bind_throw_inv in H as [H|(a2 & w2 & H2 & H)].
  { destruct (m_validateRelations m); discriminate H. }
  assert (R2 : w2 = w1).
  { destruct (m_validateRelations m); now injection H2. }
  subst w2.
  apply bind_throw_inv in H as [H|(a3 & w3 & H3 & H)].
  { etransitivity; [exact R1|].
    eapply respects_at; [apply dispatch_within | exact H]. }
  assert (R3 : within_tx w1 w3).
  { eapply respects_at; [apply dispatch_within | exact H3]. }
  apply bind_throw_inv in H as [H|(a4 & w4 & H4 & H)]; [|discriminate H].
  etransitivity; [exact R1|]. etransitivity; [exact R3|].
  now apply commit_throws_within in H.
Qed.

Lemma after_commit_keeps_db (m : DataMutation) (r : json) :
  respects (keeps db) (after_commit m r).
Proof.
  unfold after_commit, invalidateEntityCache, createAuditEntry, syncRealTimeData.
  frame.
Qed.

Lemma rollback_keeps_db (drv : Driver) : respects (keeps db) (rollback drv).
Proof.
  intros w. unfold rollback.
  destruct (tx w) as [d|]; [destruct (rollbackTransaction drv d)|]; reflexivity.
Qed.

Lemma handler_keeps_db (drv : Driver) (e : error) :
  respects (keeps db)
    (rollback drv ;; log LError "Mutation execution failed" (Some e) ;;
     @throw json e).
Proof.
  apply respects_bind; [typeclasses eauto | apply rollback_keeps_db | intros _].
  frame.
Qed.

(** All or nothing: after [mutate] the committed rows are those from before
    the call, or the whole working copy the transactional body built. *)
Lemma mutate_all_or_nothing (drv : Driver) (m : DataMutation) (w : World) :
  let w' := snd (mutate drv m w) in
  db w' = db w \/
  exists r w1, transactional_body drv m (started w) = (Ok r, w1) /\
               db w' = db w1.
Proof.
  cbv zeta.
  destruct (connect drv (db w)) as [e|] eqn:Hc.
  { left. unfold mutate, bind, createQueryRunner, modify, runner_call.
    simpl. rewrite Hc. reflexivity. }
  destruct (startTransaction drv (db w)) as [e|] eqn:Hs.
  { left. unfold mutate, bind, createQueryRunner, modify, runner_call, begin.
    cbn. rewrite Hc. cbn. rewrite Hs. reflexivity. }
  rewrite (mutate_started drv m w Hc Hs).
  unfold finally, catch.
  change ((result <- transactional_body drv m ;; after_commit m result) (started w))
    with (match transactional_body drv m (started w) with
          | (Ok a, w') => after_commit m a w'
          | (Throw e, w') => (@Throw json e, w')
          end).
  destruct (transactional_body drv m (started w)) as [[r|e] w1] eqn:Hb.
  - right. exists r, w1. split; [reflexivity|].
    pose proof (after_commit_keeps_db m r w1) as Ha. unfold keeps in Ha.
    destruct (after_commit m r w1) as [[r'|e] w2]; simpl in Ha.
    + simpl. exact Ha.
    + pose proof (handler_keeps_db drv e w2) as Hh. unfold keeps in Hh.
      destruct ((rollback drv ;; log LError "Mutation execution failed" (Some e) ;;
                 @throw json e) w2) as [r2 w3].
      simpl in *. congruence.
  - left.
    destruct (body_throws_within drv m _ _ e Hb) as (Htx & _).
    destruct Htx as [Hdb _]; [simpl; eauto|].
    pose proof (handler_keeps_db drv e w1) as Hh. unfold keeps in Hh.
    destruct ((rollback drv ;; log LError "Mutation execution failed" (Some e) ;;
               @throw json e) w1) as [r2 w3].
    simpl in *. congruence.
Qed.

End HubFacts.

(** ** The context provider *)

Module ProviderFacts.
Import Hub HubFacts.

Global Instance no_fewer_queries_preorder : PreOrder no_fewer_queries.
Proof.
  split; [intros w; unfold no_fewer_queries; lia|].
  intros a b c. unfold no_fewer_queries. lia.
Qed.

Lemma query_no_fewer (drv : Driver) (q : json) :
  respects no_fewer_queries (query drv q).
Proof. intros w. unfold no_fewer_queries. rewrite query_counts. lia. Qed.

Lemma collect_no_fewer (drv : Driver) (mk : string -> json)
    (entities : list string) :
  forall acc, respects no_fewer_queries (Provider.collect drv mk entities acc).
Proof.
  induction entities as [|entity rest IH]; intros acc; simpl.
  - apply respects_ret. typeclasses eauto.
  - apply respects_bind; [typeclasses eauto | apply query_no_fewer | intros data].
    apply respects_bind; [typeclasses eauto | | intros items; apply IH].
    apply respects_lift. typeclasses eauto.
Qed.

Lemma getUserPreferences_metrics (uid : string) (w : World) :
  metrics (snd (Provider.getUserPreferences uid w)) = metrics w /\
  exists p, fst (Provider.getUserPreferences uid w) = Ok p.
Proof.
  unfold Provider.getUserPreferences.
  destruct (userContextCache w !! _) as [c|]; [destruct (Js.truthy c)|];
    simpl; eauto.
Qed.

Lemma getUserPreferences_no_fewer (uid : string) :
  respects no_fewer_queries (Provider.getUserPreferences uid).
Proof.
  intros w. unfold no_fewer_queries.
  destruct (getUserPreferences_metrics uid w) as [-> _]. lia.
Qed.

Lemma updateUserContext_no_fewer (uid module : string) (c : list (string * json)) :
  respects no_fewer_queries (Provider.updateUserContext uid module c).
Proof. intros w. unfold no_fewer_queries. simpl. lia. Qed.

#[export] Hint Resolve query_no_fewer collect_no_fewer getUserPreferences_no_fewer
  updateUserContext_no_fewer : frame.

Lemma registered_module (name : string) (req : Provider.ModuleDataRequirements) :
  Provider.moduleRequirements !! name = Some req ->
  exists entity rest, Provider.primary req = entity :: rest.
Proof.
  intros H. apply elem_of_list_to_map_2 in H.
  repeat (apply elem_of_cons in H as [H|H]; [injection H as -> ->; simpl; eauto|]).
  now apply elem_of_nil in H.
Qed.

Lemma at_least_bind_first {A B} (n : Z) (m : M A) (k : A -> M B) :
  at_least n m -> (forall a, respects no_fewer_queries (k a)) ->
  at_least n (bind m k).
Proof.
  intros Hm Hk w. unfold bind. specialize (Hm w).
  destruct (m w) as [[a|e] w1]; simpl in *; [|exact Hm].
  specialize (Hk a w1). unfold no_fewer_queries in Hk. lia.
Qed.

Lemma at_least_bind_second {A B} (n : Z) (m : M A) (k : A -> M B) :
  (forall w, exists a, fst (m w) = Ok a) ->
  respects no_fewer_queries m -> (forall a, at_least n (k a)) ->
  at_least n (bind m k).
Proof.
  intros Hok Hm Hk w. unfold bind. specialize (Hm w). destruct (Hok w) as [a Ha].
  destruct (m w) as [r w1]; simpl in *. subst r.
  specialize (Hk a w1). unfold no_fewer_queries in Hm. lia.
Qed.

Lemma at_least_catch {A} (n : Z) (m : M A) (h : error -> M A) :
  at_least n m -> (forall e, respects no_fewer_queries (h e)) ->
  at_least n (catch m h).
Proof.
  intros Hm Hh w. unfold catch. specialize (Hm w).
  destruct (m w) as [[a|e] w1]; simpl in *; [exact Hm|].
  specialize (Hh e w1). unfold no_fewer_queries in Hh. lia.
Qed.

Lemma at_least_ret_bind {A B} (n : Z) (a : A) (k : A -> M B) :
  at_least n (k a) -> at_least n (bind (ret a) k).
Proof. intros H w. exact (H w). Qed.

Lemma query_at_least (drv : Driver) (q : json) : at_least 1 (query drv q).
Proof. intros w. rewrite query_counts. lia. Qed.

(** Whatever the user and the role, a call for a registered module reaches
    the hub: at least one query is issued. *)
Lemma getModuleData_always_queries (drv : Driver) (context : Provider.DataContext)
    (req : Provider.ModuleDataRequirements) :
  Provider.moduleRequirements !! Provider.module_ context = Some req ->
  at_least 1 (Provider.getModuleData drv context).
Proof.
  intros Hreq. destruct (registered_module _ _ Hreq) as (entity & rest & Hp).
  unfold Provider.getModuleData, Provider.validateUserPermissions. rewrite Hreq.
  apply at_least_catch; [|intros e; frame].
  apply at_least_ret_bind.
  apply at_least_bind_second; [intros w; simpl; eauto | frame | intros _].
  apply at_least_bind_second;
    [intros w; apply getUserPreferences_metrics | frame | intros preferences].
  apply at_least_bind_first.
  - unfold Provider.getPrimaryData. rewrite Hp. simpl Provider.collect.
    apply at_least_bind_first; [apply query_at_least | intros data; frame].
  - intros primaryData.
    unfold Provider.getSecondaryData, Provider.getRelatedData,
      Provider.buildMetadata, Provider.prefetchPredictiveData.
    frame.
Qed.

End ProviderFacts.

(** ** Rounding to a double *)

Module NumFacts.
Local Open Scope Q_scope.

Lemma pow2_pos (z : Z) : 0 < pow2 z.
Proof. apply Qpower_0_lt. reflexivity. Qed.

Lemma pow2_add (a b : Z) : pow2 (a + b) == pow2 a * pow2 b.
Proof. apply Qpower_plus. discriminate. Qed.

Lemma pow2_Z (n : Z) : (0 <= n)%Z -> pow2 n == inject_Z (2 ^ n).
Proof. intros H. unfold pow2. now rewrite Zpower_Qpower. Qed.

Lemma pow2_le (a b : Z) : (a <= b)%Z -> pow2 a <= pow2 b.
Proof. intros H. apply Qpower_le_compat_l; [exact H | discriminate]. Qed.

(** The nearest integer is at most one half away. *)
Lemma rne_near (y : Q) : Qabs (inject_Z (rne y) - y) <= 1 # 2.
Proof.
  unfold rne. pose proof (Qfloor_le y) as Hl. pose proof (Qlt_floor y) as Hu.
  rewrite inject_Z_plus in Hu. change (inject_Z 1) with 1 in Hu.
  apply Qabs_Qle_condition.
  destruct (y - inject_Z (Qfloor y) ?= 1 # 2) eqn:E.
  - apply Qeq_alt in E. destruct (Z.even (Qfloor y));
      rewrite ?inject_Z_plus; change (inject_Z 1) with 1; split; lra.
  - apply Qlt_alt in E. split; lra.
  - apply Qgt_alt in E. rewrite inject_Z_plus. change (inject_Z 1) with 1.
    split; lra.
Qed.

Lemma rne_ge (y : Q) (k : Z) : inject_Z k <= y -> (k <= rne y)%Z.
Proof.
  intros H. assert (Hf : (k <= Qfloor y)%Z).
  { rewrite <- (Qfloor_Z k). now apply Qfloor_resp_le. }
  unfold rne. cbv zeta.
    destruct (y - inject_Z (Qfloor y) ?= 1 # 2);
      [destruct (Z.even (Qfloor y))| |]; lia.
Qed.

Lemma rne_le (y : Q) (k : Z) : y <= inject_Z k -> (rne y <= k)%Z.
Proof.
  intros H. assert (Hf : (Qfloor y <= k)%Z).
  { rewrite <- (Qfloor_Z k). now apply Qfloor_resp_le. }
  destruct (Z.eq_dec (Qfloor y) k) as [Hk|Hk].
  - pose proof (Qfloor_le y) as Hl. rewrite Hk in Hl.
    unfold rne. rewrite Hk.
    assert (E : (y - inject_Z k ?= 1 # 2) = Lt) by (apply (proj1 (Qlt_alt _ _)); lra).
    rewrite E. lia.
  - unfold rne. cbv zeta.
    destruct (y - inject_Z (Qfloor y) ?= 1 # 2);
      [destruct (Z.even (Qfloor y))| |]; lia.
Qed.

(** [ilog2 y] is the binary exponent of [y]. *)
Lemma ilog2_spec (y : Q) :
  0 < y -> pow2 (ilog2 y) <= y /\ y < pow2 (ilog2 y + 1).
Proof.
  intros Hy. destruct y as [a b]. unfold ilog2. simpl Qnum. simpl Qden.
  assert (Ha : (0 < a)%Z).
  { unfold Qlt in Hy. simpl in Hy. lia. }
  set (la := Z.log2 a). set (lb := Z.log2 (Z.pos b)).
  destruct (Z.log2_spec a Ha) as [Ha1 Ha2]. fold la in Ha1, Ha2.
  destruct (Z.log2_spec (Z.pos b) ltac:(lia)) as [Hb1 Hb2]. fold lb in Hb1, Hb2.
  assert (Hla : (0 <= la)%Z) by apply Z.log2_nonneg.
  assert (Hlb : (0 <= lb)%Z) by apply Z.log2_nonneg.
  (* b * 2^(la-lb-1) < a < b * 2^(la-lb+1) *)
  assert (Hq : a # b == inject_Z a / inject_Z (Z.pos b)).
  { rewrite Qmake_Qdiv. reflexivity. }
  assert (Hbpos : 0 < inject_Z (Z.pos b)) by (unfold Qlt; simpl; lia).
  assert (QA1 : pow2 la <= inject_Z a).
  { rewrite pow2_Z by lia. now rewrite <- Zle_Qle. }
  assert (QA2 : inject_Z a < pow2 (la + 1)).
  { rewrite pow2_Z by lia. now rewrite <- Zlt_Qlt. }
  assert (QB1 : pow2 lb <= inject_Z (Z.pos b)).
  { rewrite pow2_Z by lia. now rewrite <- Zle_Qle. }
  assert (QB2 : inject_Z (Z.pos b) < pow2 (lb + 1)).
  { rewrite pow2_Z by lia. now rewrite <- Zlt_Qlt. }
  assert (Hy' : (a # b) * inject_Z (Z.pos b) == inject_Z a).
  { rewrite Hq. field. lra. }
  set (y := a # b) in *. set (B := inject_Z (Z.pos b)) in *.
  set (A := inject_Z a) in *.
  assert (U : y < pow2 (la - lb + 1)).
  { assert (E : pow2 (la + 1) == pow2 (la - lb + 1) * pow2 lb).
    { rewrite <- pow2_add. now replace (la - lb + 1 + lb)%Z with (la + 1)%Z by lia. }
    pose proof (pow2_pos lb). pose proof (pow2_pos (la - lb + 1)). nra. }
  assert (L : pow2 (la - lb - 1) <= y).
  { assert (E : pow2 la == pow2 (la - lb - 1) * pow2 (lb + 1)).
    { rewrite <- pow2_add. now replace (la - lb - 1 + (lb + 1))%Z with la by lia. }
    pose proof (pow2_pos (lb + 1)). pose proof (pow2_pos (la - lb - 1)). nra. }
  destruct (Qle_bool (pow2 (la - lb)) y) eqn:E.
  - apply Qle_bool_iff in E. split; assumption.
  - assert (E' : ~ pow2 (la - lb) <= y).
    { intros H. apply Qle_bool_iff in H. congruence. }
    apply Qnot_le_lt in E'. split; [assumption|].
    now replace (la - lb - 1 + 1)%Z with (la - lb)%Z by lia.
Qed.

Lemma pow2_inv (p : Z) : pow2 p * pow2 (- p) == 1.
Proof. rewrite <- pow2_add. now replace (p + - p)%Z with 0%Z by lia. Qed.

Lemma rne_comp (x y : Q) : x == y -> rne x = rne y.
Proof.
  intros H. unfold rne. rewrite (Qfloor_comp x y H).
  assert (E : (x - inject_Z (Qfloor y) ?= 1 # 2) = (y - inject_Z (Qfloor y) ?= 1 # 2)).
  { apply Qcompare_comp; [now rewrite H | reflexivity]. }
  now rewrite E.
Qed.

(** A positive number and its rounding, in units of the quantum. *)
Lemma round_pos_eq (y : Q) :
  let p := Z.max (ilog2 y - 52) (-1074) in
  round_pos y == inject_Z (rne (y * pow2 (- p))) * pow2 p.
Proof.
  cbv zeta. unfold round_pos.
  set (p := Z.max (ilog2 y - 52) (-1074)).
  assert (E : y / pow2 p == y * pow2 (- p)).
  { unfold Qdiv, pow2. now rewrite Qpower_opp. }
  assert (R : rne (y / pow2 p) = rne (y * pow2 (- p))).
  { now apply rne_comp. }
  rewrite R. reflexivity.
Qed.

Lemma round_pos_error (y : Q) :
  pow2 (-1022) <= y -> Qabs (round_pos y - y) <= y * pow2 (-53).
Proof.
  intros Hy. assert (Hpos : 0 < y).
  { pose proof (pow2_pos (-1022)). lra. }
  rewrite round_pos_eq. cbv zeta.
  set (p := Z.max (ilog2 y - 52) (-1074)).
  pose proof (rne_near (y * pow2 (- p))) as Hn.
  set (N := inject_Z (rne (y * pow2 (- p)))) in *.
  pose proof (pow2_pos p) as HP. pose proof (pow2_inv p) as HI.
  pose proof (pow2_pos (- p)) as HK.
  assert (Hlow : pow2 (p + 52) <= y).
  { destruct (Z.max_spec (ilog2 y - 52) (-1074)) as [[_ E]|[_ E]]; fold p in E.
    - rewrite E. exact Hy.
    - rewrite E. replace (ilog2 y - 52 + 52)%Z with (ilog2 y) by lia.
      now apply ilog2_spec. }
  assert (Hq : pow2 (p + 52) * pow2 (-53) == pow2 p * (1 # 2)).
  { rewrite <- pow2_add. replace (p + 52 + -53)%Z with (p + -1)%Z by lia.
    rewrite pow2_add. reflexivity. }
  pose proof (pow2_pos (-53)) as Hu.
  apply Qabs_Qle_condition in Hn. apply Qabs_Qle_condition.
  set (P := pow2 p) in *. set (K := pow2 (- p)) in *.
  set (U := pow2 (-53)) in *. set (T := pow2 (p + 52)) in *.
  assert (Hy2 : y == y * K * P).
  { rewrite <- Qmult_assoc, (Qmult_comm K P), HI. ring. }
  split; nra.
Qed.

(** Rounding never crosses an integer below 2^53. *)
Lemma round_pos_between (y : Q) (L H : Z) :
  0 < y -> inject_Z L <= y -> y <= inject_Z H -> (H < 2 ^ 53)%Z ->
  inject_Z L <= round_pos y /\ round_pos y <= inject_Z H.
Proof.
  intros Hpos HL HH Hsafe. rewrite round_pos_eq. cbv zeta.
  set (p := Z.max (ilog2 y - 52) (-1074)).
  assert (Hp : (p <= 0)%Z).
  { destruct (ilog2_spec y Hpos) as [He _].
    assert (Hlt : pow2 (ilog2 y) < pow2 53).
    { rewrite (pow2_Z 53) by lia. apply Qle_lt_trans with y; [assumption|].
      apply Qle_lt_trans with (inject_Z H); [assumption|].
      now rewrite <- Zlt_Qlt. }
    apply Qpower_lt_compat_l_inv in Hlt; [|reflexivity]. lia. }
  pose proof (pow2_inv p) as HI. pose proof (pow2_pos p) as HP.
  assert (HK : pow2 (- p) == inject_Z (2 ^ (- p))) by (apply pow2_Z; lia).
  assert (HKpos : 0 < inject_Z (2 ^ (- p))).
  { rewrite <- HK. apply pow2_pos. }
  assert (G1 : (L * 2 ^ (- p) <= rne (y * pow2 (- p)))%Z).
  { apply rne_ge. rewrite inject_Z_mult, HK. nra. }
  assert (G2 : (rne (y * pow2 (- p)) <= H * 2 ^ (- p))%Z).
  { apply rne_le. rewrite inject_Z_mult, HK. nra. }
  rewrite Zle_Qle, inject_Z_mult in G1, G2. rewrite HK in HI.
  set (N := inject_Z (rne (y * pow2 (- p)))) in *.
  set (P := pow2 p) in *. set (K := inject_Z (2 ^ (- p))) in *.
  split; nra.
Qed.

Lemma sign_gt (x : Q) : sign x = Gt <-> 0 < x.
Proof. unfold sign. symmetry. apply Qgt_alt. Qed.

Lemma sign_lt (x : Q) : sign x = Lt <-> x < 0.
Proof. unfold sign. symmetry. apply Qlt_alt. Qed.

Lemma sign_eq (x : Q) : sign x = Eq <-> x == 0.
Proof. unfold sign. symmetry. apply Qeq_alt. Qed.

Lemma not_overflow (v : Q) : v < pow2 1024 -> Qle_bool (pow2 1024) v = false.
Proof.
  intros H. destruct (Qle_bool (pow2 1024) v) eqn:E; [|reflexivity].
  apply Qle_bool_iff in E. lra.
Qed.

(** A number between two integers below 2^53 is rounded to a finite number
    between them. *)
Lemma round64_between (x : Q) (L H : Z) :
  (0 <= L)%Z -> (H < 2 ^ 53)%Z -> inject_Z L <= x -> x <= inject_Z H ->
  exists q, round64 x = Fin q /\ inject_Z L <= q /\ q <= inject_Z H.
Proof.
  intros HL HH H1 H2.
  assert (H0 : 0 <= x).
  { apply Qle_trans with (inject_Z L); [|assumption].
    change 0 with (inject_Z 0). now rewrite <- Zle_Qle. }
  unfold round64. destruct (sign x) eqn:E.
  - apply (proj1 (sign_eq _)) in E. exists 0. split; [reflexivity|]. rewrite <- E. now split.
  - apply (proj1 (sign_lt _)) in E. lra.
  - apply (proj1 (sign_gt _)) in E. cbv zeta.
    destruct (round_pos_between x L H E H1 H2 HH) as [G1 G2].
    rewrite not_overflow.
    + eexists. split; [reflexivity|]. now rewrite Qred_correct.
    + apply Qle_lt_trans with (inject_Z H); [assumption|].
      rewrite (pow2_Z 1024) by lia. rewrite <- Zlt_Qlt.
      apply Z.lt_trans with (2 ^ 53)%Z; [assumption|]. now apply Z.pow_lt_mono_r.
Qed.

Lemma round64_cases (x : Q) :
  round64 x = PosInf \/ round64 x = NegInf \/ exists v, round64 x = Fin (Qred v).
Proof.
  unfold round64. destruct (sign x); cbv zeta.
  - right. right. now exists 0.
  - destruct (Qle_bool _ _); eauto.
  - destruct (Qle_bool _ _); eauto.
Qed.

(** What [round64] returns is in lowest terms. *)
Lemma round64_reduced (x q : Q) : round64 x = Fin q -> Qred q = q.
Proof.
  intros H. destruct (round64_cases x) as [E|[E|[v E]]]; rewrite E in H;
    try discriminate.
  injection H as <-. apply Qred_complete, Qred_correct.
Qed.

Lemma Qred_inject_Z (z : Z) : Qred (inject_Z z) = inject_Z z.
Proof.
  unfold Qred, inject_Z. pose proof (Z.ggcd_gcd z 1) as Hg.
  pose proof (Z.ggcd_correct_divisors z 1) as Hd.
  destruct (Z.ggcd z 1) as (g, (aa, bb)). simpl in *.
  rewrite Z.gcd_1_r in Hg. subst g. destruct Hd as [Ha Hb].
  rewrite Z.mul_1_l in Ha, Hb. now subst.
Qed.

(** An integer below 2^53 is a double. *)
Lemma of_Z_exact (z : Z) : (0 <= z < 2 ^ 53)%Z -> of_Z z = Fin (inject_Z z).
Proof.
  intros [H0 H1]. unfold of_Z.
  destruct (round64_between (inject_Z z) z z H0 H1 ltac:(apply Qle_refl)
              ltac:(apply Qle_refl)) as (q & Hq & G1 & G2).
  rewrite Hq. f_equal. rewrite <- (round64_reduced _ _ Hq), <- Qred_inject_Z.
  apply Qred_complete. now apply Qle_antisym.
Qed.

(** Within the normal range, rounding moves a number by at most the
    fraction 2^-53 of itself. *)
Lemma round64_error (x : Q) :
  pow2 (-1022) <= x -> x < pow2 1023 ->
  exists q, round64 x = Fin q /\ Qabs (q - x) <= x * pow2 (-53).
Proof.
  intros H1 H2. pose proof (pow2_pos (-1022)) as H0.
  pose proof (round_pos_error x H1) as He.
  unfold round64. assert (E : sign x = Gt) by (apply (proj2 (sign_gt _)); lra).
  rewrite E. cbv zeta. rewrite not_overflow.
  - eexists. split; [reflexivity|]. now rewrite Qred_correct.
  - apply Qabs_Qle_condition in He.
    assert (Hu : pow2 (-53) <= 1).
    { change 1 with (pow2 0). apply pow2_le. lia. }
    assert (Hd : pow2 1024 == 2 * pow2 1023).
    { change 1024%Z with (1 + 1023)%Z. rewrite pow2_add. reflexivity. }
    pose proof (pow2_pos (-53)).
    set (U := pow2 (-53)) in *. set (v := round_pos x) in *.
    set (B := pow2 1023) in *. set (B' := pow2 1024) in *. nra.
Qed.

(** The same bound, with zero allowed. *)
Lemma round64_rel (x : Q) :
  x == 0 \/ pow2 (-1022) <= x -> x < pow2 1023 ->
  exists q, round64 x = Fin q /\ Qabs (q - x) <= x * pow2 (-53).
Proof.
  intros [H0|H1] H2; [|now apply round64_error].
  exists 0. split.
  - unfold round64. now rewrite (proj2 (sign_eq x) H0).
  - rewrite H0. apply Qabs_Qle_condition. split; lra.
Qed.

Lemma sign_of_pos (z : Z) : (0 < z)%Z -> sign (inject_Z z) = Gt.
Proof.
  intros H. apply sign_gt. change 0 with (inject_Z 0). now rewrite <- Zlt_Qlt.
Qed.

(** The quotient of two counters, times 100, in doubles: within the
    fraction 2^-51 of the exact percentage. *)
Lemma percentage_error (h t : Z) :
  (0 <= h < 2 ^ 53)%Z -> (0 < t < 2 ^ 53)%Z ->
  exists q, mul (div (of_Z h) (of_Z t)) (of_Z 100) = Fin q /\
            Qabs (q - inject_Z h / inject_Z t * 100)
            <= inject_Z h / inject_Z t * 100 * (1 # 2 ^ 51).
Proof.
  intros Hh Ht.
  rewrite (of_Z_exact h), (of_Z_exact t), (of_Z_exact 100)
    by (try lia; split; easy).
  unfold div. rewrite (sign_of_pos t) by lia.
  set (x := inject_Z h / inject_Z t).
  assert (Htq : 0 < inject_Z t).
  { change 0 with (inject_Z 0). rewrite <- Zlt_Qlt. lia. }
  assert (Hxt : x * inject_Z t == inject_Z h).
  { unfold x. field. lra. }
  assert (Hhq : 0 <= inject_Z h < pow2 53).
  { rewrite (pow2_Z 53) by lia. change 0 with (inject_Z 0).
    rewrite <- Zle_Qle, <- Zlt_Qlt. lia. }
  assert (Htq' : 1 <= inject_Z t < pow2 53).
  { rewrite (pow2_Z 53) by lia. change 1 with (inject_Z 1).
    rewrite <- Zle_Qle, <- Zlt_Qlt. lia. }
  assert (Hx0 : 0 <= x) by nra.
  assert (Hxh : x <= inject_Z h) by nra.
  pose proof (pow2_pos (-53)) as Hu.
  assert (Hu1 : pow2 (-53) <= 1 # 2).
  { change (1 # 2) with (pow2 (-1)). apply pow2_le. lia. }
  assert (H53 : pow2 53 * pow2 (-53) == 1).
  { rewrite <- pow2_add. reflexivity. }
  assert (Hlo : pow2 (-1022) <= pow2 (-54)) by (apply pow2_le; lia).
  assert (H54 : pow2 (-54) == pow2 (-53) * (1 # 2)).
  { change (-54)%Z with (-53 + -1)%Z. rewrite pow2_add. reflexivity. }
  assert (Hhi : pow2 61 <= pow2 1023) by (apply pow2_le; lia).
  assert (H61 : pow2 61 == 256 * pow2 53).
  { change 61%Z with (8 + 53)%Z. rewrite pow2_add. reflexivity. }
  assert (Heps : (1 # 2 ^ 51) == 4 * pow2 (-53)) by reflexivity.
  assert (Hcase : x == 0 \/ pow2 (-53) <= x).
  { destruct (Z.eq_dec h 0%Z) as [->|Hne].
    - left. unfold x. reflexivity.
    - right. assert (1 <= inject_Z h).
      { change 1 with (inject_Z 1). rewrite <- Zle_Qle. lia. }
      set (U := pow2 (-53)) in *. set (B := pow2 53) in *.
      set (T := inject_Z t) in *. set (H' := inject_Z h) in *.
      assert (x * B >= 1) by nra. nra. }
  set (U := pow2 (-53)) in *. set (B := pow2 53) in *.
  destruct (round64_rel x) as (q1 & Hq1 & He1).
  { destruct Hcase as [E|E]; [now left | right]. fold U in E. lra. }
  { fold B in Hhq. lra. }
  rewrite Hq1. unfold mul. fold U in He1.
  apply Qabs_Qle_condition in He1.
  assert (HxU : 0 <= x * U) by nra.
  assert (HxUU : x * U * U <= x * U * (1 # 2)) by nra.
  destruct (round64_rel (q1 * 100)) as (q & Hq & He).
  { destruct Hcase as [E|E].
    - left. assert (q1 == 0) by nra. rewrite H. reflexivity.
    - right. fold U in E. nra. }
  { fold B in Hhq. nra. }
  exists q. split; [exact Hq|]. fold U in He.
  apply Qabs_Qle_condition in He. apply Qabs_Qle_condition.
  assert (Hq1U : q1 * U <= x * U + x * U * U) by nra.
  assert (Hq1U' : 0 <= q1 * U) by nra.
  rewrite Heps. fold U. split; nra.
Qed.

(** The two roundings show: with 7 hits in 100 queries the double product
    is 7.000000000000001, one unit in the last place above 7. *)
Lemma percentage_carries_rounding :
  Hub.cacheHitRatio (Hub.getPerformanceMetrics seven_in_hundred)
  = Fin (7881299347898369 # 1125899906842624) /\
  (7881299347898369 # 1125899906842624) == 7 + pow2 (-50).
Proof. split; [vm_compute; reflexivity | reflexivity]. Qed.

End NumFacts.

(** ** The claims of the specification *)

Module Claims.
Import Hub HubFacts ProviderFacts.

(** C1, evaluated at the failing input.  A query for the cases of client
    [c1] is answered by the store and cached.  A case of that client is then
    created and the mutation commits.  The same query, issued again, is
    served the entry cached before the mutation, without a call to the
    store, and misses the new case: the invalidation pattern [dmh:*Case*]
    matches no key, since a key carries the start of the Base64 text of the
    query and never the entity name. *)
Theorem mutate_leaves_stale_entry :
  let w0 := Memory.boot true Memory.sample in
  let first := query Memory.driver client_query w0 in
  let change := mutate Memory.driver create_matter_a (snd first) in
  let second := query Memory.driver client_query (snd change) in
  fst first = Ok (JArr [Memory.case1]) /\
  fst change = Ok matter_a /\
  db (snd change) !! "Case" = Some [Memory.case1; matter_a] /\
  invalidation_pattern "Case" (Js.prop "id" matter_a) = "dmh:*Case*" /\
  generateCacheKey "query" client_query = "dmh:query:eyJlbnRpdHkiOiJD" /\
  Redis.keys "dmh:*Case*" (redis (snd first)) = Ok [] /\
  fst second = Ok (JArr [Memory.case1]) /\
  trace (snd second) = trace (snd change) /\
  cacheHits (metrics (snd second)) = 1%Z.
Proof. vm_compute. repeat split. Qed.

(** C2, amended.  For every state of the counters the code can reach
    (integers from 0, below 2^53), [getPerformanceMetrics().cacheHitRatio]
    is a finite number.  When totalQueries is positive it is the double
    product (cacheHits / totalQueries) * 100, a percentage: it lies within
    the fraction 2^-51 of the exact value 100 * cacheHits / totalQueries,
    the quotient and the product being rounded once each.  When
    totalQueries is 0 it is 0, so that nothing is divided by zero. *)
Theorem hit_ratio_is_percentage (w : World) :
  (0 <= cacheHits (metrics w) < 2 ^ 53)%Z ->
  (0 <= totalQueries (metrics w) < 2 ^ 53)%Z ->
  exists q,
    cacheHitRatio (getPerformanceMetrics w) = Fin q /\
    if (totalQueries (metrics w) >? 0)%Z
    then (Qabs (q - inject_Z (cacheHits (metrics w))
                    / inject_Z (totalQueries (metrics w)) * 100)
          <= inject_Z (cacheHits (metrics w))
             / inject_Z (totalQueries (metrics w)) * 100 * (1 # 2 ^ 51))%Q
    else q = 0%Q.
Proof.
  intros Hh Ht. unfold getPerformanceMetrics, hitRatio. simpl cacheHitRatio.
  destruct (totalQueries (metrics w) >? 0)%Z eqn:Hpos.
  - apply NumFacts.percentage_error; [exact Hh|]. apply Z.gtb_lt in Hpos. lia.
  - exists 0%Q. split; reflexivity.
Qed.

Lemma hit_ratio_is_percentage_witness :
  exists q,
    cacheHitRatio (getPerformanceMetrics seven_in_hundred) = Fin q /\
    if (totalQueries (metrics seven_in_hundred) >? 0)%Z
    then (Qabs (q - inject_Z (cacheHits (metrics seven_in_hundred))
                    / inject_Z (totalQueries (metrics seven_in_hundred)) * 100)
          <= inject_Z (cacheHits (metrics seven_in_hundred))
             / inject_Z (totalQueries (metrics seven_in_hundred)) * 100
             * (1 # 2 ^ 51))%Q
    else q = 0%Q.
Proof.
  apply (hit_ratio_is_percentage seven_in_hundred); split; easy.
Defined.

(** C2 as stated fails.  After two queries answered by the store and one
    served from the cache, cacheHits is 1 and totalQueries is 2; the ratio
    reported is 50, which is not 1/2. *)
Lemma hit_ratio_is_not_the_quotient :
  let w := snd (query Memory.driver document_query
             (snd (query Memory.driver client_query
                (snd (query Memory.driver client_query
                   (Memory.boot true library)))))) in
  cacheHits (metrics w) = 1%Z /\ totalQueries (metrics w) = 2%Z /\
  cacheHitRatio (getPerformanceMetrics w) = Fin 50 /\
  ~ (50 == inject_Z (cacheHits (metrics w)) / inject_Z (totalQueries (metrics w)))%Q.
Proof.
  vm_compute. repeat split; discriminate.
Qed.

(** C3, evaluated at the failing input.  Two requests that differ in entity,
    filters, relations and limit receive the same cache key, and two
    requests with the same properties written in another order receive
    different keys: the key is neither order-normalised nor a digest of the
    whole request. *)
Theorem cache_key_ignores_the_query :
  generateCacheKey "query" ten_cases = "dmh:query:eyJlbnRpdHkiOiJD" /\
  generateCacheKey "query" active_clients = "dmh:query:eyJlbnRpdHkiOiJD" /\
  ten_cases <> active_clients /\
  generateCacheKey "query" ten_cases_reordered = "dmh:query:eyJsaW1pdCI6MTAs" /\
  generateCacheKey "query" ten_cases_reordered <> generateCacheKey "query" ten_cases.
Proof. repeat split; try reflexivity; discriminate. Qed.

(** C4.  Let [connect] and [startTransaction] succeed, let the store carry
    out the rollbacks it is asked for, and let any stage of the
    transactional body of [mutate] (the repository lookup, the validation
    of relations, a store call of the dispatched operation, the commit) fail
    with an error [e].  Then [mutate] throws [e] itself; the committed rows
    are those from before the call, whatever the working copy had received;
    the transaction is closed by a rollback and the runner released; the
    cache and the events are untouched. *)
Theorem mutate_rolls_back (drv : Driver) (m : DataMutation) (w w1 : World)
    (e : error) :
  connect drv (db w) = None ->
  startTransaction drv (db w) = None ->
  (forall d, rollbackTransaction drv d = None) ->
  transactional_body drv m (started w) = (Throw e, w1) ->
  let w' := snd (mutate drv m w) in
  fst (mutate drv m w) = Throw e /\
  db w' = db w /\
  tx w' = None /\
  redis w' = redis w /\
  events w' = events w /\
  exists calls,
    trace w' = (trace w ++ [CConnect; CStartTransaction] ++ calls
                ++ [CRollback; CRelease])%list.
Proof.
  intros Hc Hs Hrb Hb. cbv zeta.
  destruct (body_throws_within drv m _ _ e Hb) as (Htx & Hr & He & _ & calls & Ht).
  destruct Htx as [Hdb Hopen]; [simpl; eauto|].
  rewrite (mutate_body_throws drv m w w1 e Hc Hs Hrb Hb Hopen). simpl.
  rewrite Hdb, Hr, He, Ht. simpl. repeat split.
  exists calls. rewrite <- !app_assoc. reflexivity.
Qed.

(** C4 at a concrete input: the update of case [k1] reaches the working copy,
    the re-read fails, and the committed rows are unchanged. *)
Lemma mutate_rolls_back_witness :
  let w := Memory.boot true Memory.sample in
  let e := StoreError "connection lost" in
  let failed := snd (transactional_body Memory.failing_read retitle (started w)) in
  (connect Memory.failing_read (db w) = None /\
   startTransaction Memory.failing_read (db w) = None /\
   (forall d, rollbackTransaction Memory.failing_read d = None) /\
   transactional_body Memory.failing_read retitle (started w) = (Throw e, failed)) /\
  (exists copy, tx failed = Some copy /\ copy <> db w) /\
  let w' := snd (mutate Memory.failing_read retitle w) in
  fst (mutate Memory.failing_read retitle w) = Throw e /\
  db w' = db w /\
  tx w' = None /\
  redis w' = redis w /\
  events w' = events w /\
  exists calls,
    trace w' = (trace w ++ [CConnect; CStartTransaction] ++ calls
                ++ [CRollback; CRelease])%list.
Proof.
  cbv zeta. split; [|split].
  - vm_compute. repeat split.
  - eexists. split; [vm_compute; reflexivity|].
    intros H. apply (f_equal (fun d : DB => d !! "Case")) in H.
    vm_compute in H. discriminate H.
  - apply (mutate_rolls_back Memory.failing_read retitle
             (Memory.boot true Memory.sample)
             (snd (transactional_body Memory.failing_read retitle
                     (started (Memory.boot true Memory.sample))))
             (StoreError "connection lost"));
      first [intros d; reflexivity | vm_compute; reflexivity].
Defined.

(** C5, evaluated at the failing input.  The registry requires
    [research.read] for the module [legal-research].  A call for that module
    by a user of role [client] is not refused: the permission check is an
    empty body, the first primary entity is queried on the hub (one query
    counted, one cache miss), and the call fails with the hub's error for
    an entity without repository, not with a denial. *)
Theorem getModuleData_queries_unchecked :
  let w0 := Memory.boot true Memory.sample in
  let run := Provider.getModuleData Memory.driver research_visitor w0 in
  (exists req, Provider.moduleRequirements !! "legal-research" = Some req /\
               In "research.read" (Provider.permissions req)) /\
  fst run = Throw (Error "Repository not found for entity: ResearchTask") /\
  queryCount (metrics (snd run)) = (queryCount (metrics w0) + 1)%Z /\
  cacheMisses (metrics (snd run)) = 1%Z.
Proof.
  vm_compute. repeat split. eexists. split; [reflexivity|]. left. reflexivity.
Qed.

(** C6, evaluated at the failing input.  With the cache store unreachable, a
    [create] commits its row and then [mutate] throws: the invalidation that
    follows the commit calls the cache outside any handler, its error lands
    in the [catch] block of [mutate], and the rollback attempted there finds
    no transaction.  The row stays committed.  [query] and [clearCache], on
    the same world, absorb the failure. *)
Theorem mutate_propagates_cache_failure :
  let w0 := Memory.boot false Memory.sample in
  let change := mutate Memory.driver create_matter_a w0 in
  fst change = Throw TransactionNotStartedError /\
  db (snd change) !! "Case" = Some [Memory.case1; matter_a] /\
  trace (snd change)
  = [CConnect; CStartTransaction; CGetRepository "Case"; CSave "Case";
     CCommit; CRollback; CRelease] /\
  fst (after_commit create_matter_a matter_a w0) = Throw Redis.unreachable /\
  fst (query Memory.driver client_query w0) = Ok (JArr [Memory.case1]) /\
  fst (clearCache None w0) = Ok tt.
Proof. vm_compute. repeat split. Qed.

(** C7.  For every mutation whose operation is none of [create], [update],
    [delete], [upsert], when the store accepts the connection, the
    transaction, the repository lookup and the rollback: [mutate] throws
    [Error "Unsupported operation: <operation>"]; the calls made on the store
    are connect, start, the repository lookup, rollback and release, with no
    write and no commit; the committed rows, the cache and the events are
    unchanged. *)
Theorem mutate_unsupported_operation (drv : Driver) (m : DataMutation) (w : World) :
  unsupported m ->
  connect drv (db w) = None ->
  startTransaction drv (db w) = None ->
  manager_getRepository drv (m_entity m) (db w) = None ->
  (forall d, rollbackTransaction drv d = None) ->
  let w' := snd (mutate drv m w) in
  fst (mutate drv m w)
  = Throw (Error ("Unsupported operation: " +:+ m_operation m)) /\
  db w' = db w /\
  tx w' = None /\
  trace w' = (trace w ++ [CConnect; CStartTransaction;
                          CGetRepository (m_entity m); CRollback; CRelease])%list /\
  redis w' = redis w /\
  events w' = events w.
Proof.
  intros Hop Hc Hs Hr Hrb. cbv zeta.
  rewrite (mutate_body_throws drv m w _ _ Hc Hs Hrb (body_unsupported drv m w Hop Hr))
    by (simpl; eauto).
  simpl. rewrite <- !app_assoc. repeat split.
Qed.

(** C7 at a concrete input: the operation [archive] on a case. *)
Lemma mutate_unsupported_operation_witness :
  let w := Memory.boot true Memory.sample in
  (unsupported archive /\
   connect Memory.driver (db w) = None /\
   startTransaction Memory.driver (db w) = None /\
   manager_getRepository Memory.driver (m_entity archive) (db w) = None /\
   (forall d, rollbackTransaction Memory.driver d = None)) /\
  let w' := snd (mutate Memory.driver archive w) in
  fst (mutate Memory.driver archive w)
  = Throw (Error ("Unsupported operation: " +:+ m_operation archive)) /\
  db w' = db w /\
  tx w' = None /\
  trace w' = (trace w ++ [CConnect; CStartTransaction;
                          CGetRepository (m_entity archive); CRollback;
                          CRelease])%list /\
  redis w' = redis w /\
  events w' = events w.
Proof.
  cbv zeta.
  assert (Hop : unsupported archive) by (repeat split; discriminate).
  split; [repeat split; try discriminate; reflexivity|].
  apply (mutate_unsupported_operation Memory.driver archive
           (Memory.boot true Memory.sample) Hop); first [intros d|idtac]; reflexivity.
Defined.

(** C8.  Let a query with caching not disabled be issued on a world whose
    cache store is reachable, with a positive time to live (the default, or
    the query's own), and let it return [r].  Issued again on the resulting
    world, with nothing in between, the query returns [r] again; no call is
    made on the store; the committed rows are the same; the hit counter
    grows by one while the miss counter and the count of executed queries
    stay. *)
Theorem query_twice_served_from_cache (drv : Driver) (q : json) (w w1 : World)
    (r : json) (n : Z) :
  cache_enabled q = true ->
  Redis.online (redis w) = true ->
  cache_ttl q = JNum n -> (0 < n)%Z ->
  query drv q w = (Ok r, w1) ->
  let w2 := snd (query drv q w1) in
  fst (query drv q w1) = Ok r /\
  trace w2 = trace w1 /\
  db w2 = db w1 /\
  cacheHits (metrics w2) = (cacheHits (metrics w1) + 1)%Z /\
  cacheMisses (metrics w2) = cacheMisses (metrics w1) /\
  totalQueries (metrics w2) = totalQueries (metrics w1).
Proof.
  intros Hc Hon Httl Hn H1. cbv zeta.
  assert (Hhit : fst (getFromCache (generateCacheKey "query" q) w1) = Ok r /\
                 Js.truthy r = true).
  { destruct (query_cases drv q w) as [(v & _ & Hv & Ht)|Hm].
    - rewrite (query_hit drv q w v Hc Hv Ht) in H1.
      injection H1 as <- <-. split; [|assumption].
      rewrite <- Hv. now apply getFromCache_redis.
    - rewrite (query_miss drv q w Hm), execute_eq in H1. cbv zeta in H1.
      destruct (getRepository (Js.prop "entity" q)) as [repository|];
        [|discriminate H1].
      destruct (build repository _ q) as [sq|e]; [|discriminate H1].
      destruct (getMany drv sq (db (miss_start q w))) as [rows|e];
        [|discriminate H1].
      injection H1 as <- <-. split; [|reflexivity].
      now apply (answered_cache drv q sq rows w n). }
  destruct Hhit as [Hv Ht].
  rewrite (query_hit drv q w1 r Hc Hv Ht). simpl. repeat split.
Qed.

(** C8 at a concrete input: the cases of client [c1], queried twice. *)
Lemma query_twice_served_from_cache_witness :
  let w := Memory.boot true Memory.sample in
  let r := JArr [Memory.case1] in
  let w1 := snd (query Memory.driver client_query w) in
  (cache_enabled client_query = true /\
   Redis.online (redis w) = true /\
   cache_ttl client_query = JNum 3600 /\ (0 < 3600)%Z /\
   query Memory.driver client_query w = (Ok r, w1)) /\
  let w2 := snd (query Memory.driver client_query w1) in
  fst (query Memory.driver client_query w1) = Ok r /\
  trace w2 = trace w1 /\
  db w2 = db w1 /\
  cacheHits (metrics w2) = (cacheHits (metrics w1) + 1)%Z /\
  cacheMisses (metrics w2) = cacheMisses (metrics w1) /\
  totalQueries (metrics w2) = totalQueries (metrics w1).
Proof.
  cbv zeta. split.
  - vm_compute. repeat split.
  - apply (query_twice_served_from_cache Memory.driver client_query
             (Memory.boot true Memory.sample)
             (snd (query Memory.driver client_query
                     (Memory.boot true Memory.sample)))
             (JArr [Memory.case1]) 3600);
      vm_compute; reflexivity.
Defined.

(** C9, amended.  (1) When a query is served from the cache, it returns the
    cached value; queryCount and cacheHits grow by one; cacheMisses,
    totalQueries and avgQueryTime, the events, the store trace, the cache
    and the committed rows are unchanged.  (2) totalQueries, avgQueryTime
    and the events change only when the query went to the store and the
    store returned rows: then exactly one [getMany] call was made, the rows
    are the result, totalQueries grew by one and one [data.accessed] event
    was emitted.  (3) cacheMisses grows by one on every lookup that misses
    with caching not disabled, whether or not the store is then reached. *)
Theorem query_hit_frame (drv : Driver) (q : json) (w : World) :
  let key := generateCacheKey "query" q in
  let entity := Js.to_string_opt (Js.prop "entity" q) in
  let r := fst (query drv q w) in
  let w' := snd (query drv q w) in
  (forall v,
     cache_enabled q = true -> fst (getFromCache key w) = Ok v ->
     Js.truthy v = true ->
     r = Ok v /\
     metrics w' =
       {| queryCount := queryCount (metrics w) + 1;
          cacheHits := cacheHits (metrics w) + 1;
          cacheMisses := cacheMisses (metrics w);
          avgQueryTime := avgQueryTime (metrics w);
          totalQueries := totalQueries (metrics w) |} /\
     events w' = events w /\ trace w' = trace w /\
     redis w' = redis w /\ db w' = db w)
  /\
  ((totalQueries (metrics w') = totalQueries (metrics w) /\
    avgQueryTime (metrics w') = avgQueryTime (metrics w) /\
    events w' = events w)
   \/
   (exists sq rows,
      getMany drv sq (db w) = Ok rows /\ r = Ok (JArr rows) /\
      trace w' = (trace w ++ [CGetMany sq])%list /\
      totalQueries (metrics w') = (totalQueries (metrics w) + 1)%Z /\
      events w' = (events w ++
                    [DataAccessed entity (length rows) (latency drv sq (db w))
                       (clock w + latency drv sq (db w))])%list))
  /\
  (cache_enabled q = true ->
   (forall v, fst (getFromCache key w) = Ok v -> Js.truthy v = false) ->
   cacheMisses (metrics w') = (cacheMisses (metrics w) + 1)%Z).
Proof.
  cbv zeta. split; [|split].
  - intros v Hc Hv Ht. rewrite (query_hit drv q w v Hc Hv Ht). simpl.
    repeat split.
  - destruct (query_cases drv q w) as [(v & Hc & Hv & Ht)|Hm].
    + left. rewrite (query_hit drv q w v Hc Hv Ht). simpl. repeat split.
    + rewrite (query_miss drv q w Hm), execute_eq. cbv zeta.
      destruct (getRepository (Js.prop "entity" q)) as [repository|].
      2:{ left. simpl. rewrite miss_start_metrics.
          rewrite (miss_start_keeps events) by easy_frame. repeat split. }
      destruct (build repository _ q) as [sq|e].
      2:{ left. simpl. rewrite miss_start_metrics.
          rewrite (miss_start_keeps events) by easy_frame. repeat split. }
      destruct (getMany drv sq (db (miss_start q w))) as [rows|e] eqn:Hg.
      2:{ left. simpl. rewrite miss_start_metrics.
          rewrite (miss_start_keeps events) by easy_frame. repeat split. }
      right. exists sq, rows.
      rewrite (miss_start_keeps db) in Hg by easy_frame.
      destruct (answered_world drv q sq rows w) as (Ht & _ & Hq & _ & _ & He).
      simpl. auto.
  - intros Hc Hm.
    rewrite (query_miss drv q w (fun _ => Hm)), execute_eq. cbv zeta.
    assert (Hstart : cacheMisses (metrics (miss_start q w))
                     = (cacheMisses (metrics w) + 1)%Z).
    { rewrite miss_start_metrics, Hc. reflexivity. }
    destruct (getRepository (Js.prop "entity" q)) as [repository|];
      [|exact Hstart].
    destruct (build repository _ q) as [sq|e]; [|exact Hstart].
    destruct (getMany drv sq (db (miss_start q w))) as [rows|e];
      [|exact Hstart].
    simpl. rewrite (cached_rows_keeps metrics) by easy_frame. exact Hstart.
Qed.

(** C9 as stated fails in its last clause.  A query for an entity without
    repository, with caching on, misses the cache and throws before any
    store call: cacheMisses has grown by one although the query never
    executed against the store. *)
Lemma miss_counted_without_storage :
  let w0 := Memory.boot true Memory.sample in
  let run := query Memory.driver unknown_query w0 in
  fst run = Throw (Error "Repository not found for entity: Nope") /\
  cacheMisses (metrics (snd run)) = (cacheMisses (metrics w0) + 1)%Z /\
  trace (snd run) = trace w0.
Proof. vm_compute. repeat split. Qed.

(** C9 (1) at a concrete input: the second query for the cases of client
    [c1]. *)
Lemma query_hit_frame_witness :
  let w := snd (query Memory.driver client_query (Memory.boot true Memory.sample)) in
  let v := JArr [Memory.case1] in
  let w' := snd (query Memory.driver client_query w) in
  (cache_enabled client_query = true /\
   fst (getFromCache (generateCacheKey "query" client_query) w) = Ok v /\
   Js.truthy v = true) /\
  fst (query Memory.driver client_query w) = Ok v /\
  metrics w' =
    {| queryCount := queryCount (metrics w) + 1;
       cacheHits := cacheHits (metrics w) + 1;
       cacheMisses := cacheMisses (metrics w);
       avgQueryTime := avgQueryTime (metrics w);
       totalQueries := totalQueries (metrics w) |} /\
  events w' = events w /\ trace w' = trace w /\
  redis w' = redis w /\ db w' = db w.
Proof.
  cbv zeta. split.
  - vm_compute. repeat split.
  - apply (proj1 (query_hit_frame Memory.driver client_query
                    (snd (query Memory.driver client_query
                            (Memory.boot true Memory.sample))))
                 (JArr [Memory.case1]));
      vm_compute; reflexivity.
Defined.

(** C10.  [getAdapter] returns [null] exactly for the names other than
    [client-portal], [ai-assistant] and [document-management]; for these
    three it returns the adapter of that module; for the four further
    modules of the requirements registry it returns [null]. *)
Theorem getAdapter_exactly_three :
  (forall name,
     Adapters.getAdapter name = None <->
     name <> "client-portal" /\ name <> "ai-assistant" /\
     name <> "document-management") /\
  Adapters.getAdapter "client-portal" = Some Adapters.newClientPortalDataAdapter /\
  Adapters.getAdapter "ai-assistant" = Some Adapters.newAIAssistantDataAdapter /\
  Adapters.getAdapter "document-management"
  = Some Adapters.newDocumentManagementDataAdapter /\
  Forall (fun name => Adapters.getAdapter name = None /\
                      is_Some (Provider.moduleRequirements !! name))
         ["legal-research"; "workflow-automation"; "integration-management";
          "entity-management"].
Proof.
  split; [|repeat split; try (repeat constructor; vm_compute; eauto; fail)].
  - intros name. unfold Adapters.getAdapter, Adapters.adapters,
      Adapters.initializeAdapters.
    rewrite !lookup_insert, lookup_empty.
    repeat case_decide; subst; split; intros Hx;
      first [discriminate Hx | reflexivity | tauto | (repeat split; congruence)].
Qed.

End Claims.
Module CacheFacts.
Import Hub HubFacts.

Lemma glob_prefix (k : string) :
  Glob.glob (prefix +:+ "*") k = true <-> exists rest, k = prefix +:+ rest.
Proof.
  split.
  - unfold Glob.glob. simpl.
    do 4 (destruct k as [|a k]; [intros; discriminate|];
          destruct a as [[] [] [] [] [] [] [] []]; simpl;
          try (intros; discriminate)).
    intros _. exists k. reflexivity.
  - intros [rest ->]. unfold Glob.glob. simpl. destruct rest; reflexivity.
Qed.

Lemma foldr_delete_lookup {V} (ks : list string) (m : gmap string V) (k : string) :
  foldr delete m ks !! k = if bool_decide (k ∈ ks) then None else m !! k.
Proof.
  induction ks as [|x ks IH]; simpl.
  - reflexivity.
  - rewrite lookup_delete. destruct (decide (x = k)) as [->|Hx].
    + rewrite bool_decide_eq_true_2; [reflexivity | left].
    + rewrite IH. destruct (bool_decide (k ∈ ks)) eqn:E.
      * apply bool_decide_eq_true in E.
        rewrite bool_decide_eq_true_2; [reflexivity | now right].
      * apply bool_decide_eq_false in E.
        rewrite bool_decide_eq_false_2; [reflexivity|].
        intros [->|H]%elem_of_cons; [congruence | contradiction].
Qed.

Lemma keys_spec (p : string) (r : Redis.t) (k : string) :
  k ∈ List.filter (Glob.glob p) (map fst (map_to_list (Redis.entries r)))
  <-> Glob.glob p k = true /\ is_Some (Redis.entries r !! k).
Proof.
  rewrite list_elem_of_In, filter_In, in_map_iff. split.
  - intros [[[k' v] [E Hin]] Hg]. simpl in E. subst k'.
    apply list_elem_of_In, elem_of_map_to_list in Hin. eauto.
  - intros [Hg [v Hv]]. split; [|assumption].
    exists (k, v). split; [reflexivity|].
    now apply list_elem_of_In, elem_of_map_to_list.
Qed.

Lemma purge_lookup (p : string) (r : Redis.t) (k : string) :
  foldr delete (Redis.entries r)
    (List.filter (Glob.glob p) (map fst (map_to_list (Redis.entries r)))) !! k
  = if Glob.glob p k then None else Redis.entries r !! k.
Proof.
  rewrite foldr_delete_lookup.
  destruct (bool_decide _) eqn:E.
  - apply bool_decide_eq_true, keys_spec in E as [-> _]. reflexivity.
  - apply bool_decide_eq_false in E. rewrite keys_spec in E.
    destruct (Glob.glob p k) eqn:Hg; [|reflexivity].
    destruct (Redis.entries r !! k) eqn:Hk; [|reflexivity].
    exfalso. apply E. eauto.
Qed.


(** The cache helpers, outcome by outcome. *)
Lemma getFromCache_offline (key : string) (w : World) :
  Redis.online (redis w) = false ->
  getFromCache key w
  = (Ok JNull, push_log (warned "Cache read failed" Redis.unreachable) w).
Proof. intros H. rewrite getFromCache_eq. unfold Redis.get. now rewrite H. Qed.

Lemma setCache_offline (key : string) (data : json) (n : Z) (w : World) :
  Redis.online (redis w) = false ->
  setCache key data (JNum n) w
  = (Ok tt, push_log (warned "Cache write failed" Redis.unreachable) w).
Proof.
  intros H. unfold setCache, catch, setex, redis_run, Redis.setex, log, modify.
  now rewrite H.
Qed.

Lemma setCache_refused (key : string) (data : json) (n : Z) (w : World) :
  Redis.online (redis w) = true -> (n <= 0)%Z ->
  setCache key data (JNum n) w
  = (Ok tt,
     push_log (warned "Cache write failed"
                 (ReplyError "ERR invalid expire time in 'setex' command")) w).
Proof.
  intros Hon Hn. unfold setCache, catch, setex, redis_run, Redis.setex, log, modify.
  rewrite Hon. simpl.
  destruct (n <=? 0)%Z eqn:E; [reflexivity | apply Z.leb_gt in E; lia].
Qed.

Lemma read_after_write (key : string) (data : json) (n : Z) (w : World) :
  Redis.online (redis w) = true -> (0 < n)%Z ->
  let w1 := snd (setCache key data (JNum n) w) in
  getFromCache key w1 = (Ok data, w1).
Proof.
  intros Hon Hn. cbv zeta. rewrite (setCache_stores key data n w Hon Hn).
  simpl snd. rewrite getFromCache_eq. unfold Redis.get. simpl.
  rewrite lookup_insert_eq. cbn [fmap option_fmap option_map snd].
  now rewrite JsonFacts.stringify_nonempty, JsonFacts.parse_stringify.
Qed.

(** X1.  What [setCache] wrote, [getFromCache] reads back: with the cache
    store reachable and a positive expiry, a value stored under a key is
    returned unchanged by the next read of that key, whatever JSON value it
    is; the read leaves the world as it is, and reads of other keys are not
    affected by the write. *)
Theorem cache_round_trip (key : string) (data : json) (n : Z) (w : World) :
  Redis.online (redis w) = true -> (0 < n)%Z ->
  let w1 := snd (setCache key data (JNum n) w) in
  fst (setCache key data (JNum n) w) = Ok tt /\
  getFromCache key w1 = (Ok data, w1) /\
  forall key', key' <> key ->
    fst (getFromCache key' w1) = fst (getFromCache key' w).
Proof.
  intros Hon Hn. cbv zeta.
  split; [apply setCache_never_throws|].
  split; [exact (read_after_write key data n w Hon Hn)|].
  rewrite (setCache_stores key data n w Hon Hn). simpl snd.
  intros key' Hne. rewrite !getFromCache_eq. unfold Redis.get. simpl.
  rewrite Hon, lookup_insert_ne by congruence.
  destruct (Redis.entries (redis w) !! key') as [[t text]|]; simpl; [|reflexivity].
  destruct (String.eqb text ""); [reflexivity|].
  destruct (parse text); reflexivity.
Qed.

Lemma cache_round_trip_witness :
  let w := Memory.boot true Memory.sample in
  getFromCache "k" (snd (setCache "k" Memory.case1 (JNum 60) w))
  = (Ok Memory.case1, snd (setCache "k" Memory.case1 (JNum 60) w)).
Proof.
  cbv zeta.
  apply (cache_round_trip "k" Memory.case1 60 (Memory.boot true Memory.sample));
    [reflexivity | lia].
Defined.

(** X2.  [getFromCache] absorbs every failure: it never throws, and it
    changes nothing but the log.  Either it returns a value and leaves the
    world as it is, or it returns [null] and logs one warning.  When the
    cache store is unreachable it is the second case, with the error of the
    store as the cause. *)
Theorem getFromCache_absorbs (key : string) (w : World) :
  ((exists v, getFromCache key w = (Ok v, w)) \/
   (exists e, getFromCache key w
              = (Ok JNull, push_log (warned "Cache read failed" e) w))) /\
  (Redis.online (redis w) = false ->
   getFromCache key w
   = (Ok JNull, push_log (warned "Cache read failed" Redis.unreachable) w)).
Proof.
  split; [|apply getFromCache_offline].
  rewrite getFromCache_eq. unfold Redis.get.
  destruct (Redis.online (redis w)); [|right; eauto].
  destruct (snd <$> Redis.entries (redis w) !! key) as [text|]; [|left; eauto].
  destruct (String.eqb text ""); [left; eauto|].
  destruct (parse text); [left; eauto | right; eauto].
Qed.

(** X3.  [setCache] absorbs every failure: it never throws.  When the cache
    store is unreachable, or when the expiry is not positive, nothing is
    written and one warning is logged, with the error of the store as its
    cause; otherwise the text of the value is stored under the key with that
    expiry and nothing else changes. *)
Theorem setCache_absorbs (key : string) (data : json) (n : Z) (w : World) :
  fst (setCache key data (JNum n) w) = Ok tt /\
  (Redis.online (redis w) = false ->
   snd (setCache key data (JNum n) w)
   = push_log (warned "Cache write failed" Redis.unreachable) w) /\
  (Redis.online (redis w) = true -> (n <= 0)%Z ->
   snd (setCache key data (JNum n) w)
   = push_log (warned "Cache write failed"
                 (ReplyError "ERR invalid expire time in 'setex' command")) w) /\
  (Redis.online (redis w) = true -> (0 < n)%Z ->
   snd (setCache key data (JNum n) w)
   = set_redis (Redis.mk true (<[key := (n, stringify data)]>
                                 (Redis.entries (redis w)))) w).
Proof.
  split; [apply setCache_never_throws|]. split; [|split].
  - intros Hoff. now rewrite setCache_offline.
  - intros Hon Hn. now rewrite setCache_refused.
  - intros Hon Hn. now rewrite setCache_stores.
Qed.

Lemma clearCache_eq (p : string) (w : World) :
  p <> "" -> Redis.online (redis w) = true ->
  let ks := List.filter (Glob.glob p)
              (map fst (map_to_list (Redis.entries (redis w)))) in
  clearCache (Some p) w =
  match ks with
  | [] => (Ok tt, w)
  | _ :: _ =>
      (Ok tt,
       push_log {| level := LInfo;
                   message := "Cleared " +:+ Js.show_nat (length ks) +:+
                              " cache entries";
                   cause := None |}
         (set_redis (snd (Redis.del ks (redis w))) w))
  end.
Proof.
  intros Hp Hon. cbv zeta.
  unfold clearCache, catch, bind, redis_ask, redis_run, Redis.keys, log, modify, ret.
  apply String.eqb_neq in Hp. rewrite Hp, Hon.
  destruct (List.filter _ _) as [|k0 ks]; [reflexivity|].
  unfold Redis.del. rewrite Hon. reflexivity.
Qed.

(** The world after the keys matching [p] were looked up and deleted. *)
Lemma purged (p : string) (w : World) (k : string) :
  Redis.online (redis w) = true ->
  let ks := List.filter (Glob.glob p)
              (map fst (map_to_list (Redis.entries (redis w)))) in
  Redis.entries (snd (Redis.del ks (redis w))) !! k
  = if Glob.glob p k then None else Redis.entries (redis w) !! k.
Proof.
  intros Hon. cbv zeta. unfold Redis.del. rewrite Hon. simpl.
  apply purge_lookup.
Qed.

Lemma cleared_lookup (p : string) (w : World) :
  p <> "" -> Redis.online (redis w) = true ->
  let w' := snd (clearCache (Some p) w) in
  Redis.online (redis w') = true /\
  forall k, Redis.entries (redis w') !! k
            = if Glob.glob p k then None else Redis.entries (redis w) !! k.
Proof.
  intros Hp Hon. cbv zeta. rewrite (clearCache_eq p w Hp Hon). cbv zeta.
  pose proof (fun k => purged p w k Hon) as Hk. cbv zeta in Hk.
  destruct (List.filter _ _) as [|k0 ks] eqn:E.
  - simpl. split; [assumption|].
    intros k. destruct (Glob.glob p k) eqn:Hg; [|reflexivity].
    destruct (Redis.entries (redis w) !! k) eqn:Hl; [|reflexivity].
    exfalso. assert (Hx : k ∈ @nil string); [|inversion Hx].
    rewrite <- E. apply keys_spec. eauto.
  - simpl. split; [|exact Hk]. unfold Redis.del. now rewrite Hon.
Qed.

(** The default pattern is the prefix followed by a star. *)
Lemma cleared_default (w : World) :
  Redis.online (redis w) = true ->
  let w' := snd (clearCache None w) in
  Redis.online (redis w') = true /\
  (forall rest, Redis.entries (redis w') !! (prefix +:+ rest) = None) /\
  (forall k, (forall rest, k <> prefix +:+ rest) ->
             Redis.entries (redis w') !! k = Redis.entries (redis w) !! k).
Proof.
  intros Hon. cbv zeta.
  change (clearCache None w) with (clearCache (Some (prefix +:+ "*")) w).
  destruct (cleared_lookup (prefix +:+ "*") w ltac:(discriminate) Hon) as [Hon' Hk].
  split; [exact Hon'|]. split.
  - intros rest. rewrite Hk.
    now rewrite (proj2 (glob_prefix (prefix +:+ rest))) by eauto.
  - intros k Hno. rewrite Hk.
    destruct (Glob.glob (prefix +:+ "*") k) eqn:Hg; [|reflexivity].
    apply glob_prefix in Hg as [rest ->]. now destruct (Hno rest).
Qed.

(** X4.  [clearCache(pattern)] with the cache store reachable removes the
    entries whose key matches the pattern, and only those: afterwards a key
    that matches is absent, and a key that does not match holds what it
    held.  The call returns normally; the committed rows, the counters and
    the events are untouched. *)
Theorem clearCache_removes_matching (p : string) (w : World) :
  p <> "" -> Redis.online (redis w) = true ->
  let w' := snd (clearCache (Some p) w) in
  fst (clearCache (Some p) w) = Ok tt /\
  Redis.online (redis w') = true /\
  (forall k, Redis.entries (redis w') !! k
             = if Glob.glob p k then None else Redis.entries (redis w) !! k) /\
  db w' = db w /\ metrics w' = metrics w /\ events w' = events w.
Proof.
  intros Hp Hon. cbv zeta.
  split; [apply clearCache_never_throws|].
  destruct (cleared_lookup p w Hp Hon) as [Hon' Hk].
  split; [exact Hon'|]. split; [exact Hk|].
  rewrite (clearCache_eq p w Hp Hon). cbv zeta.
  destruct (List.filter _ _); simpl; repeat split.
Qed.

Lemma clearCache_removes_matching_witness :
  let w := snd (setCache "dmh:query:a" (JArr []) (JNum 60)
                  (snd (setCache "session:1" (JStr "s") (JNum 60)
                          (Memory.boot true Memory.sample)))) in
  Redis.entries (redis (snd (clearCache (Some "dmh:*") w))) !! "dmh:query:a" = None /\
  Redis.entries (redis (snd (clearCache (Some "dmh:*") w))) !! "session:1"
  = Some (60%Z, stringify (JStr "s")).
Proof.
  cbv zeta.
  pose proof (clearCache_removes_matching "dmh:*"
    (snd (setCache "dmh:query:a" (JArr []) (JNum 60)
            (snd (setCache "session:1" (JStr "s") (JNum 60)
                    (Memory.boot true Memory.sample)))))
    ltac:(discriminate) ltac:(reflexivity)) as (_ & _ & H & _).
  split.
  - rewrite (H "dmh:query:a"). reflexivity.
  - rewrite (H "session:1"). vm_compute. reflexivity.
Defined.

(** X5.  [clearCache()] without a pattern, or with the empty pattern, clears
    the keys that start with the prefix [dmh:], and only those.  Every key
    that [generateCacheKey] produces is among them, so that afterwards a
    read of any such key finds nothing. *)
Theorem clearCache_default (pattern : option string) (w : World) :
  pattern = None \/ pattern = Some "" ->
  Redis.online (redis w) = true ->
  let w' := snd (clearCache pattern w) in
  (forall rest, Redis.entries (redis w') !! (prefix +:+ rest) = None) /\
  (forall k, (forall rest, k <> prefix +:+ rest) ->
             Redis.entries (redis w') !! k = Redis.entries (redis w) !! k) /\
  (forall type data, getFromCache (generateCacheKey type data) w' = (Ok JNull, w')).
Proof.
  intros Hp Hon. cbv zeta.
  assert (E : clearCache pattern w = clearCache None w).
  { destruct Hp as [-> | ->]; reflexivity. }
  rewrite E.
  destruct (cleared_default w Hon) as (Hon' & H1 & H2). cbv zeta in *.
  split; [exact H1|]. split; [exact H2|].
  intros type data. rewrite getFromCache_eq. unfold Redis.get. rewrite Hon'.
  unfold generateCacheKey. cbv zeta.
  change (prefix +:+ type +:+ ":" +:+ ?h) with (prefix +:+ (type +:+ ":" +:+ h)).
  now rewrite H1.
Qed.

Lemma clearCache_default_witness :
  let w := snd (query Memory.driver client_query (Memory.boot true Memory.sample)) in
  getFromCache (generateCacheKey "query" client_query) (snd (clearCache None w))
  = (Ok JNull, snd (clearCache None w)).
Proof.
  cbv zeta.
  apply (clearCache_default None
           (snd (query Memory.driver client_query (Memory.boot true Memory.sample))));
    [now left | vm_compute; reflexivity].
Defined.


(** What a read returns depends on what the store answers, nothing else. *)
Lemma getFromCache_get (key : string) (w w' : World) :
  Redis.get key (redis w') = Redis.get key (redis w) ->
  fst (getFromCache key w') = fst (getFromCache key w).
Proof.
  intros H. rewrite !getFromCache_eq, H.
  destruct (Redis.get key (redis w)) as [[text|]|e]; try reflexivity.
  destruct (String.eqb text ""); [reflexivity|].
  destruct (parse text); reflexivity.
Qed.

Lemma createRelationship_eq (r : DataRelationship) (w : World) :
  createRelationship r w
  = (Ok tt,
     push_event (RelationshipCreated (relationship_json r))
       (snd (setCache (relationship_key r) (relationship_json r) (JNum 86400) w))).
Proof.
  unfold createRelationship, catch, bind, emit, modify.
  fold (relationship_key r).
  pose proof (setCache_never_throws (relationship_key r) (relationship_json r)
                (JNum 86400) w) as H.
  destruct (setCache _ _ _ w) as [x w1]. simpl in H. subst x. reflexivity.
Qed.

Lemma relationship_key_outside (r : DataRelationship) (rest : string) :
  relationship_key r <> prefix +:+ rest.
Proof. unfold relationship_key. simpl. discriminate. Qed.

(** X6.  [createRelationship] never throws and always emits
    [data.relationship.created], whether or not the relationship could be
    stored: with the cache store unreachable the store is left as it is and
    the event is emitted all the same.  With the store reachable the
    relationship is readable under its key, which does not carry the prefix
    of the hub: [clearCache()] leaves the entry in place. *)
Theorem createRelationship_always_emits (r : DataRelationship) (w : World) :
  let w' := snd (createRelationship r w) in
  fst (createRelationship r w) = Ok tt /\
  events w' = (events w ++ [RelationshipCreated (relationship_json r)])%list /\
  (Redis.online (redis w) = false -> redis w' = redis w) /\
  (Redis.online (redis w) = true ->
   fst (getFromCache (relationship_key r) w') = Ok (relationship_json r) /\
   fst (getFromCache (relationship_key r) (snd (clearCache None w')))
   = Ok (relationship_json r)).
Proof.
  cbv zeta. rewrite createRelationship_eq. simpl fst. simpl snd.
  split; [reflexivity|]. split; [|split].
  - simpl. now rewrite (setCache_keeps events) by easy_frame.
  - intros Hoff. simpl. now rewrite setCache_offline.
  - intros Hon.
    pose proof (read_after_write (relationship_key r) (relationship_json r) 86400 w
                  Hon ltac:(lia)) as Hget. cbv zeta in Hget.
    remember (snd (setCache (relationship_key r) (relationship_json r)
                     (JNum 86400) w)) as w1 eqn:Ew1.
    assert (Hon1 : Redis.online (redis w1) = true).
    { subst w1.
      now rewrite (setCache_stores (relationship_key r) (relationship_json r)
                     86400 w Hon ltac:(lia)). }
    clear Ew1.
    assert (Hread : fst (getFromCache (relationship_key r)
                           (push_event (RelationshipCreated (relationship_json r)) w1))
                    = Ok (relationship_json r)).
    { rewrite (getFromCache_redis _ w1) by reflexivity. now rewrite Hget. }
    split; [exact Hread|].
    destruct (cleared_default
                (push_event (RelationshipCreated (relationship_json r)) w1) Hon1)
      as (Hon2 & _ & Hkeep). cbv zeta in Hon2, Hkeep.
    rewrite <- Hread. apply getFromCache_get. unfold Redis.get.
    rewrite Hon2, (Hkeep (relationship_key r) (relationship_key_outside r)).
    simpl redis. now rewrite Hon1.
Qed.



End CacheFacts.

Module QueryFacts.
Import Hub HubFacts.

Local Arguments String.append : simpl nomatch.

Lemma entity_first_bytes (c : ascii) (e : string) (rest : list (string * json)) :
  escape_char c = String c "" ->
  String.substring 0 12 (stringify (JObj (("entity", JStr (String c e)) :: rest)))
  = String "{" (String dquote ("entity" +:+ String dquote (":" +:+ String dquote (String c "")))).
Proof.
  intros Hc.
  assert (E : exists tail,
             stringify (JObj (("entity", JStr (String c e)) :: rest))
             = String "{" (String dquote ("entity" +:+ String dquote
                 (":" +:+ String dquote (String c tail))))).
  { destruct rest as [|kv rest].
    - eexists. cbn. unfold member_text, quote. cbn. rewrite Hc. cbn. reflexivity.
    - eexists. cbn. unfold member_text at 1, quote. cbn. rewrite Hc. cbn. reflexivity. }
  destruct E as [tail ->]. cbn. destruct tail; reflexivity.
Qed.

(** X8.  The cache key of a request whose first property is [entity]
    depends on the kind of the key and on the first character of the entity
    name, on nothing else: not on the rest of the name, and not on any
    other property of the request.  The character is one that
    [JSON.stringify] copies unescaped (any letter). *)
Theorem cache_key_first_letter (type : string) (c : ascii) (e1 e2 : string)
    (rest1 rest2 : list (string * json)) :
  escape_char c = String c "" ->
  generateCacheKey type (JObj (("entity", JStr (String c e1)) :: rest1))
  = generateCacheKey type (JObj (("entity", JStr (String c e2)) :: rest2)).
Proof.
  intros Hc. apply cache_key_prefix. now rewrite !entity_first_bytes.
Qed.


Lemma cache_key_first_letter_witness :
  generateCacheKey "query"
    (JObj [("entity", JStr "Client"); ("limit", JNum 25); ("cache", JBool true)])
  = generateCacheKey "query" (JObj [("entity", JStr "Case")]).
Proof.
  apply (cache_key_first_letter "query" "C" "lient" "ase"
           [("limit", JNum 25); ("cache", JBool true)] []).
  reflexivity.
Defined.

(** A query that misses the cache: every way it can end. *)
Lemma query_miss_outcome (drv : Driver) (q : json) (w : World) :
  is_miss q w ->
  let entity := Js.to_string_opt (Js.prop "entity" q) in
  let start := miss_start q w in
  query drv q w =
  match getRepository (Js.prop "entity" q) with
  | None =>
      let e := Error ("Repository not found for entity: " +:+ entity) in
      (Throw e, push_log (query_failed e) start)
  | Some repository =>
      match build repository entity q with
      | Throw e => (Throw e, push_log (query_failed e) start)
      | Ok sq =>
          match getMany drv sq (db w) with
          | Throw e => (Throw e, push_log (query_failed e) (selected drv sq start))
          | Ok rows =>
              (Ok (JArr rows),
               accounted entity rows (clock w) (cached_rows q rows (selected drv sq start)))
          end
      end
  end.
Proof.
  intros Hm. cbv zeta. rewrite (query_miss drv q w Hm), execute_eq. cbv zeta.
  rewrite (miss_start_keeps db) by easy_frame.
  destruct (getRepository (Js.prop "entity" q)) as [repository|]; [|reflexivity].
  destruct (build repository _ q) as [sq|e]; [|reflexivity].
  destruct (getMany drv sq (db w)) as [rows|e]; reflexivity.
Qed.

Lemma selected_metrics (drv : Driver) (sq : SelectQuery) (w : World) :
  metrics (selected drv sq w) = metrics w.
Proof. reflexivity. Qed.

Lemma answered_metrics (drv : Driver) (q : json) (sq : SelectQuery)
    (rows : list json) (entity : string) (w : World) :
  let w' := accounted entity rows (clock w)
              (cached_rows q rows (selected drv sq (miss_start q w))) in
  queryCount (metrics w') = (queryCount (metrics w) + 1)%Z /\
  cacheHits (metrics w') = cacheHits (metrics w) /\
  cacheMisses (metrics w')
  = (if cache_enabled q then cacheMisses (metrics w) + 1 else cacheMisses (metrics w))%Z /\
  totalQueries (metrics w') = (totalQueries (metrics w) + 1)%Z.
Proof.
  cbv zeta. unfold accounted, updateQueryMetrics, modify. simpl.
  rewrite (cached_rows_keeps metrics) by easy_frame.
  rewrite selected_metrics, miss_start_metrics. simpl. repeat split.
Qed.

(** X9.  The counters after one call of [query], whatever the driver, the
    request and the state: queryCount grows by one.  When the cache is
    consulted, exactly one of cacheHits and cacheMisses grows by one; with
    [cache: false] neither moves.  totalQueries never decreases, grows by at
    most one, and stays when the call was a cache hit. *)
Theorem query_accounting (drv : Driver) (q : json) (w : World) :
  let m := metrics w in
  let m' := metrics (snd (query drv q w)) in
  queryCount m' = (queryCount m + 1)%Z /\
  (cache_enabled q = true ->
   (cacheHits m' = cacheHits m + 1 /\ cacheMisses m' = cacheMisses m /\
    totalQueries m' = totalQueries m)%Z \/
   (cacheHits m' = cacheHits m /\ cacheMisses m' = cacheMisses m + 1)%Z) /\
  (cache_enabled q = false ->
   cacheHits m' = cacheHits m /\ cacheMisses m' = cacheMisses m) /\
  (totalQueries m' = totalQueries m \/ totalQueries m' = totalQueries m + 1)%Z.
Proof.
  cbv zeta.
  destruct (query_cases drv q w) as [(v & Hc & Hv & Ht)|Hm].
  - rewrite (query_hit drv q w v Hc Hv Ht). simpl.
    split; [reflexivity|]. split; [intros _; left; repeat split|].
    split; [intros; congruence | now left].
  - rewrite (query_miss_outcome drv q w Hm). cbv zeta.
    pose proof (miss_start_metrics q w) as Hs.
    destruct (getRepository (Js.prop "entity" q)) as [repository|];
      [destruct (build repository _ q) as [sq|e];
       [destruct (getMany drv sq (db w)) as [rows|e]|]|];
      simpl snd.
    + destruct (answered_metrics drv q sq rows
                  (Js.to_string_opt (Js.prop "entity" q)) w) as (H1 & H2 & H3 & H4).
      cbv zeta in *. rewrite H1, H2, H3, H4.
      split; [reflexivity|]. split; [|split].
      * intros Hc. rewrite Hc. right. split; reflexivity.
      * intros Hc. rewrite Hc. split; reflexivity.
      * now right.
    + simpl metrics. rewrite ?selected_metrics, Hs. simpl.
      split; [reflexivity|]. split; [|split].
      * intros Hc. rewrite Hc. right. split; reflexivity.
      * intros Hc. rewrite Hc. split; reflexivity.
      * now left.
    + simpl metrics. rewrite Hs. simpl.
      split; [reflexivity|]. split; [|split].
      * intros Hc. rewrite Hc. right. split; reflexivity.
      * intros Hc. rewrite Hc. split; reflexivity.
      * now left.
    + simpl metrics. rewrite Hs. simpl.
      split; [reflexivity|]. split; [|split].
      * intros Hc. rewrite Hc. right. split; reflexivity.
      * intros Hc. rewrite Hc. split; reflexivity.
      * now left.
Qed.


(** X10.  A query for an entity the hub has no repository for, when the
    cache has nothing usable under its key, throws
    [Error("Repository not found for entity: <name>")] (the name is
    [undefined] when the request has none).  No call reaches the store, no
    event is emitted, the cache and the committed rows are untouched,
    totalQueries stays, and the failure is the last entry of the log. *)
Theorem query_unknown_entity (drv : Driver) (q : json) (w : World) :
  getRepository (Js.prop "entity" q) = None -> is_miss q w ->
  let e := Error ("Repository not found for entity: " +:+
                  Js.to_string_opt (Js.prop "entity" q)) in
  let w' := snd (query drv q w) in
  fst (query drv q w) = Throw e /\
  trace w' = trace w /\ events w' = events w /\
  redis w' = redis w /\ db w' = db w /\
  totalQueries (metrics w') = totalQueries (metrics w) /\
  exists l, logs w' = (l ++ [query_failed e])%list.
Proof.
  intros Hr Hm. cbv zeta. rewrite (query_miss_outcome drv q w Hm). cbv zeta.
  rewrite Hr. simpl fst. simpl snd. split; [reflexivity|]. simpl.
  rewrite (miss_start_keeps trace), (miss_start_keeps events),
    (miss_start_keeps redis), (miss_start_keeps db) by easy_frame.
  rewrite miss_start_metrics. simpl. repeat split. eauto.
Qed.

Lemma query_unknown_entity_witness :
  fst (query Memory.driver unknown_query (Memory.boot true Memory.sample))
  = Throw (Error "Repository not found for entity: Nope").
Proof.
  apply (query_unknown_entity Memory.driver unknown_query
           (Memory.boot true Memory.sample)).
  - reflexivity.
  - intros _ v. vm_compute. now intros [= <-].
Defined.

(** X11.  When the store fails on [getMany], [query] throws the store's error
    unchanged after that single store call.  Nothing is cached, no
    [data.accessed] event is emitted, totalQueries and avgQueryTime keep
    their values, and the failure is the last entry of the log. *)
Theorem query_store_failure (drv : Driver) (q : json) (w : World)
    (repository : Repository) (sq : SelectQuery) (e : error) :
  is_miss q w ->
  getRepository (Js.prop "entity" q) = Some repository ->
  build repository (Js.to_string_opt (Js.prop "entity" q)) q = Ok sq ->
  getMany drv sq (db w) = Throw e ->
  let w' := snd (query drv q w) in
  fst (query drv q w) = Throw e /\
  trace w' = (trace w ++ [CGetMany sq])%list /\
  events w' = events w /\ redis w' = redis w /\ db w' = db w /\
  totalQueries (metrics w') = totalQueries (metrics w) /\
  avgQueryTime (metrics w') = avgQueryTime (metrics w) /\
  exists l, logs w' = (l ++ [query_failed e])%list.
Proof.
  intros Hm Hr Hb Hg. cbv zeta. rewrite (query_miss_outcome drv q w Hm). cbv zeta.
  rewrite Hr, Hb, Hg. simpl fst. simpl snd. split; [reflexivity|]. simpl.
  rewrite (miss_start_keeps trace), (miss_start_keeps events),
    (miss_start_keeps redis), (miss_start_keeps db) by easy_frame.
  rewrite miss_start_metrics. simpl. repeat split. eauto.
Qed.

Lemma query_store_failure_witness :
  fst (query Memory.driver document_query (Memory.boot true Memory.sample))
  = Throw (StoreError "No metadata for Document was found.").
Proof.
  apply (query_store_failure Memory.driver document_query
           (Memory.boot true Memory.sample) {| target := "Document" |}
           {| sq_from := {| target := "Document" |}; sq_alias := "Document";
              sq_clauses := [] |}).
  - intros _ v. vm_compute. now intros [= <-].
  - reflexivity.
  - reflexivity.
  - reflexivity.
Defined.

Lemma where_clause_error (entity : string) (i : nat) (k : string) (v : json)
    (e : error) :
  where_clause entity i k v = Throw e ->
  e = TypeError "Cannot read properties of null (reading 'operator')".
Proof.
  unfold where_clause. destruct v; try discriminate.
  - now intros [= <-].
  - destruct (Js.truthy_opt _); discriminate.
Qed.

Lemma where_clauses_null (entity : string) (es : list (nat * (string * json)))
    (i : nat) (k : string) :
  In (i, (k, JNull)) es ->
  where_clauses entity es
  = Throw (TypeError "Cannot read properties of null (reading 'operator')").
Proof.
  induction es as [|[j [k' v]] es IH]; [contradiction|].
  intros [[= -> -> ->]|Hin]; simpl.
  - reflexivity.
  - destruct (where_clause entity j k' v) as [c|e] eqn:E.
    + now rewrite (IH Hin).
    + now rewrite (where_clause_error _ _ _ _ _ E).
Qed.

Lemma indexed_In {A} (x : A) (l : list A) (n : nat) :
  In x l -> exists i, In (i, x) (Js.indexed n l).
Proof.
  revert n. induction l as [|y l IH]; [contradiction|].
  intros n [->|Hin]; simpl.
  - eauto.
  - destruct (IH (S n) Hin) as [i Hi]. eauto.
Qed.

(** X12.  A filter whose value is [null] makes [query] throw the
    [TypeError] of reading [operator] on [null], whatever the other filters
    are.  The error arises while the query is built: no call reaches the
    store and no event is emitted. *)
Theorem query_null_filter (drv : Driver) (q : json) (w : World)
    (repository : Repository) (fs : list (string * json)) (k : string) :
  is_miss q w ->
  getRepository (Js.prop "entity" q) = Some repository ->
  (Js.prop "relations" q = None \/ exists l, Js.prop "relations" q = Some (JArr l)) ->
  Js.prop "filters" q = Some (JObj fs) -> In (k, JNull) fs ->
  let w' := snd (query drv q w) in
  fst (query drv q w)
  = Throw (TypeError "Cannot read properties of null (reading 'operator')") /\
  trace w' = trace w /\ events w' = events w /\ db w' = db w.
Proof.
  intros Hm Hr Hrel Hf Hin. cbv zeta.
  rewrite (query_miss_outcome drv q w Hm). cbv zeta. rewrite Hr.
  assert (Hb : build repository (Js.to_string_opt (Js.prop "entity" q)) q
               = Throw (TypeError "Cannot read properties of null (reading 'operator')")).
  { unfold build.
    assert (Hj : exists joins,
               join_clauses (Js.to_string_opt (Js.prop "entity" q))
                 (Js.prop "relations" q) = Ok joins).
    { destruct Hrel as [->|[l ->]]; simpl; eauto. }
    destruct Hj as [joins ->]. rewrite Hf. unfold filter_clauses. simpl Js.truthy.
    cbv iota. simpl Js.entries.
    destruct (indexed_In _ _ 0 Hin) as [i Hi].
    now rewrite (where_clauses_null _ _ _ _ Hi). }
  rewrite Hb. simpl.
  rewrite (miss_start_keeps trace), (miss_start_keeps events),
    (miss_start_keeps db) by easy_frame.
  repeat split.
Qed.

Lemma query_null_filter_witness :
  fst (query Memory.driver
         (JObj [("entity", JStr "Case");
                ("filters", JObj [("clientId", JStr "c1"); ("closedAt", JNull)])])
         (Memory.boot true Memory.sample))
  = Throw (TypeError "Cannot read properties of null (reading 'operator')").
Proof.
  apply (query_null_filter Memory.driver
           (JObj [("entity", JStr "Case");
                  ("filters", JObj [("clientId", JStr "c1"); ("closedAt", JNull)])])
           (Memory.boot true Memory.sample) {| target := "Case" |}
           [("clientId", JStr "c1"); ("closedAt", JNull)] "closedAt").
  - intros _ v. vm_compute. now intros [= <-].
  - reflexivity.
  - now left.
  - reflexivity.
  - right. now left.
Defined.


(** X13.  With [cache: false] the cache plays no part in [query]: the cache
    store is neither read nor written, cacheHits and cacheMisses keep their
    values, and whenever the request can be built the store is asked once
    and its answer, rows or error, is the outcome of the call. *)
Theorem query_bypasses_cache (drv : Driver) (q : json) (w : World) :
  cache_enabled q = false ->
  let w' := snd (query drv q w) in
  redis w' = redis w /\
  cacheHits (metrics w') = cacheHits (metrics w) /\
  cacheMisses (metrics w') = cacheMisses (metrics w) /\
  forall repository sq,
    getRepository (Js.prop "entity" q) = Some repository ->
    build repository (Js.to_string_opt (Js.prop "entity" q)) q = Ok sq ->
    trace w' = (trace w ++ [CGetMany sq])%list /\
    fst (query drv q w)
    = match getMany drv sq (db w) with
      | Ok rows => Ok (JArr rows)
      | Throw e => Throw e
      end.
Proof.
  intros Hc. cbv zeta.
  assert (Hm : is_miss q w) by (intros H; congruence).
  rewrite (query_miss_outcome drv q w Hm). cbv zeta.
  assert (Hs : miss_start q w = counted w) by (unfold miss_start; now rewrite Hc).
  rewrite Hs.
  assert (Hacc : forall entity rows sq,
             accounted entity rows (clock w) (cached_rows q rows (selected drv sq (counted w)))
             = accounted entity rows (clock w) (selected drv sq (counted w))).
  { intros. unfold cached_rows. now rewrite Hc. }
  split; [|split; [|split]].
  1-3: destruct (getRepository (Js.prop "entity" q)) as [repository|];
    [destruct (build repository _ q) as [sq|e];
     [destruct (getMany drv sq (db w)) as [rows|e]|]|];
    try rewrite Hacc; reflexivity.
  intros r s Hr Hb. rewrite Hr, Hb.
  destruct (getMany drv s (db w)) as [rows|e]; try rewrite Hacc; now split.
Qed.

Lemma query_bypasses_cache_witness :
  let q := JObj [("entity", JStr "Case"); ("cache", JBool false)] in
  redis (snd (query Memory.driver q (Memory.boot true Memory.sample)))
  = redis (Memory.boot true Memory.sample).
Proof.
  cbv zeta.
  apply (query_bypasses_cache Memory.driver
           (JObj [("entity", JStr "Case"); ("cache", JBool false)])
           (Memory.boot true Memory.sample)).
  reflexivity.
Defined.

Lemma answered_redis (drv : Driver) (q : json) (sq : SelectQuery)
    (rows : list json) (entity : string) (w : World) :
  let ws := selected drv sq (miss_start q w) in
  redis ws = redis w /\
  redis (accounted entity rows (clock w) (cached_rows q rows ws))
  = redis (cached_rows q rows ws) /\
  logs (accounted entity rows (clock w) (cached_rows q rows ws))
  = logs (cached_rows q rows ws).
Proof.
  cbv zeta. repeat split.
  unfold selected. simpl. now rewrite (miss_start_keeps redis) by easy_frame.
Qed.

(** X14.  The expiry of the entry that a query writes after it missed the
    cache and the store returned rows.  A positive [cacheTTL] is the expiry
    of the entry.  A [cacheTTL] of 0, like none, gives the default of 3600
    seconds.  With a negative [cacheTTL] the rows are returned but nothing
    is cached: the cache store is left as it was and the refusal is logged
    as a warning. *)
Theorem query_cache_expiry (drv : Driver) (q : json) (w : World)
    (repository : Repository) (sq : SelectQuery) (rows : list json) :
  cache_enabled q = true -> Redis.online (redis w) = true -> is_miss q w ->
  getRepository (Js.prop "entity" q) = Some repository ->
  build repository (Js.to_string_opt (Js.prop "entity" q)) q = Ok sq ->
  getMany drv sq (db w) = Ok rows ->
  let w' := snd (query drv q w) in
  let key := generateCacheKey "query" q in
  let text := stringify (JArr rows) in
  fst (query drv q w) = Ok (JArr rows) /\
  (forall n, Js.prop "cacheTTL" q = Some (JNum n) -> (0 < n)%Z ->
     Redis.entries (redis w') = <[key := (n, text)]> (Redis.entries (redis w))) /\
  (Js.prop "cacheTTL" q = None \/ Js.prop "cacheTTL" q = Some (JNum 0) ->
     Redis.entries (redis w')
     = <[key := (3600%Z, text)]> (Redis.entries (redis w))) /\
  (forall n, Js.prop "cacheTTL" q = Some (JNum n) -> (n < 0)%Z ->
     redis w' = redis w /\
     In (warned "Cache write failed"
           (ReplyError "ERR invalid expire time in 'setex' command")) (logs w')).
Proof.
  intros Hc Hon Hm Hr Hb Hg. cbv zeta.
  rewrite (query_miss_outcome drv q w Hm). cbv zeta. rewrite Hr, Hb, Hg.
  simpl fst. simpl snd. split; [reflexivity|].
  destruct (answered_redis drv q sq rows (Js.to_string_opt (Js.prop "entity" q)) w)
    as (Hws & Hacc & Hlog).
  cbv zeta in *. rewrite Hacc, Hlog. clear Hacc Hlog.
  remember (selected drv sq (miss_start q w)) as ws eqn:Ews. clear Ews.
  assert (Hon' : Redis.online (redis ws) = true) by now rewrite Hws.
  unfold cached_rows. rewrite Hc.
  split; [|split].
  - intros n Hp Hn. unfold cache_ttl. rewrite Hp. simpl Js.truthy.
    destruct (n =? 0)%Z eqn:E; [apply Z.eqb_eq in E; lia|]. simpl negb. cbv iota.
    rewrite (setCache_stores _ _ n ws Hon' Hn). simpl. now rewrite Hws.
  - intros Hp.
    assert (E : cache_ttl q = JNum 3600).
    { unfold cache_ttl. destruct Hp as [->| ->]; reflexivity. }
    rewrite E, (setCache_stores _ _ 3600 ws Hon' ltac:(lia)). simpl. now rewrite Hws.
  - intros n Hp Hn. unfold cache_ttl. rewrite Hp. simpl Js.truthy.
    destruct (n =? 0)%Z eqn:E; [apply Z.eqb_eq in E; lia|]. simpl negb. cbv iota.
    rewrite (CacheFacts.setCache_refused _ _ n ws Hon' ltac:(lia)). simpl.
    split; [assumption|].
    apply in_or_app. right. now left.
Qed.

Lemma query_cache_expiry_witness :
  let q := JObj [("entity", JStr "Case"); ("cacheTTL", JNum (-5))] in
  let w := Memory.boot true Memory.sample in
  fst (query Memory.driver q w) = Ok (JArr [Memory.case1]) /\
  redis (snd (query Memory.driver q w)) = redis w.
Proof.
  cbv zeta.
  destruct (query_cache_expiry Memory.driver
              (JObj [("entity", JStr "Case"); ("cacheTTL", JNum (-5))])
              (Memory.boot true Memory.sample) {| target := "Case" |}
              {| sq_from := {| target := "Case" |}; sq_alias := "Case";
                 sq_clauses := [] |} [Memory.case1])
    as (H1 & _ & _ & H4).
  - reflexivity.
  - reflexivity.
  - intros _ v. vm_compute. now intros [= <-].
  - reflexivity.
  - reflexivity.
  - reflexivity.
  - split; [exact H1|]. apply (H4 (-5)%Z); [reflexivity | lia].
Defined.

(** X15.  Two requests with the same cache key share one entry.  When a
    query with caching on returned a result, with the cache store reachable
    and a positive expiry, any request with the same key and caching on,
    issued next, is answered with that result without a call to the store,
    whatever entity, filters or page the second request names. *)
Theorem query_shares_entry (drv : Driver) (q1 q2 : json) (w w1 : World)
    (r : json) (n : Z) :
  generateCacheKey "query" q1 = generateCacheKey "query" q2 ->
  cache_enabled q1 = true -> cache_enabled q2 = true ->
  Redis.online (redis w) = true ->
  cache_ttl q1 = JNum n -> (0 < n)%Z ->
  query drv q1 w = (Ok r, w1) ->
  fst (query drv q2 w1) = Ok r /\
  trace (snd (query drv q2 w1)) = trace w1 /\
  cacheHits (metrics (snd (query drv q2 w1))) = (cacheHits (metrics w1) + 1)%Z.
Proof.
  intros Hk Hc1 Hc2 Hon Httl Hn H1.
  assert (Hhit : fst (getFromCache (generateCacheKey "query" q1) w1) = Ok r /\
                 Js.truthy r = true).
  { destruct (query_cases drv q1 w) as [(v & _ & Hv & Ht)|Hm].
    - rewrite (query_hit drv q1 w v Hc1 Hv Ht) in H1.
      injection H1 as <- <-. split; [|assumption].
      rewrite <- Hv. now apply getFromCache_redis.
    - rewrite (query_miss drv q1 w Hm), execute_eq in H1. cbv zeta in H1.
      destruct (getRepository (Js.prop "entity" q1)) as [repository|];
        [|discriminate H1].
      destruct (build repository _ q1) as [sq|e]; [|discriminate H1].
      destruct (getMany drv sq (db (miss_start q1 w))) as [rows|e];
        [|discriminate H1].
      injection H1 as <- <-. split; [|reflexivity].
      now apply (answered_cache drv q1 sq rows w n). }
  destruct Hhit as [Hv Ht]. rewrite Hk in Hv.
  rewrite (query_hit drv q2 w1 r Hc2 Hv Ht). simpl. repeat split.
Qed.


(** [query] only reads the committed rows. *)
Lemma query_keeps_db (drv : Driver) (q : json) (w : World) :
  db (snd (query drv q w)) = db w.
Proof.
  destruct (query_cases drv q w) as [(v & Hc & Hv & Ht)|Hm].
  - now rewrite (query_hit drv q w v Hc Hv Ht).
  - rewrite (query_miss_outcome drv q w Hm). cbv zeta.
    destruct (getRepository (Js.prop "entity" q)) as [repository|];
      [destruct (build repository _ q) as [sq|e];
       [destruct (getMany drv sq (db w)) as [rows|e]|]|];
      simpl; rewrite ?(cached_rows_keeps db) by easy_frame;
      try (unfold selected; simpl);
      now rewrite (miss_start_keeps db) by easy_frame.
Qed.

Lemma query_shares_entry_witness :
  let clients := JObj [("entity", JStr "Client"); ("limit", JNum 25)] in
  let cases := JObj [("entity", JStr "Case"); ("limit", JNum 25)] in
  let client1 := JObj [("id", JStr "c1"); ("name", JStr "Acme")] in
  let w := Memory.boot true {["Client" := [client1]; "Case" := [Memory.case1]]} in
  fst (query Memory.driver cases (snd (query Memory.driver clients w)))
  = Ok (JArr [client1]).
Proof.
  cbv zeta.
  apply (query_shares_entry Memory.driver
           (JObj [("entity", JStr "Client"); ("limit", JNum 25)])
           (JObj [("entity", JStr "Case"); ("limit", JNum 25)])
           (Memory.boot true
              {["Client" := [JObj [("id", JStr "c1"); ("name", JStr "Acme")]];
                "Case" := [Memory.case1]]})
           _ _ 3600);
    [reflexivity | reflexivity | reflexivity | reflexivity | reflexivity | lia |].
  vm_compute. reflexivity.
Defined.

Lemma show_nat_inj (a b : nat) : Js.show_nat a = Js.show_nat b -> a = b.
Proof.
  unfold Js.show_nat. intros H.
  pose proof (JsonFacts.parse_number_show_Z (Z.of_nat a) "" I) as Ha.
  pose proof (JsonFacts.parse_number_show_Z (Z.of_nat b) "" I) as Hb.
  rewrite H, Hb in Ha. injection Ha as Ha. lia.
Qed.

Lemma where_clause_parameter (entity : string) (i : nat) (k : string) (v : json)
    (c : Clause) :
  where_clause entity i k v = Ok c ->
  parameter c = Some ("param_" +:+ Js.show_nat i).
Proof.
  unfold where_clause. cbv zeta. destruct v; try (intros [= <-]; reflexivity).
  destruct (Js.truthy_opt _); intros [= <-]; reflexivity.
Qed.

Lemma where_clauses_parameters (entity : string)
    (es : list (nat * (string * json))) (cs : list Clause) :
  where_clauses entity es = Ok cs ->
  map parameter cs
  = map (fun ie => Some ("param_" +:+ Js.show_nat (fst ie))) es.
Proof.
  revert cs. induction es as [|[i [k v]] es IH]; intros cs; simpl.
  - now intros [= <-].
  - destruct (where_clause entity i k v) as [c|e] eqn:E; [|discriminate].
    destruct (where_clauses entity es) as [cs'|e]; [|discriminate].
    intros [= <-]. simpl.
    now rewrite (where_clause_parameter _ _ _ _ _ E), (IH cs' eq_refl).
Qed.

Lemma indexed_fst {A} (n : nat) (l : list A) :
  map fst (Js.indexed n l) = seq n (length l).
Proof.
  revert n. induction l as [|x l IH]; intros n; simpl;
    [reflexivity | now rewrite IH].
Qed.

(** X16.  The conditions [query] builds from the filters: one per filter, in
    the order of the filters, the condition of the filter at position [i]
    binding the parameter [param_i].  No two conditions of one query bind
    the same parameter. *)
Theorem filter_parameters_distinct (entity : string) (filters : json)
    (cs : list Clause) :
  filter_clauses entity (Some filters) = Ok cs ->
  length cs = length (Js.entries filters) /\
  (forall i c, cs !! i = Some c ->
               parameter c = Some ("param_" +:+ Js.show_nat i)) /\
  NoDup (map parameter cs).
Proof.
  unfold filter_clauses. intros H.
  assert (Hp : map parameter cs
               = map (fun i => Some ("param_" +:+ Js.show_nat i))
                   (seq 0 (length (Js.entries filters)))).
  { destruct (Js.truthy filters) eqn:Ht.
    - rewrite (where_clauses_parameters _ _ _ H).
      rewrite <- indexed_fst, map_map. reflexivity.
    - injection H as <-.
      destruct filters as [| [] | n | s | l | l]; try discriminate; try reflexivity.
      simpl in Ht. apply negb_false_iff, String.eqb_eq in Ht. now subst s. }
  assert (Hlen : length cs = length (Js.entries filters)).
  { rewrite <- (length_map parameter cs), Hp, length_map. apply length_seq. }
  split; [exact Hlen|]. split.
  - intros i c Hi.
    assert (Hx : map parameter cs !! i = Some (parameter c)).
    { change (map parameter cs) with (parameter <$> cs).
      now rewrite list_lookup_fmap, Hi. }
    rewrite Hp in Hx.
    change (map ?f ?l) with (f <$> l) in Hx. rewrite list_lookup_fmap in Hx.
    destruct (seq 0 (length (Js.entries filters)) !! i) as [j|] eqn:Hj;
      [|discriminate].
    apply lookup_seq in Hj as [-> _]. simpl in Hx. now injection Hx.
  - rewrite Hp. change (map ?f ?l) with (f <$> l).
    apply NoDup_fmap_2; [|apply NoDup_seq].
    intros a b [= E]. now apply show_nat_inj.
Qed.

Lemma filter_parameters_distinct_witness :
  NoDup (map parameter
           [AndWhere "Case.clientId = :param_0" "param_0" (Some (JStr "c1"));
            AndWhere "Case.status IN (:...param_1)" "param_1"
              (Some (JArr [JStr "OPEN"; JStr "STAYED"]))]).
Proof.
  apply (filter_parameters_distinct "Case"
           (JObj [("clientId", JStr "c1");
                  ("status", JArr [JStr "OPEN"; JStr "STAYED"])])).
  reflexivity.
Defined.

End QueryFacts.

Module MetricsFacts.
Import Hub HubFacts.

(** One recorded time.  With the average so far between two integer
    bounds that also hold for the new time, the three roundings of
    [updateQueryMetrics] (product, sum, quotient) each stay between
    integers below 2^53, so the new average is between the bounds too. *)
Lemma average_step (t lo hi : Z) (w : World) (a : Q) :
  avgQueryTime (metrics w) = Fin a ->
  (0 <= totalQueries (metrics w))%Z ->
  totalQueries (metrics w) = 0%Z \/ (inject_Z lo <= a /\ a <= inject_Z hi)%Q ->
  (0 <= lo)%Z -> (lo <= t <= hi)%Z ->
  ((totalQueries (metrics w) + 1) * Z.max 1 hi < 2 ^ 53)%Z ->
  let m' := metrics (snd (updateQueryMetrics t w)) in
  totalQueries m' = (totalQueries (metrics w) + 1)%Z /\
  exists a', avgQueryTime m' = Fin a' /\
             (inject_Z lo <= a' /\ a' <= inject_Z hi)%Q.
Proof.
  intros Ha Hk Hinv Hlo Ht Hsafe. cbv zeta.
  unfold updateQueryMetrics, modify. simpl.
  split; [reflexivity|]. rewrite Ha.
  set (k := totalQueries (metrics w)) in *.
  replace (k + 1 - 1)%Z with k by lia.
  assert (Hk53 : (k + 1 < 2 ^ 53)%Z) by nia.
  assert (Hhi53 : (hi * (k + 1) < 2 ^ 53)%Z) by nia.
  rewrite (NumFacts.of_Z_exact k), (NumFacts.of_Z_exact t),
    (NumFacts.of_Z_exact (k + 1)) by nia.
  assert (Qk : (0 <= inject_Z k)%Q).
  { change 0%Q with (inject_Z 0). now rewrite <- Zle_Qle. }
  assert (Qlo : (0 <= inject_Z lo)%Q).
  { change 0%Q with (inject_Z 0). now rewrite <- Zle_Qle. }
  assert (Qt : (inject_Z lo <= inject_Z t /\ inject_Z t <= inject_Z hi)%Q).
  { rewrite <- !Zle_Qle. lia. }
  (* the product *)
  destruct (NumFacts.round64_between (a * inject_Z k) (lo * k) (hi * k))
    as (p & Hp & Hp1 & Hp2).
  { nia. } { nia. }
  { rewrite inject_Z_mult. destruct Hinv as [E|[H1 H2]].
    - rewrite E. change (inject_Z 0) with 0%Q. lra.
    - nra. }
  { rewrite inject_Z_mult. destruct Hinv as [E|[H1 H2]].
    - rewrite E. change (inject_Z 0) with 0%Q. lra.
    - nra. }
  unfold Num.mul. rewrite Hp.
  (* the sum *)
  rewrite inject_Z_mult in Hp1, Hp2.
  destruct (NumFacts.round64_between (p + inject_Z t) (lo * (k + 1)) (hi * (k + 1)))
    as (s & Hs & Hs1 & Hs2).
  { nia. } { nia. }
  { rewrite inject_Z_mult, inject_Z_plus. change (inject_Z 1) with 1%Q. lra. }
  { rewrite inject_Z_mult, inject_Z_plus. change (inject_Z 1) with 1%Q. lra. }
  unfold Num.add. rewrite Hs.
  (* the quotient *)
  rewrite inject_Z_mult, inject_Z_plus in Hs1, Hs2.
  change (inject_Z 1) with 1%Q in Hs1, Hs2.
  unfold Num.div. rewrite (NumFacts.sign_of_pos (k + 1)) by lia.
  rewrite inject_Z_plus. change (inject_Z 1) with 1%Q.
  set (n := (inject_Z k + 1)%Q) in *.
  assert (Hn : (0 < n)%Q) by (unfold n; lra).
  assert (Hy : (s / n * n == s)%Q) by (field; lra).
  destruct (NumFacts.round64_between (s / n) lo hi) as (a' & Ha' & H1 & H2).
  { exact Hlo. } { nia. }
  { set (y := (s / n)%Q) in *. nra. }
  { set (y := (s / n)%Q) in *. nra. }
  exists a'. split; [exact Ha'|]. now split.
Qed.

(** X17.  [updateQueryMetrics] keeps the average within the range of the
    recorded times, rounding included.  Starting from the counters of a
    fresh hub, after the query times [ts], all between the integers [lo]
    and [hi], were recorded one by one, totalQueries is their number and
    avgQueryTime is a finite number between [lo] and [hi]; in particular a
    constant latency is reported exactly.  Nothing is divided by zero on
    the way.  (The times are elapsed milliseconds, not negative, and their
    sum stays below 2^53.) *)
Theorem average_within_range (ts : list Z) (lo hi : Z) (w : World) :
  totalQueries (metrics w) = 0%Z -> avgQueryTime (metrics w) = of_Z 0 ->
  ts <> [] -> Forall (fun t => (lo <= t <= hi)%Z) ts -> (0 <= lo)%Z ->
  (Z.of_nat (length ts) * Z.max 1 hi < 2 ^ 53)%Z ->
  let w' := fold_left (fun w t => snd (updateQueryMetrics t w)) ts w in
  totalQueries (metrics w') = Z.of_nat (length ts) /\
  exists a, avgQueryTime (metrics w') = Fin a /\
            (inject_Z lo <= a /\ a <= inject_Z hi)%Q.
Proof.
  intros H0 Ha Hne Hts Hlo Hsafe. cbv zeta.
  assert (G : forall ts w a,
             avgQueryTime (metrics w) = Fin a ->
             (0 <= totalQueries (metrics w))%Z ->
             totalQueries (metrics w) = 0%Z \/
               (inject_Z lo <= a /\ a <= inject_Z hi)%Q ->
             Forall (fun t => (lo <= t <= hi)%Z) ts ->
             ((totalQueries (metrics w) + Z.of_nat (length ts)) * Z.max 1 hi
              < 2 ^ 53)%Z ->
             let w' := fold_left (fun w t => snd (updateQueryMetrics t w)) ts w in
             totalQueries (metrics w')
             = (totalQueries (metrics w) + Z.of_nat (length ts))%Z /\
             exists a', avgQueryTime (metrics w') = Fin a' /\
                        (totalQueries (metrics w') = 0%Z \/
                         (inject_Z lo <= a' /\ a' <= inject_Z hi)%Q)).
  { clear - Hlo. induction ts as [|t ts IH]; intros w a Ha Hk Hinv Hts Hsafe;
      cbv zeta.
    - simpl. split; [lia|]. exists a. now split.
    - inversion Hts as [|? ? Ht Hts']; subst.
      simpl length in Hsafe. rewrite Nat2Z.inj_succ in Hsafe.
      destruct (average_step t lo hi w a Ha Hk Hinv Hlo Ht ltac:(nia))
        as (Hn & a1 & Ha1 & Hb1). cbv zeta in Hn, Ha1.
      destruct (IH (snd (updateQueryMetrics t w)) a1 Ha1
                  ltac:(rewrite Hn; lia) (or_intror Hb1) Hts'
                  ltac:(rewrite Hn; nia)) as (Hlen & a2 & Ha2 & Hb2).
      cbv zeta in Hlen, Ha2, Hb2.
      change (fold_left ?f (t :: ts) w) with (fold_left f ts (f w t)). cbv beta.
      split.
      + rewrite Hlen, Hn. simpl length. lia.
      + exists a2. now split. }
  destruct (G ts w 0%Q Ha ltac:(rewrite H0; lia) (or_introl H0) Hts
              ltac:(rewrite H0; lia)) as (Hlen & a & Ha' & Hb).
  cbv zeta in Hlen, Ha', Hb. rewrite H0, Z.add_0_l in Hlen.
  split; [exact Hlen|]. exists a. split; [exact Ha'|].
  destruct Hb as [E|Hb]; [|exact Hb].
  rewrite Hlen in E. destruct ts; [contradiction | discriminate].
Qed.

Lemma average_within_range_witness :
  let w := fold_left (fun w t => snd (updateQueryMetrics t w)) [1; 1; 2]%Z
             (Memory.boot true Memory.sample) in
  totalQueries (metrics w) = 3%Z /\
  exists a, avgQueryTime (metrics w) = Fin a /\
            (inject_Z 1 <= a /\ a <= inject_Z 2)%Q.
Proof.
  cbv zeta.
  apply (average_within_range [1; 1; 2]%Z 1 2 (Memory.boot true Memory.sample));
    try reflexivity; try discriminate; try lia.
  repeat constructor; lia.
Defined.

(** The average is a double, not the exact mean: after the times 1, 1 and
    2 it is 1.3333333333333333, whose triple is not 4. *)
Lemma average_carries_rounding :
  let w := fold_left (fun w t => snd (updateQueryMetrics t w)) [1; 1; 2]%Z
             (Memory.boot true Memory.sample) in
  avgQueryTime (metrics w) = Fin (6004799503160661 # 4503599627370496) /\
  ~ ((6004799503160661 # 4503599627370496) * 3 == 4)%Q.
Proof. split; [vm_compute; reflexivity | discriminate]. Qed.

End MetricsFacts.

Module MutateFacts.
Import Hub HubFacts.

Lemma bind_ok_inv {A B} (m : M A) (k : A -> M B) (w w' : World) (b : B) :
  bind m k w = (Ok b, w') ->
  exists a w1, m w = (Ok a, w1) /\ k a w1 = (Ok b, w').
Proof.
  unfold bind. destruct (m w) as [[a|e] w1]; [eauto | discriminate].
Qed.

(** X18.  A failure before the [try] block of [mutate].  When the connection
    fails, [mutate] throws that error after the single call [connect]; when
    the transaction cannot be started, it throws that error after [connect]
    and [startTransaction].  In both cases neither [rollbackTransaction] nor
    [release] is called on the query runner, nothing is logged, and the
    committed rows, the cache and the events are untouched. *)
Theorem mutate_fails_to_start (drv : Driver) (m : DataMutation) (w : World)
    (e : error) :
  let w' := snd (mutate drv m w) in
  (connect drv (db w) = Some e ->
   fst (mutate drv m w) = Throw e /\
   trace w' = (trace w ++ [CConnect])%list /\
   db w' = db w /\ redis w' = redis w /\ events w' = events w /\ logs w' = logs w) /\
  (connect drv (db w) = None -> startTransaction drv (db w) = Some e ->
   fst (mutate drv m w) = Throw e /\
   trace w' = (trace w ++ [CConnect; CStartTransaction])%list /\
   db w' = db w /\ redis w' = redis w /\ events w' = events w /\ logs w' = logs w).
Proof.
  cbv zeta. split.
  - intros Hc.
    assert (E : mutate drv m w = (Throw e, push_call CConnect (set_tx None w))).
    { unfold mutate, bind, createQueryRunner, modify, runner_call.
      simpl. now rewrite Hc. }
    rewrite E. simpl. repeat split.
  - intros Hc Hs.
    assert (E : mutate drv m w
                = (Throw e, push_call CStartTransaction
                              (push_call CConnect (set_tx None w)))).
    { unfold mutate, bind at 1 2 3, createQueryRunner, modify, runner_call, begin.
      simpl. rewrite Hc. simpl. now rewrite Hs. }
    rewrite E. simpl. rewrite <- List.app_assoc. repeat split.
Qed.

(** What the world keeps through the calls of a transaction. *)
Lemma runner_call_keeps {X} (f : World -> X) (c : Call) (g : DB -> option error) :
  (forall c w, f (push_call c w) = f w) ->
  respects (keeps f) (runner_call c g).
Proof.
  intros Hc w. unfold runner_call, keeps. destruct (g _); simpl; apply Hc.
Qed.

Lemma repository_call_keeps {X A} (f : World -> X) (c : Call)
    (g : DB -> result (A * DB)) :
  (forall c w, f (push_call c w) = f w) ->
  (forall t w, f (set_tx t w) = f w) ->
  (forall d w, f (set_db d w) = f w) ->
  respects (keeps f) (repository_call c g).
Proof.
  intros Hc Ht Hd w. unfold repository_call, keeps.
  destruct (tx w) as [d|].
  - destruct (g d) as [[a d']|e]; simpl; now rewrite ?Ht, Hc.
  - destruct (g (db w)) as [[a d']|e]; simpl; now rewrite ?Hd, Hc.
Qed.

Lemma commit_keeps {X} (f : World -> X) (drv : Driver) :
  (forall c w, f (push_call c w) = f w) ->
  (forall t w, f (set_tx t w) = f w) ->
  (forall d w, f (set_db d w) = f w) ->
  respects (keeps f) (commit drv).
Proof.
  intros Hc Ht Hd w. unfold commit, keeps.
  destruct (tx w) as [d|]; [destruct (commitTransaction drv d)|]; simpl;
    now rewrite ?Ht, ?Hd, Hc.
Qed.

Lemma body_keeps {X} (f : World -> X) (drv : Driver) (m : DataMutation) :
  (forall c w, f (push_call c w) = f w) ->
  (forall t w, f (set_tx t w) = f w) ->
  (forall d w, f (set_db d w) = f w) ->
  respects (keeps f) (transactional_body drv m).
Proof.
  intros Hc Ht Hd. unfold transactional_body, dispatch, validateEntityRelations.
  repeat first [ apply runner_call_keeps; assumption
               | apply repository_call_keeps; assumption
               | apply commit_keeps; assumption
               | frame_step ].
Qed.

Lemma commit_ok (drv : Driver) (w w' : World) :
  commit drv w = (Ok tt, w') ->
  exists d, tx w = Some d /\ commitTransaction drv d = None /\
            w' = set_tx None (set_db d (push_call CCommit w)).
Proof.
  unfold commit. destruct (tx w) as [d|]; [|discriminate].
  destruct (commitTransaction drv d) eqn:E; [discriminate|].
  intros [= <-]. eauto.
Qed.

(** A body that ran to its end committed the working copy. *)
Lemma body_ok (drv : Driver) (m : DataMutation) (w w1 : World) (r : json) :
  transactional_body drv m w = (Ok r, w1) ->
  exists w2 d,
    within_tx w w2 /\ tx w2 = Some d /\ commitTransaction drv d = None /\
    w1 = set_tx None (set_db d (push_call CCommit w2)).
Proof.
  unfold transactional_body. intros H.
  apply bind_ok_inv in H as (a1 & wa & H1 & H).
  assert (R1 : within_tx w wa).
  { eapply respects_at; [apply runner_call_within | exact H1]. }
  apply bind_ok_inv in H as (a2 & wb & H2 & H).
  assert (R2 : wb = wa).
  { destruct (m_validateRelations m); now injection H2. }
  subst wb.
  apply bind_ok_inv in H as (a3 & wc & H3 & H).
  assert (R3 : within_tx wa wc).
  { eapply respects_at; [apply dispatch_within | exact H3]. }
  apply bind_ok_inv in H as ([] & wd & H4 & H).
  injection H as <- <-.
  apply commit_ok in H4 as (d & Htx & Hcm & ->).
  exists wc, d. split; [etransitivity; eassumption|].
  split; [assumption|]. split; [assumption | reflexivity].
Qed.


Lemma member_of_value (k : string) (v : json) :
  v <> JNull -> member k v = Ok (Js.prop k v).
Proof. destruct v; [congruence | reflexivity..]. Qed.

(** The invalidation, with the cache store reachable. *)
Lemma invalidate_online (entity : string) (id : option json) (w : World) :
  Redis.online (redis w) = true ->
  exists w',
    invalidateEntityCache entity id w = (Ok tt, w') /\
    Redis.online (redis w') = true /\
    (forall k, Redis.entries (redis w') !! k
               = if Glob.glob (invalidation_pattern entity id) k then None
                 else Redis.entries (redis w) !! k) /\
    db w' = db w /\ tx w' = tx w /\ trace w' = trace w /\ logs w' = logs w /\
    events w' = events w /\ clock w' = clock w /\ metrics w' = metrics w.
Proof.
  intros Hon. unfold invalidateEntityCache, bind, redis_ask, redis_run, Redis.keys.
  rewrite Hon.
  pose proof (fun k => CacheFacts.purged (invalidation_pattern entity id) w k Hon) as Hk.
  cbv zeta in Hk.
  destruct (List.filter _ _) as [|k0 ks] eqn:E.
  - exists w. repeat split; try assumption.
    intros k. destruct (Glob.glob _ k) eqn:Hg; [|reflexivity].
    destruct (Redis.entries (redis w) !! k) eqn:Hl; [|reflexivity].
    exfalso. assert (Hx : k ∈ @nil string); [|inversion Hx].
    rewrite <- E. apply CacheFacts.keys_spec. eauto.
  - eexists. split.
    + destruct (Redis.del (k0 :: ks) (redis w)) as [x s0] eqn:Ed.
      unfold Redis.del in Ed. rewrite Hon in Ed. injection Ed as <- <-.
      reflexivity.
    + simpl. repeat split. intros k. specialize (Hk k).
      unfold Redis.del in Hk. rewrite Hon in Hk. exact Hk.
Qed.

Lemma after_commit_ok (m : DataMutation) (r : json) (w1 : World) :
  Redis.online (redis w1) = true -> m_data m <> JNull ->
  exists w2,
    after_commit m r w1 = (Ok r, w2) /\
    (forall k, Redis.entries (redis w2) !! k
               = if Glob.glob (invalidation_pattern (m_entity m)
                                 (Js.prop "id" (m_data m))) k
                 then None else Redis.entries (redis w1) !! k) /\
    db w2 = db w1 /\ tx w2 = tx w1 /\ trace w2 = trace w1 /\ logs w2 = logs w1 /\
    events w2 = (events w1 ++ [DataMutated (m_entity m) (m_operation m) (m_data m)
                                 r (clock w1)])%list.
Proof.
  intros Hon Hd.
  destruct (invalidate_online (m_entity m) (Js.prop "id" (m_data m)) w1 Hon)
    as (w' & Hi & _ & Hk & Hdb & Htx & Htr & Hlg & Hev & Hcl & _).
  exists (push_event (DataMutated (m_entity m) (m_operation m) (m_data m) r (clock w'))
            w').
  split.
  - unfold after_commit. unfold bind at 1. unfold lift.
    rewrite (member_of_value "id" (m_data m) Hd).
    unfold bind at 1. rewrite Hi.
    unfold createAuditEntry, syncRealTimeData, enableRealTimeSync.
    destruct (m_auditTrail m); reflexivity.
  - simpl. rewrite Hcl, Hev. repeat split; assumption.
Qed.

Lemma after_commit_fails (m : DataMutation) (r : json) (w1 : World) :
  Redis.online (redis w1) = false \/ m_data m = JNull ->
  exists e, after_commit m r w1 = (Throw e, w1).
Proof.
  intros H. unfold after_commit. unfold bind at 1. unfold lift.
  destruct (m_data m) eqn:Ed; try (simpl; eauto; fail).
  all: destruct H as [Hoff|]; [|discriminate].
  all: simpl member; cbv iota; unfold bind at 1;
    unfold invalidateEntityCache, bind, redis_ask, Redis.keys;
    rewrite Hoff; eauto.
Qed.

Lemma started_fields (w : World) :
  trace (started w) = (trace w ++ [CConnect; CStartTransaction])%list /\
  redis (started w) = redis w /\ events (started w) = events w /\
  logs (started w) = logs w /\ clock (started w) = clock w /\
  tx (started w) = Some (db w).
Proof. unfold started. simpl. rewrite <- List.app_assoc. repeat split. Qed.

(** The world in which a body that ran to its end leaves the hub. *)
Lemma committed_fields (drv : Driver) (m : DataMutation) (w w1 : World) (r : json) :
  transactional_body drv m (started w) = (Ok r, w1) ->
  redis w1 = redis w /\ events w1 = events w /\ logs w1 = logs w /\
  clock w1 = clock w /\ tx w1 = None /\
  exists calls,
    trace w1 = (trace w ++ [CConnect; CStartTransaction] ++ calls ++ [CCommit])%list.
Proof.
  intros Hb.
  destruct (started_fields w) as (Ht & Hr & He & Hl & Hc & _).
  pose proof (respects_at _ _ _ _ _ (body_keeps redis drv m ltac:(easy_frame)
                ltac:(easy_frame) ltac:(easy_frame)) Hb) as Kr.
  pose proof (respects_at _ _ _ _ _ (body_keeps events drv m ltac:(easy_frame)
                ltac:(easy_frame) ltac:(easy_frame)) Hb) as Ke.
  pose proof (respects_at _ _ _ _ _ (body_keeps logs drv m ltac:(easy_frame)
                ltac:(easy_frame) ltac:(easy_frame)) Hb) as Kl.
  pose proof (respects_at _ _ _ _ _ (body_keeps clock drv m ltac:(easy_frame)
                ltac:(easy_frame) ltac:(easy_frame)) Hb) as Kc.
  unfold keeps in *.
  destruct (body_ok drv m _ _ _ Hb) as (w2 & d & Hw & Htx & _ & ->).
  destruct Hw as (_ & _ & _ & _ & calls & Hcalls).
  simpl in *. repeat split; try congruence.
  exists calls. rewrite Hcalls, Ht. now rewrite <- !List.app_assoc.
Qed.

(** X19.  The success path of [mutate].  When the connection, the
    transaction and the transactional body (the repository lookup, the store
    calls of the operation, the commit) succeed, with the cache store
    reachable and a payload that is not [null]: [mutate] returns the result
    of the operation; the committed rows are those the body committed and no
    transaction is left open; the store calls are connect, start, the calls
    of the body ending with the commit, then release, with no rollback;
    exactly one [data.mutated] event is emitted, carrying the entity, the
    operation, the payload and the result; nothing is logged; and the cache
    entries whose key matches the invalidation pattern are removed, the
    others kept. *)
Theorem mutate_commits (drv : Driver) (m : DataMutation) (w w1 : World) (r : json) :
  connect drv (db w) = None -> startTransaction drv (db w) = None ->
  transactional_body drv m (started w) = (Ok r, w1) ->
  Redis.online (redis w) = true -> m_data m <> JNull ->
  let w' := snd (mutate drv m w) in
  let pattern := invalidation_pattern (m_entity m) (Js.prop "id" (m_data m)) in
  fst (mutate drv m w) = Ok r /\
  db w' = db w1 /\ tx w' = None /\
  (exists calls,
     trace w' = (trace w ++ [CConnect; CStartTransaction] ++ calls ++
                 [CCommit; CRelease])%list) /\
  events w' = (events w ++ [DataMutated (m_entity m) (m_operation m) (m_data m)
                              r (clock w)])%list /\
  logs w' = logs w /\
  (forall k, Redis.entries (redis w') !! k
             = if Glob.glob pattern k then None else Redis.entries (redis w) !! k).
Proof.
  intros Hc Hs Hb Hon Hd. cbv zeta.
  destruct (committed_fields drv m w w1 r Hb) as (Kr & Ke & Kl & Kc & Kt & calls & Ktr).
  destruct (after_commit_ok m r w1 ltac:(now rewrite Kr) Hd)
    as (w2 & Ha & Hk & Hdb & Htx & Htr & Hlg & Hev).
  assert (E : mutate drv m w = (Ok r, push_call CRelease w2)).
  { rewrite (mutate_started drv m w Hc Hs). unfold finally, catch.
    change ((result <- transactional_body drv m ;; after_commit m result) (started w))
      with (match transactional_body drv m (started w) with
            | (Ok a, w') => after_commit m a w'
            | (Throw e, w') => (@Throw json e, w')
            end).
    rewrite Hb, Ha. reflexivity. }
  rewrite E. simpl. split; [reflexivity|]. split; [assumption|].
  split; [congruence|]. split.
  - exists calls. rewrite Htr, Ktr. rewrite <- !List.app_assoc. reflexivity.
  - rewrite Hev, Ke, Kc, Hlg, Kl. repeat split.
    intros k. rewrite Hk. now rewrite Kr.
Qed.

Lemma mutate_commits_witness :
  let w := Memory.boot true Memory.sample in
  fst (mutate Memory.driver retitle w)
  = Ok (JObj [("id", JStr "k1"); ("clientId", JStr "c1");
              ("title", JStr "Matter A, amended")]) /\
  db (snd (mutate Memory.driver retitle w))
  = {["Case" := [JObj [("id", JStr "k1"); ("clientId", JStr "c1");
                       ("title", JStr "Matter A, amended")]]]}.
Proof.
  cbv zeta.
  destruct (mutate_commits Memory.driver retitle (Memory.boot true Memory.sample)
              (snd (transactional_body Memory.driver retitle
                      (started (Memory.boot true Memory.sample))))
              (JObj [("id", JStr "k1"); ("clientId", JStr "c1");
                     ("title", JStr "Matter A, amended")]))
    as (H1 & H2 & _).
  - reflexivity.
  - reflexivity.
  - vm_compute. reflexivity.
  - reflexivity.
  - discriminate.
  - split; [exact H1|]. rewrite H2. vm_compute. reflexivity.
Defined.

(** X20.  An error raised after the commit is masked and the data stays
    committed.  When the transactional body of [mutate] ran to its end and
    the step that follows the commit fails, because the cache store is
    unreachable or because the payload is [null], the [catch] block asks for
    a rollback of a transaction that is no longer open: [mutate] throws
    [TransactionNotStartedError] in place of the original error, logs
    nothing, emits no [data.mutated] event, and the committed rows are those
    the body committed. *)
Theorem mutate_late_failure (drv : Driver) (m : DataMutation) (w w1 : World)
    (r : json) :
  connect drv (db w) = None -> startTransaction drv (db w) = None ->
  transactional_body drv m (started w) = (Ok r, w1) ->
  Redis.online (redis w) = false \/ m_data m = JNull ->
  let w' := snd (mutate drv m w) in
  fst (mutate drv m w) = Throw TransactionNotStartedError /\
  db w' = db w1 /\ events w' = events w /\ logs w' = logs w /\
  redis w' = redis w /\
  trace w' = (trace w1 ++ [CRollback; CRelease])%list.
Proof.
  intros Hc Hs Hb Hbad. cbv zeta.
  destruct (committed_fields drv m w w1 r Hb) as (Kr & Ke & Kl & Kc & Kt & calls & Ktr).
  destruct (after_commit_fails m r w1 ltac:(now rewrite Kr)) as [e Ha].
  assert (E : mutate drv m w
              = (Throw TransactionNotStartedError,
                 push_call CRelease (push_call CRollback w1))).
  { rewrite (mutate_started drv m w Hc Hs). unfold finally, catch.
    change ((result <- transactional_body drv m ;; after_commit m result) (started w))
      with (match transactional_body drv m (started w) with
            | (Ok a, w') => after_commit m a w'
            | (Throw e, w') => (@Throw json e, w')
            end).
    rewrite Hb, Ha. unfold bind, rollback. now rewrite Kt. }
  rewrite E. simpl. rewrite <- List.app_assoc. repeat split; assumption.
Qed.

Lemma mutate_late_failure_witness :
  let w := Memory.boot false Memory.sample in
  fst (mutate Memory.driver create_matter_a w) = Throw TransactionNotStartedError /\
  db (snd (mutate Memory.driver create_matter_a w))
  = {["Case" := [Memory.case1; matter_a]]}.
Proof.
  cbv zeta.
  destruct (mutate_late_failure Memory.driver create_matter_a
              (Memory.boot false Memory.sample)
              (snd (transactional_body Memory.driver create_matter_a
                      (started (Memory.boot false Memory.sample))))
              matter_a)
    as (H1 & H2 & _).
  - reflexivity.
  - reflexivity.
  - vm_compute. reflexivity.
  - now left.
  - split; [exact H1|]. rewrite H2. vm_compute. reflexivity.
Defined.

End MutateFacts.

Module ContextFacts.
Import Hub HubFacts ProviderFacts Provider.

Lemma unregistered (name : string) :
  ~ In name ["client-portal"; "ai-assistant"; "document-management";
             "legal-research"; "workflow-automation"; "integration-management";
             "entity-management"] ->
  moduleRequirements !! name = None.
Proof.
  intros H. apply not_elem_of_list_to_map_1. intros Hin. apply H.
  apply list_elem_of_In. exact Hin.
Qed.

(** X21.  [getModuleData] for a module that the requirements registry does
    not hold throws [Error("Module requirements not found for: <module>")]
    at once: the only effect is the entry the [catch] block logs.  No query
    reaches the hub, and the cache, the counters, the store and the user
    contexts are left as they are. *)
Theorem getModuleData_unknown_module (drv : Driver) (context : DataContext)
    (w : World) :
  ~ In (module_ context)
       ["client-portal"; "ai-assistant"; "document-management";
        "legal-research"; "workflow-automation"; "integration-management";
        "entity-management"] ->
  let e := Error ("Module requirements not found for: " +:+ module_ context) in
  getModuleData drv context w
  = (Throw e,
     push_log {| level := LError; message := "Failed to get module data";
                 cause := Some e |} w).
Proof.
  intros H. cbv zeta. unfold getModuleData, catch. unfold bind at 1.
  rewrite (unregistered _ H). reflexivity.
Qed.

Lemma getModuleData_unknown_module_witness :
  fst (getModuleData Memory.driver
         {| userId := "u1"; userRole := "attorney"; module_ := "billing";
            action := "view"; entityId := None; filters := None |}
         (Memory.boot true Memory.sample))
  = Throw (Error "Module requirements not found for: billing").
Proof.
  rewrite (getModuleData_unknown_module Memory.driver
             {| userId := "u1"; userRole := "attorney"; module_ := "billing";
                action := "view"; entityId := None; filters := None |}
             (Memory.boot true Memory.sample)).
  - reflexivity.
  - simpl. intros H. repeat (destruct H as [H|H]; [discriminate H|]). exact H.
Defined.



Lemma assoc_put_eq (k : string) (v : json) (l : list (string * json)) :
  Js.assoc k (Js.put k v l) = Some v.
Proof.
  induction l as [|[k' v'] l IH]; simpl.
  - now rewrite String.eqb_refl.
  - destruct (String.eqb k k') eqn:E; simpl.
    + now rewrite String.eqb_refl.
    + now rewrite E.
Qed.

Lemma assoc_put_ne (k k' : string) (v : json) (l : list (string * json)) :
  k <> k' -> Js.assoc k' (Js.put k v l) = Js.assoc k' l.
Proof.
  intros Hne. induction l as [|[k0 v0] l IH]; simpl.
  - apply String.eqb_neq in Hne. rewrite String.eqb_sym in Hne. now rewrite Hne.
  - destruct (String.eqb k k0) eqn:E; simpl.
    + apply String.eqb_eq in E. subst k0.
      assert (H : String.eqb k' k = false).
      { apply String.eqb_neq. congruence. }
      now rewrite H.
    + now rewrite IH.
Qed.

Lemma assoc_merge_notin (k : string) (a b : list (string * json)) :
  ~ In k (map fst b) -> Js.assoc k (Js.merge a b) = Js.assoc k a.
Proof.
  unfold Js.merge. revert a. induction b as [|[k0 v0] b IH]; intros a Hn; simpl.
  - reflexivity.
  - rewrite IH by (intros H; apply Hn; now right).
    apply assoc_put_ne. intros ->. apply Hn. now left.
Qed.

Lemma assoc_merge_in (k : string) (v : json) (a b : list (string * json)) :
  List.NoDup (map fst b) -> In (k, v) b -> Js.assoc k (Js.merge a b) = Some v.
Proof.
  unfold Js.merge. revert a. induction b as [|[k0 v0] b IH]; intros a Hnd Hin.
  - contradiction.
  - simpl. inversion Hnd as [|? ? Hk0 Hnd']; subst.
    destruct Hin as [[= -> ->]|Hin].
    + change (fold_left _ b ?x) with (Js.merge x b).
      rewrite assoc_merge_notin by assumption. apply assoc_put_eq.
    + now apply IH.
Qed.

(** X23.  [updateUserContext] merges into the stored context of the user
    and the module: afterwards the entry holds [lastUpdated], set to the
    time of the call; every property of the new data with its new value;
    and every property stored before that the new data do not name, with
    the value it had.  The contexts stored under other keys are not
    touched. *)
Theorem updateUserContext_merges (uid module : string)
    (data : list (string * json)) (w : World) :
  List.NoDup (map fst data) ->
  let key := "context:" +:+ uid +:+ ":" +:+ module in
  let old := match userContextCache w !! key with
             | Some v => Js.entries v
             | None => []
             end in
  let w' := snd (updateUserContext uid module data w) in
  exists props,
    userContextCache w' !! key = Some (JObj props) /\
    Js.assoc "lastUpdated" props = Some (JNum (clock w)) /\
    (forall k v, In (k, v) data -> k <> "lastUpdated" ->
                 Js.assoc k props = Some v) /\
    (forall k, ~ In k (map fst data) -> k <> "lastUpdated" ->
               Js.assoc k props = Js.assoc k old) /\
    (forall key', key' <> key ->
                  userContextCache w' !! key' = userContextCache w !! key').
Proof.
  intros Hnd. cbv zeta. unfold updateUserContext. simpl.
  eexists. split; [apply lookup_insert_eq|].
  change (Js.merge ?a [("lastUpdated", ?t)]) with (Js.put "lastUpdated" t a).
  split; [apply assoc_put_eq|]. split; [|split].
  - intros k v Hin Hne. rewrite assoc_put_ne by congruence.
    now apply assoc_merge_in.
  - intros k Hn Hne. rewrite assoc_put_ne by congruence.
    now apply assoc_merge_notin.
  - intros key' Hne. apply lookup_insert_ne. congruence.
Qed.

Lemma updateUserContext_merges_witness :
  let w := snd (updateUserContext "u1" "client-portal" [("theme", JStr "dark")]
                  (Memory.boot true Memory.sample)) in
  exists props,
    userContextCache (snd (updateUserContext "u1" "client-portal"
                             [("lastAccess", JNum 7)] w))
      !! "context:u1:client-portal" = Some (JObj props) /\
    Js.assoc "theme" props = Some (JStr "dark").
Proof.
  cbv zeta.
  destruct (updateUserContext_merges "u1" "client-portal" [("lastAccess", JNum 7)]
              (snd (updateUserContext "u1" "client-portal" [("theme", JStr "dark")]
                      (Memory.boot true Memory.sample))))
    as (props & H1 & _ & _ & H4 & _).
  - repeat constructor. simpl. tauto.
  - exists props. split; [exact H1|]. rewrite (H4 "theme").
    + vm_compute. reflexivity.
    + simpl. intros [H|[]]. discriminate H.
    + discriminate.
Defined.


Lemma catch_ok_inv {A} (m : M A) (msg : string) (w w' : World) (a : A) :
  catch m (fun e => log LError msg (Some e) ;; throw e) w = (Ok a, w') ->
  m w = (Ok a, w').
Proof.
  unfold catch. destruct (m w) as [[x|e] w1]; [trivial | discriminate].
Qed.

(** A loop over the entities that ran to its end issued one query each. *)
Lemma collect_counts (drv : Driver) (mk : string -> json) (entities : list string) :
  forall acc w l w',
    collect drv mk entities acc w = (Ok l, w') ->
    queryCount (metrics w')
    = (queryCount (metrics w) + Z.of_nat (length entities))%Z /\
    db w' = db w.
Proof.
  induction entities as [|entity rest IH]; intros acc w l w' H.
  - injection H as <- <-. simpl. split; [lia | reflexivity].
  - simpl collect in H.
    apply MutateFacts.bind_ok_inv in H as (data & w1 & Hq & H).
    apply MutateFacts.bind_ok_inv in H as (items & w2 & Hs & H).
    assert (w2 = w1) as -> by (unfold lift in Hs; now injection Hs).
    destruct (IH _ _ _ _ H) as [Hc Hd].
    pose proof (query_counts drv (mk entity) w) as Hq1. rewrite Hq in Hq1.
    simpl in Hq1.
    assert (Hdb : db w1 = db w).
    { pose proof (QueryFacts.query_keeps_db drv (mk entity) w) as K. now rewrite Hq in K. }
    rewrite Hc, Hq1, Hd, Hdb. simpl length. split; [lia | reflexivity].
Qed.


Lemma getUserPreferences_frame (uid : string) (w w' : World) (p : json) :
  getUserPreferences uid w = (Ok p, w') ->
  metrics w' = metrics w /\ db w' = db w /\ clock w' = clock w.
Proof.
  unfold getUserPreferences.
  destruct (userContextCache w !! _) as [c|]; [destruct (Js.truthy c)|];
    intros [= <- <-]; repeat split.
Qed.

(** X24.  What a call of [getModuleData] that returns has done and built.
    For a registered module, when the call returns a response: the hub was
    asked exactly one query for each primary and each secondary entity of
    the module; the committed rows are untouched; the related data are
    empty; the metadata count the primary data, carry the permissions of
    the module from the registry, report caching unless the strategy of the
    module is [minimal], and suggest the four actions view, edit, delete,
    share; and the context of the user for the module is stored with the
    time of the call as its last update. *)
Theorem getModuleData_shape (drv : Driver) (context : DataContext) (w w' : World)
    (requirements : ModuleDataRequirements) (response : ContextualDataResponse) :
  moduleRequirements !! module_ context = Some requirements ->
  getModuleData drv context w = (Ok response, w') ->
  queryCount (metrics w')
  = (queryCount (metrics w)
     + Z.of_nat (length (primary requirements) + length (secondary requirements)))%Z /\
  db w' = db w /\
  r_related response = [] /\
  totalCount (r_metadata response) = length (r_primary response) /\
  md_permissions (r_metadata response) = permissions requirements /\
  cached (r_metadata response)
  = match cacheStrategy requirements with minimal => false | _ => true end /\
  suggestedActions (r_metadata response) = ["view"; "edit"; "delete"; "share"] /\
  exists props,
    userContextCache w' !! ("context:" +:+ userId context +:+ ":" +:+ module_ context)
    = Some (JObj props) /\
    Js.assoc "lastUpdated" props = Some (JNum (clock w')).
Proof.
  intros Hreq H. unfold getModuleData in H. apply catch_ok_inv in H.
  rewrite Hreq in H.
  apply MutateFacts.bind_ok_inv in H as (req & w0 & H0 & H).
  injection H0 as <- <-.
  apply MutateFacts.bind_ok_inv in H as ([] & w1 & H1 & H).
  injection H1 as <-.
  apply MutateFacts.bind_ok_inv in H as (prefs & w2 & H2 & H).
  destruct (getUserPreferences_frame _ _ _ _ H2) as (M2 & D2 & C2).
  apply MutateFacts.bind_ok_inv in H as (primaryData & w3 & H3 & H).
  destruct (collect_counts _ _ _ _ _ _ _ H3) as (M3 & D3).
  apply MutateFacts.bind_ok_inv in H as (secondaryData & w4 & H4 & H).
  destruct (collect_counts _ _ _ _ _ _ _ H4) as (M4 & D4).
  apply MutateFacts.bind_ok_inv in H as (relatedData & w5 & H5 & H).
  injection H5 as <- <-.
  apply MutateFacts.bind_ok_inv in H as (metadata & w6 & H6 & H).
  unfold buildMetadata in H6.
  apply MutateFacts.bind_ok_inv in H6 as (prefs' & w7 & H7 & H6).
  destruct (getUserPreferences_frame _ _ _ _ H7) as (M7 & D7 & C7).
  apply MutateFacts.bind_ok_inv in H6 as (now & w8 & H8 & H6).
  injection H8 as <- <-. injection H6 as <- <-.
  apply MutateFacts.bind_ok_inv in H as ([] & w9 & H9 & H).
  injection H9 as <-.
  apply MutateFacts.bind_ok_inv in H as (now & w10 & H10 & H).
  injection H10 as <- <-.
  apply MutateFacts.bind_ok_inv in H as ([] & w11 & H11 & H).
  injection H as <- <-.
  unfold updateUserContext in H11. injection H11 as <-.
  simpl. rewrite M7, M4, M3, M2, D7, D4, D3, D2.
  split; [lia|]. repeat split.
  eexists. split; [apply lookup_insert_eq|].
  change (Js.merge ?a [("lastUpdated", ?t)]) with (Js.put "lastUpdated" t a).
  apply assoc_put_eq.
Qed.


Lemma getModuleData_shape_witness :
  let w := Memory.boot true office in
  queryCount (metrics (snd (getModuleData Memory.driver portal_visitor w))) = 6%Z.
Proof.
  cbv zeta.
  assert (E : exists response w',
             getModuleData Memory.driver portal_visitor (Memory.boot true office)
             = (Ok response, w')).
  { vm_compute. eauto. }
  destruct E as (response & w' & E). rewrite E.
  destruct (moduleRequirements !! module_ portal_visitor) as [req|] eqn:Hreq;
    [|discriminate Hreq].
  destruct (getModuleData_shape Memory.driver portal_visitor
              (Memory.boot true office) w' req response Hreq E) as (H & _).
  simpl snd. rewrite H. injection Hreq as <-. reflexivity.
Defined.

Lemma updateModuleData_eq (drv : Driver) (context : DataContext)
    (entity operation : string) (data : json) (w : World) :
  updateModuleData drv context entity operation data w
  = match mutate drv {| m_entity := entity; m_operation := operation;
                        m_data := data; m_validateRelations := true;
                        m_auditTrail := true |} w with
    | (Ok result, w1) =>
        (Ok result,
         push_event (CrossModuleUpdate (module_ context) entity operation result
                       (clock w1)) w1)
    | (Throw e, w1) =>
        (Throw e,
         push_log {| level := LError; message := "Failed to update module data";
                     cause := Some e |} w1)
    end.
Proof.
  unfold updateModuleData, catch, bind, validateMutationPermissions,
    notifyRelatedModules, updatePredictiveModels, ret, gets, emit, modify, log, throw.
  destruct (mutate drv _ w) as [[result|e] w1]; reflexivity.
Qed.

(** X25.  [updateModuleData] is the hub's [mutate], with the validation of
    relations and the audit trail asked for, followed by the notice to the
    other modules.  For every context, whatever the user and the role: when
    the mutation returns a result, that result is returned and one
    [data.cross-module.update] event, naming the module of the context, is
    emitted after the events of the mutation; when the mutation throws, the
    same error is thrown, the failure is logged, and no such event is
    emitted. *)
Theorem updateModuleData_notifies (drv : Driver) (context : DataContext)
    (entity operation : string) (data : json) (w : World) :
  let mutation :=
    {| m_entity := entity; m_operation := operation; m_data := data;
       m_validateRelations := true; m_auditTrail := true |} in
  let w1 := snd (mutate drv mutation w) in
  let w' := snd (updateModuleData drv context entity operation data w) in
  fst (updateModuleData drv context entity operation data w)
  = fst (mutate drv mutation w) /\
  db w' = db w1 /\ redis w' = redis w1 /\ trace w' = trace w1 /\
  match fst (mutate drv mutation w) with
  | Ok result =>
      events w' = (events w1 ++ [CrossModuleUpdate (module_ context) entity
                                  operation result (clock w1)])%list /\
      logs w' = logs w1
  | Throw e =>
      events w' = events w1 /\
      logs w' = (logs w1 ++ [{| level := LError;
                                message := "Failed to update module data";
                                cause := Some e |}])%list
  end.
Proof.
  cbv zeta. rewrite updateModuleData_eq.
  destruct (mutate drv _ w) as [[result|e] w1]; simpl; repeat split.
Qed.

Lemma search_each_nothing (entities : list string) (searchTerm : string)
    (context : DataContext) (options : SearchOptions)
    (found : list (string * list json)) (w : World) :
  search_each entities searchTerm context options found w = (Ok found, w).
Proof.
  revert found. induction entities as [|entity rest IH]; intros found.
  - reflexivity.
  - simpl. unfold bind, searchEntity, ret. apply IH.
Qed.

(** X26.  [searchAcrossModules] finds nothing.  For every context, search
    term and option, whatever the store and the cache hold, it returns an
    empty list of results and a total of 0, with the search term and the
    time of the call; it never throws, also for a module that is not
    registered, and it changes nothing: no query reaches the hub. *)
Theorem searchAcrossModules_finds_nothing (context : DataContext)
    (searchTerm : string) (options : SearchOptions) (w : World) :
  searchAcrossModules context searchTerm options w
  = (Ok {| sr_results := []; sr_totalFound := 0; sr_searchTerm := searchTerm;
           sr_timestamp := clock w |}, w).
Proof.
  unfold searchAcrossModules, catch. cbv zeta. unfold bind at 1.
  rewrite search_each_nothing. reflexivity.
Qed.

Lemma registered_names (name : string) (requirements : ModuleDataRequirements) :
  moduleRequirements !! name = Some requirements ->
  In name ["client-portal"; "ai-assistant"; "document-management";
           "legal-research"; "workflow-automation"; "integration-management";
           "entity-management"].
Proof.
  intros H. apply elem_of_list_to_map_2 in H.
  repeat (apply elem_of_cons in H as [H|H]; [injection H as -> _; simpl; tauto|]).
  now apply elem_of_nil in H.
Qed.



(** With the cache store unreachable every query misses, and leaves the
    store unreachable. *)
Lemma query_offline (drv : Driver) (q : json) (w : World) :
  Redis.online (redis w) = false ->
  is_miss q w /\ redis (snd (query drv q w)) = redis w.
Proof.
  intros Hoff.
  assert (Hm : is_miss q w).
  { intros _ v Hv.
    rewrite (CacheFacts.getFromCache_offline _ w Hoff) in Hv.
    now injection Hv as <-. }
  split; [exact Hm|].
  rewrite (QueryFacts.query_miss_outcome drv q w Hm). cbv zeta.
  assert (Hs : redis (miss_start q w) = redis w).
  { now rewrite (miss_start_keeps redis) by easy_frame. }
  destruct (getRepository (Js.prop "entity" q)) as [repository|];
    [destruct (build repository _ q) as [sq|e];
     [destruct (getMany drv sq (db w)) as [rows|e]|]|]; simpl; try exact Hs.
  unfold cached_rows. destruct (cache_enabled q); [|exact Hs].
  assert (Hk : redis (snd (setCache (generateCacheKey "query" q) (JArr rows)
                             (cache_ttl q) (selected drv sq (miss_start q w))))
               = redis (selected drv sq (miss_start q w))).
  { unfold setCache, catch, setex.
    destruct (cache_ttl q) as [| | n | | |]; try reflexivity.
    unfold redis_run, Redis.setex, log, modify.
    change (redis (selected drv sq (miss_start q w))) with (redis (miss_start q w)).
    rewrite Hs, Hoff. reflexivity. }
  rewrite Hk. exact Hs.
Qed.

Lemma collect_offline (drv : Driver) (mk : string -> json) (entities : list string) :
  (forall entity, Js.prop "entity" (mk entity) = Some (JStr entity)) ->
  forall acc w,
    Redis.online (redis w) = false ->
    redis (snd (collect drv mk entities acc w)) = redis w /\
    (Exists (fun entity => repositories !! entity = None) entities ->
     exists e, fst (collect drv mk entities acc w) = Throw e).
Proof.
  intros Hmk. induction entities as [|entity rest IH]; intros acc w Hoff.
  - split; [reflexivity|]. intros H. inversion H.
  - assert (Ec : collect drv mk (entity :: rest) acc w
                 = match query drv (mk entity) w with
                   | (Ok data, w1) =>
                       match spread data with
                       | Ok items => collect drv mk rest (acc ++ items) w1
                       | Throw e => (Throw e, w1)
                       end
                   | (Throw e, w1) => (Throw e, w1)
                   end).
    { simpl collect. unfold bind, lift.
      destruct (query drv (mk entity) w) as [[data|e] w1]; [|reflexivity].
      destruct (spread data); reflexivity. }
    rewrite Ec. clear Ec.
    destruct (query_offline drv (mk entity) w Hoff) as [Hm Hr].
    destruct (query drv (mk entity) w) as [[data|e] w1] eqn:Eq; simpl in Hr.
    + destruct (spread data) as [items|e]; [|simpl; eauto].
      destruct (IH (acc ++ items)%list w1 ltac:(now rewrite Hr)) as [IHr IHe].
      split; [congruence|].
      intros Hex. apply Exists_cons in Hex as [Hno|Hex]; [|now apply IHe].
      exfalso.
      pose proof (QueryFacts.query_miss_outcome drv (mk entity) w Hm) as Ho.
      cbv zeta in Ho. rewrite Hmk in Ho. simpl getRepository in Ho.
      rewrite Hno, Eq in Ho. discriminate Ho.
    + simpl. eauto.
Qed.

Lemma getUserPreferences_redis (uid : string) (w : World) :
  redis (snd (getUserPreferences uid w)) = redis w.
Proof.
  unfold getUserPreferences.
  destruct (userContextCache w !! _) as [c|]; [destruct (Js.truthy c)|];
    reflexivity.
Qed.

Lemma getModuleData_offline (drv : Driver) (context : DataContext) (w : World)
    (requirements : ModuleDataRequirements) :
  moduleRequirements !! module_ context = Some requirements ->
  Redis.online (redis w) = false ->
  Exists (fun entity => repositories !! entity = None)
         (primary requirements ++ secondary requirements) ->
  exists e, fst (getModuleData drv context w) = Throw e.
Proof.
  intros Hreq Hoff Hex.
  destruct (getModuleData drv context w) as [[response|e] w'] eqn:E; [|simpl; eauto].
  exfalso. unfold getModuleData in E. apply catch_ok_inv in E.
  rewrite Hreq in E.
  apply MutateFacts.bind_ok_inv in E as (req & w0 & H0 & E).
  injection H0 as <- <-.
  apply MutateFacts.bind_ok_inv in E as ([] & w1 & H1 & E).
  injection H1 as <-.
  apply MutateFacts.bind_ok_inv in E as (prefs & w2 & H2 & E).
  assert (Hoff2 : Redis.online (redis w2) = false).
  { pose proof (getUserPreferences_redis (userId context) w) as K.
    rewrite H2 in K. simpl in K. now rewrite K. }
  apply MutateFacts.bind_ok_inv in E as (primaryData & w3 & H3 & E).
  unfold getPrimaryData in H3.
  destruct (collect_offline drv (primary_query context requirements prefs)
              (primary requirements) ltac:(reflexivity) [] w2 Hoff2) as [R3 X3].
  rewrite H3 in R3, X3. simpl in R3, X3.
  apply Exists_app in Hex as [Hp|Hs].
  { destruct (X3 Hp) as [e He]. discriminate He. }
  apply MutateFacts.bind_ok_inv in E as (secondaryData & w4 & H4 & E).
  unfold getSecondaryData in H4.
  destruct (collect_offline drv (secondary_query context prefs)
              (secondary requirements) ltac:(reflexivity) [] w3
              ltac:(now rewrite R3)) as [_ X4].
  rewrite H4 in X4. destruct (X4 Hs) as [e He]. discriminate He.
Qed.

(** X28.  Six of the seven registered modules name an entity the hub has no
    repository for.  For each of them, with the cache store unreachable,
    [getModuleData] throws, whatever the store holds and whoever asks: a
    query for that entity cannot be answered by the store, only by the
    cache. *)
Theorem getModuleData_needs_the_cache (drv : Driver) (context : DataContext)
    (w : World) :
  In (module_ context)
     ["ai-assistant"; "document-management"; "legal-research";
      "workflow-automation"; "integration-management"; "entity-management"] ->
  Redis.online (redis w) = false ->
  exists e, fst (getModuleData drv context w) = Throw e.
Proof.
  intros Hin Hoff.
  assert (H : exists requirements,
             moduleRequirements !! module_ context = Some requirements /\
             Exists (fun entity => repositories !! entity = None)
                    (primary requirements ++ secondary requirements)).
  { simpl in Hin.
    repeat (destruct Hin as [<-|Hin];
            [eexists; split; [vm_compute; reflexivity|];
             simpl; repeat first [ apply Exists_cons_hd; vm_compute; reflexivity
                                 | apply Exists_cons_tl ] |]).
    contradiction. }
  destruct H as (requirements & Hreq & Hex).
  now apply (getModuleData_offline drv context w requirements).
Qed.

Lemma getModuleData_needs_the_cache_witness :
  exists e,
    fst (getModuleData Memory.driver
           {| userId := "u1"; userRole := "attorney"; module_ := "ai-assistant";
              action := "view"; entityId := None; filters := None |}
           (Memory.boot false office)) = Throw e.
Proof.
  apply (getModuleData_needs_the_cache Memory.driver
           {| userId := "u1"; userRole := "attorney"; module_ := "ai-assistant";
              action := "view"; entityId := None; filters := None |}
           (Memory.boot false office)).
  - simpl. tauto.
  - reflexivity.
Defined.

End ContextFacts.

Module PortalFacts.
Import Hub HubFacts ContextFacts.

Lemma portal_adapter :
  ClientPortal.adapter = Some Adapters.newClientPortalDataAdapter.
Proof. vm_compute. reflexivity. Qed.

Lemma searchModuleData_eq (a : Adapters.BaseModuleDataAdapter)
    (uid searchTerm : string) (options : Provider.SearchOptions) (w : World) :
  Adapters.searchModuleData a uid searchTerm options w
  = (Ok (Adapters.transformSearchResults a
           {| Provider.sr_results := []; Provider.sr_totalFound := 0;
              Provider.sr_searchTerm := searchTerm;
              Provider.sr_timestamp := clock w |}), w).
Proof.
  unfold Adapters.searchModuleData, catch, Adapters.getUserRole.
  unfold bind at 1. unfold ret at 1. cbv zeta. unfold bind at 1.
  unfold Provider.searchAcrossModules, catch. cbv zeta. unfold bind at 1.
  rewrite search_each_nothing. reflexivity.
Qed.

(** The text of a string that ends in a given byte. *)
Lemma list_ascii_of_string_app (s t : string) :
  list_ascii_of_string (s +:+ t)
  = (list_ascii_of_string s ++ list_ascii_of_string t)%list.
Proof.
  induction s as [|c s IH]; [reflexivity|].
  change (String c s +:+ t) with (String c (s +:+ t)). simpl.
  now rewrite IH.
Qed.

(** A term that ends in an ASCII character loses that character. *)
Lemma without_last_unit_ascii (s : string) (c : ascii) :
  (Js.byte c < 128)%N -> Js.without_last_unit (s +:+ String c "") = s.
Proof.
  intros Hc. unfold Js.without_last_unit. cbv zeta.
  rewrite list_ascii_of_string_app. simpl list_ascii_of_string.
  rewrite rev_app_distr. simpl rev. simpl app.
  unfold Js.last_width. apply N.ltb_lt in Hc. rewrite Hc.
  simpl drop. rewrite drop_0, rev_involutive.
  apply string_of_list_ascii_of_string.
Qed.

(** A term that ends in a character of two or three bytes (cafe with an
    acute accent, a price in euros) loses the whole character; one that
    ends in a character of four bytes (the grinning face U+1F600) keeps the
    high surrogate U+D83D of that character; the empty term stays empty. *)
Lemma without_last_unit_examples :
  let text := fun l => string_of_list_ascii (map ascii_of_N l) in
  Js.without_last_unit (text [99; 97; 102; 195; 169]%N) = "caf" /\
  Js.without_last_unit (text [53; 226; 130; 172]%N) = "5" /\
  Js.without_last_unit (text [97; 240; 159; 152; 128]%N)
  = text [97; 237; 160; 189]%N /\
  Js.without_last_unit "" = "".
Proof. repeat split. Qed.

(** X29.  [searchClientData] never finds anything.  For every client and
    search term, whatever the store and the cache hold, the service returns
    empty lists of clients, cases and documents with a total of 0, together
    with the three suggestions of the case "nothing found", the first one
    proposing the search term without its last UTF-16 code unit, as
    [substring(0, length - 1)] cuts it.  It never throws and changes
    nothing: no query reaches the hub. *)
Theorem searchClientData_finds_nothing (clientId searchTerm : string) (w : World) :
  ClientPortal.searchClientData clientId searchTerm w
  = (Ok {| ClientPortal.cs_results := Adapters.ClientPortalSearch [] [] [] 0;
           ClientPortal.cs_suggestions :=
             ["Try searching for " +:+
                String dquote
                  (Js.without_last_unit searchTerm +:+ String dquote "");
              "Search in documents only";
              "Search in case names"] |}, w).
Proof.
  unfold ClientPortal.searchClientData, catch, ClientPortal.on_adapter.
  rewrite portal_adapter. unfold bind at 1. rewrite searchModuleData_eq.
  reflexivity.
Qed.

Lemma adapter_updateModuleData_eq (drv : Driver) (a : Adapters.BaseModuleDataAdapter)
    (uid entity operation : string) (data : json) (w : World) :
  exists context,
    Provider.module_ context = Adapters.moduleName (Adapters.config a) /\
    Adapters.updateModuleData drv a uid entity operation data w
    = match Provider.updateModuleData drv context entity operation data w with
      | (Ok result, w1) => (Ok result, w1)
      | (Throw e, w1) =>
          (Throw e,
           push_log {| level := LError; message := "Failed to update module data";
                       cause := Some e |} w1)
      end.
Proof.
  eexists. split; [|unfold Adapters.updateModuleData, catch, Adapters.getUserRole;
                    unfold bind at 1; unfold ret at 1; cbv zeta; reflexivity].
  reflexivity.
Qed.

Lemma updateClientData_eq (drv : Driver)
    (clientId entity operation : string) (data : json) (w : World) :
  ClientPortal.updateClientData drv clientId entity operation data w
  = match mutate drv {| m_entity := entity; m_operation := operation;
                        m_data := data; m_validateRelations := true;
                        m_auditTrail := true |} w with
    | (Ok result, w1) =>
        let w2 := push_event (CrossModuleUpdate "client-portal" entity operation
                                result (clock w1)) w1 in
        match member "id" result with
        | Ok _ =>
            (Ok result,
             push_log {| level := LInfo; message := "Client data updated";
                         cause := None |} w2)
        | Throw e =>
            (Throw e,
             push_log {| level := LError; message := "Client data update failed";
                         cause := Some e |} w2)
        end
    | (Throw e, w1) =>
        (Throw e,
         push_log {| level := LError; message := "Client data update failed";
                     cause := Some e |}
           (push_log {| level := LError; message := "Failed to update module data";
                        cause := Some e |}
              (push_log {| level := LError; message := "Failed to update module data";
                           cause := Some e |} w1)))
    end.
Proof.
  unfold ClientPortal.updateClientData, catch, ClientPortal.on_adapter.
  rewrite portal_adapter. unfold bind at 1.
  destruct (adapter_updateModuleData_eq drv Adapters.newClientPortalDataAdapter
              clientId entity operation data w) as (context & Hm & ->).
  rewrite updateModuleData_eq. rewrite Hm.
  destruct (mutate drv _ w) as [[result|e] w1]; [|reflexivity].
  unfold bind, lift, log, modify, ret, throw. cbv zeta.
  destruct (member "id" result); reflexivity.
Qed.

(** X30.  [updateClientData] and the result of the mutation.  The service
    hands the mutation to the hub through the adapter and the provider.
    When the hub throws, the same error is thrown.  When the hub returns a
    result that is not [null], that result is returned.  When the hub
    returns [null], as for the update of a row that does not exist, the
    service throws the [TypeError] of reading [id] on [null].  In every
    case the committed rows are those the hub's mutation left: in the last
    case the mutation stays committed although the call failed. *)
Theorem updateClientData_result (drv : Driver)
    (clientId entity operation : string) (data : json) (w : World) :
  let mutation :=
    {| m_entity := entity; m_operation := operation; m_data := data;
       m_validateRelations := true; m_auditTrail := true |} in
  let out := ClientPortal.updateClientData drv clientId entity operation data w in
  db (snd out) = db (snd (mutate drv mutation w)) /\
  match fst (mutate drv mutation w) with
  | Ok JNull =>
      fst out = Throw (TypeError "Cannot read properties of null (reading 'id')")
  | Ok result => fst out = Ok result
  | Throw e => fst out = Throw e
  end.
Proof.
  cbv zeta. rewrite updateClientData_eq.
  destruct (mutate drv _ w) as [[result|e] w1]; [|simpl; now split].
  destruct result; simpl; now split.
Qed.

Lemma updateClientData_result_witness :
  let data := JObj [("id", JStr "k9"); ("title", JStr "Matter Z")] in
  let w := Memory.boot true Memory.sample in
  fst (ClientPortal.updateClientData Memory.driver "c1" "Case" "update" data w)
  = Throw (TypeError "Cannot read properties of null (reading 'id')") /\
  db (snd (ClientPortal.updateClientData Memory.driver "c1" "Case" "update" data w))
  = Memory.sample.
Proof.
  cbv zeta.
  pose proof (updateClientData_result Memory.driver "c1" "Case" "update"
                (JObj [("id", JStr "k9"); ("title", JStr "Matter Z")])
                (Memory.boot true Memory.sample)) as [Hdb Hres].
  cbv zeta in Hdb, Hres. split.
  - revert Hres. vm_compute. trivial.
  - rewrite Hdb. vm_compute. reflexivity.
Defined.

End PortalFacts.
